(** * pprof driver configuration: PprofConfig, its field registry, the
      accessor (get/set), configure-by-name, the URL codec
      (applyURL/makeURL) and the settings file: reading and writing it,
      the menu made from it, and saving and removing a named
      configuration.

    The development follows internal/driver's config.go and settings.go.
    Go strings are byte strings ([string] of [ascii]); Go's [int] is taken
    at 64 bits; Go maps are [gmap]s; a [float64] is a primitive binary64
    float.  Code that mutates [*cfg] in place is written in state-passing
    style and returns the configuration next to Go's [error] result. *)

From Stdlib Require Import ZArith String Ascii List Bool Lia.
From Stdlib Require Import Floats.PrimFloat.
From stdpp Require Import gmap strings list sorting.

Local Open Scope string_scope.
Local Open Scope Z_scope.

(** ** Errors *)

(** strconv.ErrSyntax and strconv.ErrRange. *)
Inductive numErr := ErrSyntax | ErrRange.

(** The error values the modelled code builds.  A message built with
    fmt.Errorf is kept as its format together with its arguments. *)
Inductive error :=
| NumError (Func Num : string) (Err : numErr)
    (* *strconv.NumError *)
| IllegalBool (s : string)
    (* illegal value "%s" for bool variable *)
| InvalidChoice (name value : string)
    (* invalid %q value %q *)
| UnknownField (name : string)
    (* unknown PprofConfig field %q *)
| ErrorSetting (name : string) (cause : error)
    (* error setting PprofConfig field %s: %v *)
| EscapeError (s : string)
    (* url.EscapeError *)
| InvalidSemicolon
    (* invalid semicolon separator in query *)
| PathError (op path : string) (notExist : bool)
    (* *fs.PathError; notExist is what os.IsNotExist answers *)
| JSONError (msg : string)
    (* an error of encoding/json *)
| CouldNotRead (cause : error)
| CouldNotParse (cause : error)
| CouldNotEncode (cause : error)
| FailedCreateDir (cause : error)
| FailedWrite (cause : error)
| InvalidConfigName
    (* invalid PprofConfig name *)
| ConfigNotFound (name : string)
    (* PprofConfig %s not found *).

(** A Go result pair (value, err) whose value is only used when err is nil. *)
Inductive result (A : Type) :=
| Ok (a : A)
| Err (e : error).
Arguments Ok {A} a.
Arguments Err {A} e.

(** ** strconv and fmt on integers and booleans *)

Module strconv.

Definition isDigit (c : ascii) : bool :=
  (48 <=? Z.of_N (N_of_ascii c)) && (Z.of_N (N_of_ascii c) <=? 57).

Definition digitVal (c : ascii) : Z := Z.of_N (N_of_ascii c) - 48.

Definition intSize : Z := 64.
Definition maxInt : Z := 2 ^ (intSize - 1) - 1.
Definition minInt : Z := - 2 ^ (intSize - 1).
Definition maxUint64 : Z := 2 ^ 64 - 1.

(** The digit loop of ParseUint in base 10 at 64 bits, on a uint64 n: a
    byte that is no digit is a syntax error, a digit with which the number
    overflows is a range error, and the loop returns at the first of the
    two. *)
Fixpoint parseDigits (s : string) (n : Z) : Z + numErr :=
  match s with
  | EmptyString => inl n
  | String c rest =>
      if isDigit c then
        if maxUint64 / 10 + 1 <=? n then inr ErrRange (* n*base overflows *)
        else
          let n := (n * 10) mod 2 ^ 64 in
          let n1 := (n + digitVal c) mod 2 ^ 64 in
          if (n1 <? n) || (maxUint64 <? n1) then inr ErrRange (* n+d overflows *)
          else parseDigits rest n1
      else inr ErrSyntax
  end.

(** strconv.Atoi: an optional sign, then one or more decimal digits, read
    by ParseUint; ParseInt then checks the number against the range of
    int.  The error names Atoi and the whole string. *)
Definition Atoi (s : string) : result Z :=
  let '(neg, body) :=
    match s with
    | String "+" rest => (false, rest)
    | String "-" rest => (true, rest)
    | _ => (false, s)
    end in
  match body with
  | EmptyString => Err (NumError "Atoi" s ErrSyntax)
  | _ =>
      match parseDigits body 0 with
      | inr kind => Err (NumError "Atoi" s kind)
      | inl un =>
          let cutoff := 2 ^ (intSize - 1) in
          if negb neg && (cutoff <=? un) then Err (NumError "Atoi" s ErrRange)
          else if neg && (cutoff <? un) then Err (NumError "Atoi" s ErrRange)
          else Ok (if neg then - un else un)
      end
  end.

(** strconv.ParseBool. *)
Definition ParseBool (str : string) : result bool :=
  if bool_decide (str ∈ ["1"; "t"; "T"; "TRUE"; "true"; "True"]) then Ok true
  else if bool_decide (str ∈ ["0"; "f"; "F"; "FALSE"; "false"; "False"]) then Ok false
  else Err (NumError "ParseBool" str ErrSyntax).

Definition digitChar (d : Z) : ascii := ascii_of_N (Z.to_N (48 + d)).

(** Decimal digits of a non-negative number, most significant first. *)
Fixpoint formatDigits (fuel : nat) (n : Z) (acc : string) : string :=
  match fuel with
  | O => acc
  | S fuel' =>
      let acc' := String (digitChar (n mod 10)) acc in
      if n <? 10 then acc' else formatDigits fuel' (n / 10) acc'
  end.

(** strconv.Itoa, which is what fmt.Sprint prints for an int. *)
Definition Itoa (n : Z) : string :=
  if n <? 0 then String "-" (formatDigits (Z.to_nat (Z.log2 (- n)) + 1) (- n) "")
  else formatDigits (Z.to_nat (Z.log2 n) + 1) n "".

End strconv.

Module fmt.

Definition SprintInt (n : Z) : string := strconv.Itoa n.

Definition SprintBool (b : bool) : string := if b then "true" else "false".

End fmt.

(** ** net/url: query escaping, url.Values and url.URL *)

Module url.

Definition byte (c : ascii) : Z := Z.of_N (N_of_ascii c).

Definition isAlnum (c : ascii) : bool :=
  ((97 <=? byte c) && (byte c <=? 122))
  || ((65 <=? byte c) && (byte c <=? 90))
  || ((48 <=? byte c) && (byte c <=? 57)).

(** shouldEscape c encodeQueryComponent: everything is escaped but the
    unreserved characters. *)
Definition shouldEscape (c : ascii) : bool :=
  if isAlnum c then false
  else if bool_decide (c ∈ ["-"; "_"; "."; "~"]%char) then false
  else true.

Definition upperhex (n : Z) : ascii :=
  nth (Z.to_nat n)
    ["0"; "1"; "2"; "3"; "4"; "5"; "6"; "7"; "8"; "9";
     "A"; "B"; "C"; "D"; "E"; "F"]%char "0"%char.

Definition ishex (c : ascii) : bool :=
  ((48 <=? byte c) && (byte c <=? 57))
  || ((97 <=? byte c) && (byte c <=? 102))
  || ((65 <=? byte c) && (byte c <=? 70)).

Definition unhex (c : ascii) : Z :=
  if (48 <=? byte c) && (byte c <=? 57) then byte c - 48
  else if (97 <=? byte c) && (byte c <=? 102) then byte c - 97 + 10
  else if (65 <=? byte c) && (byte c <=? 70) then byte c - 65 + 10
  else 0.

(** url.QueryEscape. *)
Fixpoint QueryEscape (s : string) : string :=
  match s with
  | EmptyString => EmptyString
  | String c rest =>
      if shouldEscape c then
        if Ascii.eqb c " " then String "+" (QueryEscape rest)
        else String "%" (String (upperhex (Z.shiftr (byte c) 4))
               (String (upperhex (Z.land (byte c) 15)) (QueryEscape rest)))
      else String c (QueryEscape rest)
  end.

(** url.QueryUnescape: the first malformed percent escape is an
    EscapeError carrying at most three bytes from the percent sign on. *)
Fixpoint QueryUnescape (s : string) : result string :=
  match s with
  | EmptyString => Ok EmptyString
  | String "%" (String a (String b rest)) =>
      if ishex a && ishex b then
        match QueryUnescape rest with
        | Ok t => Ok (String (ascii_of_N (Z.to_N (Z.lor (Z.shiftl (unhex a) 4) (unhex b)))) t)
        | Err e => Err e
        end
      else Err (EscapeError (String "%" (String a (String b EmptyString))))
  | String "%" _ => Err (EscapeError s)
  | String "+" rest =>
      match QueryUnescape rest with
      | Ok t => Ok (String " " t)
      | Err e => Err e
      end
  | String c rest =>
      match QueryUnescape rest with
      | Ok t => Ok (String c t)
      | Err e => Err e
      end
  end.

(** strings.Cut with a one-byte separator. *)
Fixpoint Cut (s : string) (sep : ascii) : string * string * bool :=
  match s with
  | EmptyString => (EmptyString, EmptyString, false)
  | String c rest =>
      if Ascii.eqb c sep then (EmptyString, rest, true)
      else let '(before, after, found) := Cut rest sep in
           (String c before, after, found)
  end.

(** strings.Contains with a one-byte substring. *)
Fixpoint Contains (s : string) (c : ascii) : bool :=
  match s with
  | EmptyString => false
  | String c' rest => Ascii.eqb c' c || Contains rest c
  end.

(** url.Values is map[string][]string. *)
Abbreviation Values := (gmap string (list string)).

(** Values.Get: the first value of the key, or the empty string. *)
Definition Get (v : Values) (key : string) : string :=
  match v !! key with
  | Some (x :: _) => x
  | _ => ""
  end.

(** Values.Set replaces the key's values by the one given. *)
Definition Set_ (v : Values) (key value : string) : Values :=
  <[key := [value]]> v.

(** Values.Add appends to the key's values. *)
Definition Add (v : Values) (key value : string) : Values :=
  <[key := (default [] (v !! key) ++ [value])%list]> v.

(** Values.Del. *)
Definition Del (v : Values) (key : string) : Values := delete key v.

(** The loop of url.parseQuery: each iteration cuts the next
    ampersand-separated pair off the query; [fuel] bounds the iterations. *)
Fixpoint parseQueryLoop (fuel : nat) (m : Values) (err : option error)
    (query : string) : Values * option error :=
  match fuel with
  | O => (m, err)
  | S fuel' =>
      if String.eqb query "" then (m, err)
      else
        let '(key, query', _) := Cut query "&" in
        if Contains key ";" then
          parseQueryLoop fuel' m (Some InvalidSemicolon) query'
        else if String.eqb key "" then parseQueryLoop fuel' m err query'
        else
          let '(key, value, _) := Cut key "=" in
          let first e1 := match err with None => Some e1 | _ => err end in
          match QueryUnescape key with
          | Err e1 => parseQueryLoop fuel' m (first e1) query'
          | Ok key =>
              match QueryUnescape value with
              | Err e1 => parseQueryLoop fuel' m (first e1) query'
              | Ok value => parseQueryLoop fuel' (Add m key value) err query'
              end
          end
  end.

(** url.ParseQuery.  Every iteration on a non-empty query removes at
    least one byte, so the length of the query is enough fuel. *)
Definition ParseQuery (query : string) : Values * option error :=
  parseQueryLoop (String.length query) ∅ None query.

(** The inner loop of Values.Encode: one key=value pair per value,
    an ampersand before each pair but the first of the buffer. *)
Definition encodeValues (keyEscaped : string) (vs : list string)
    (buf : string) : string :=
  fold_left (fun buf v =>
    (if Nat.ltb 0 (String.length buf) then buf +:+ "&" else buf)
      +:+ keyEscaped +:+ "=" +:+ QueryEscape v) vs buf.

(** Values.Encode: the keys in sorted order. *)
Definition Encode (v : Values) : string :=
  if Nat.eqb (size v) 0 then ""
  else
    let keys := merge_sort String.le (map fst (map_to_list v)) in
    fold_left (fun buf k =>
      encodeValues (QueryEscape k) (default [] (v !! k)) buf) keys "".

(** The part of url.URL that the modelled code can tell apart. *)
Record URL := mkURL {
  Scheme : string;
  Host : string;
  Path : string;
  RawQuery : string;
  Fragment : string
}.

(** URL.Query drops ParseQuery's error. *)
Definition Query (u : URL) : Values := fst (ParseQuery (RawQuery u)).

Definition withRawQuery (u : URL) (q : string) : URL :=
  {| Scheme := Scheme u; Host := Host u; Path := Path u;
     RawQuery := q; Fragment := Fragment u |}.

End url.

(** ** strings *)

Module gostrings.

(** strings.Split with a one-byte separator. *)
Fixpoint Split (s : string) (sep : ascii) : list string :=
  match s with
  | EmptyString => [EmptyString]
  | String c rest =>
      if Ascii.eqb c sep then EmptyString :: Split rest sep
      else match Split rest sep with
           | h :: t => String c h :: t
           | [] => [String c EmptyString]
           end
  end.

(** strings.HasPrefix. *)
Definition HasPrefix (s prefix : string) : bool := String.prefix prefix s.

End gostrings.

(** ** fmt and strconv on float64 *)

(** What strconv.ParseFloat(s, 64) answers: the value, or the kind of its
    *NumError. *)
Inductive parsedFloat :=
| Parsed (v : float)
| Failed (kind : numErr).

(** The decimal text of a float64.  The conversions between binary64
    values and decimal text belong to Go's runtime library; the
    configuration code is written against them, and so is this model. *)
Class Float64Text := {
  (** fmt.Sprint on a float64 *)
  SprintFloat64 : float -> string;
  (** strconv.ParseFloat(s, 64) *)
  ParseFloat : string -> parsedFloat
}.

(** ** PprofConfig *)

Module driver.

(** PprofConfig holds settings for a single named PprofConfig. *)
Record PprofConfig := mkPprofConfig {
  Output : string;
  CallTree : bool;
  RelativePercentages : bool;
  Unit : string;
  CompactLabels : bool;
  SourcePath : string;
  TrimPath : string;
  IntelSyntax : bool;
  Mean : bool;
  SampleIndex : string;
  DivideBy : float;
  Normalize : bool;
  Sort : string;
  DropNegative : bool;
  NodeCount : Z;
  NodeFraction : float;
  EdgeFraction : float;
  Trim : bool;
  Focus : string;
  Ignore : string;
  PruneFrom : string;
  Hide : string;
  Show : string;
  ShowFrom : string;
  TagFocus : string;
  TagIgnore : string;
  TagShow : string;
  TagHide : string;
  NoInlines : bool;
  Granularity : string
}.

(** The zero value PprofConfig{}. *)
Definition zeroConfig : PprofConfig :=
  {| Output := ""; CallTree := false; RelativePercentages := false;
     Unit := ""; CompactLabels := false; SourcePath := ""; TrimPath := "";
     IntelSyntax := false; Mean := false; SampleIndex := "";
     DivideBy := 0%float; Normalize := false; Sort := "";
     DropNegative := false; NodeCount := 0; NodeFraction := 0%float;
     EdgeFraction := 0%float; Trim := false; Focus := ""; Ignore := "";
     PruneFrom := ""; Hide := ""; Show := ""; ShowFrom := "";
     TagFocus := ""; TagIgnore := ""; TagShow := ""; TagHide := "";
     NoInlines := false; Granularity := "" |}.

(** DefaultConfig returns the default configuration values. *)
Definition DefaultConfig : PprofConfig :=
  {| Output := ""; CallTree := false; RelativePercentages := false;
     Unit := "minimum"; CompactLabels := false; SourcePath := "";
     TrimPath := ""; IntelSyntax := false; Mean := false; SampleIndex := "";
     DivideBy := 1%float; Normalize := false; Sort := "flat";
     DropNegative := false; NodeCount := -1; NodeFraction := 0x1.47ae147ae147bp-8%float (* 0.005 *);
     EdgeFraction := 0x1.0624dd2f1a9fcp-10%float (* 0.001 *); Trim := true; Focus := ""; Ignore := "";
     PruneFrom := ""; Hide := ""; Show := ""; ShowFrom := "";
     TagFocus := ""; TagIgnore := ""; TagShow := ""; TagHide := "";
     NoInlines := false; Granularity := "functions" |}.

(** ** The fields of PprofConfig by index *)

(** The position of a field in the struct: what reflect.StructField.Index
    holds and FieldByIndex takes. *)
Inductive fieldIndex :=
| IOutput | ICallTree | IRelativePercentages | IUnit | ICompactLabels
| ISourcePath | ITrimPath | IIntelSyntax | IMean | ISampleIndex | IDivideBy
| INormalize | ISort | IDropNegative | INodeCount | INodeFraction
| IEdgeFraction | ITrim | IFocus | IIgnore | IPruneFrom | IHide | IShow
| IShowFrom | ITagFocus | ITagIgnore | ITagShow | ITagHide | INoInlines
| IGranularity.

#[global] Instance fieldIndex_eq_dec : EqDecision fieldIndex.
Proof. solve_decision. Defined.

(** A value of one of the kinds a field of PprofConfig has. *)
Inductive value :=
| VString (s : string)
| VInt (n : Z)
| VFloat64 (x : float)
| VBool (b : bool).

(** Reading the field at an index (reflect's FieldByIndex, then Interface). *)
Definition load (i : fieldIndex) (cfg : PprofConfig) : value :=
  match i with
  | IOutput => VString (Output cfg)
  | ICallTree => VBool (CallTree cfg)
  | IRelativePercentages => VBool (RelativePercentages cfg)
  | IUnit => VString (Unit cfg)
  | ICompactLabels => VBool (CompactLabels cfg)
  | ISourcePath => VString (SourcePath cfg)
  | ITrimPath => VString (TrimPath cfg)
  | IIntelSyntax => VBool (IntelSyntax cfg)
  | IMean => VBool (Mean cfg)
  | ISampleIndex => VString (SampleIndex cfg)
  | IDivideBy => VFloat64 (DivideBy cfg)
  | INormalize => VBool (Normalize cfg)
  | ISort => VString (Sort cfg)
  | IDropNegative => VBool (DropNegative cfg)
  | INodeCount => VInt (NodeCount cfg)
  | INodeFraction => VFloat64 (NodeFraction cfg)
  | IEdgeFraction => VFloat64 (EdgeFraction cfg)
  | ITrim => VBool (Trim cfg)
  | IFocus => VString (Focus cfg)
  | IIgnore => VString (Ignore cfg)
  | IPruneFrom => VString (PruneFrom cfg)
  | IHide => VString (Hide cfg)
  | IShow => VString (Show cfg)
  | IShowFrom => VString (ShowFrom cfg)
  | ITagFocus => VString (TagFocus cfg)
  | ITagIgnore => VString (TagIgnore cfg)
  | ITagShow => VString (TagShow cfg)
  | ITagHide => VString (TagHide cfg)
  | INoInlines => VBool (NoInlines cfg)
  | IGranularity => VString (Granularity cfg)
  end.

(** Writing through the address of the field at an index.  Go's type
    system only lets a value of the field's own type through; a value of
    another kind leaves the field as it is. *)
Definition store (i : fieldIndex) (v : value) (cfg : PprofConfig) : PprofConfig :=
  {| Output := match i, v with IOutput, VString s => s | _, _ => Output cfg end;
     CallTree := match i, v with ICallTree, VBool b => b | _, _ => CallTree cfg end;
     RelativePercentages :=
       match i, v with IRelativePercentages, VBool b => b | _, _ => RelativePercentages cfg end;
     Unit := match i, v with IUnit, VString s => s | _, _ => Unit cfg end;
     CompactLabels :=
       match i, v with ICompactLabels, VBool b => b | _, _ => CompactLabels cfg end;
     SourcePath := match i, v with ISourcePath, VString s => s | _, _ => SourcePath cfg end;
     TrimPath := match i, v with ITrimPath, VString s => s | _, _ => TrimPath cfg end;
     IntelSyntax := match i, v with IIntelSyntax, VBool b => b | _, _ => IntelSyntax cfg end;
     Mean := match i, v with IMean, VBool b => b | _, _ => Mean cfg end;
     SampleIndex :=
       match i, v with ISampleIndex, VString s => s | _, _ => SampleIndex cfg end;
     DivideBy := match i, v with IDivideBy, VFloat64 x => x | _, _ => DivideBy cfg end;
     Normalize := match i, v with INormalize, VBool b => b | _, _ => Normalize cfg end;
     Sort := match i, v with ISort, VString s => s | _, _ => Sort cfg end;
     DropNegative :=
       match i, v with IDropNegative, VBool b => b | _, _ => DropNegative cfg end;
     NodeCount := match i, v with INodeCount, VInt n => n | _, _ => NodeCount cfg end;
     NodeFraction :=
       match i, v with INodeFraction, VFloat64 x => x | _, _ => NodeFraction cfg end;
     EdgeFraction :=
       match i, v with IEdgeFraction, VFloat64 x => x | _, _ => EdgeFraction cfg end;
     Trim := match i, v with ITrim, VBool b => b | _, _ => Trim cfg end;
     Focus := match i, v with IFocus, VString s => s | _, _ => Focus cfg end;
     Ignore := match i, v with IIgnore, VString s => s | _, _ => Ignore cfg end;
     PruneFrom := match i, v with IPruneFrom, VString s => s | _, _ => PruneFrom cfg end;
     Hide := match i, v with IHide, VString s => s | _, _ => Hide cfg end;
     Show := match i, v with IShow, VString s => s | _, _ => Show cfg end;
     ShowFrom := match i, v with IShowFrom, VString s => s | _, _ => ShowFrom cfg end;
     TagFocus := match i, v with ITagFocus, VString s => s | _, _ => TagFocus cfg end;
     TagIgnore := match i, v with ITagIgnore, VString s => s | _, _ => TagIgnore cfg end;
     TagShow := match i, v with ITagShow, VString s => s | _, _ => TagShow cfg end;
     TagHide := match i, v with ITagHide, VString s => s | _, _ => TagHide cfg end;
     NoInlines := match i, v with INoInlines, VBool b => b | _, _ => NoInlines cfg end;
     Granularity :=
       match i, v with IGranularity, VString s => s | _, _ => Granularity cfg end |}.

(** ** reflect: kinds and struct fields *)

Module reflect.

(** reflect.Kind, for the kinds a field of PprofConfig has. *)
Inductive Kind := String_ | Int | Float64 | Bool.

#[global] Instance Kind_eq_dec : EqDecision Kind.
Proof. solve_decision. Defined.

Definition kindOf (v : value) : Kind :=
  match v with
  | VString _ => String_
  | VInt _ => Int
  | VFloat64 _ => Float64
  | VBool _ => Bool
  end.

(** reflect.StructField: the Go name of the field, the value of its json
    tag and its index. *)
Record StructField := mkStructField {
  Name : string;
  JSONTag : string;
  Index : fieldIndex
}.

(** Field.Type.Kind(): the kind of the field in the struct type. *)
Definition TypeKind (field : StructField) : Kind :=
  kindOf (load (Index field) zeroConfig).

(** reflect.TypeOf(PprofConfig{}): the fields in declaration order. *)
Definition structFields : list StructField :=
  [ mkStructField "Output" "-" IOutput;
    mkStructField "CallTree" "call_tree,omitempty" ICallTree;
    mkStructField "RelativePercentages" "relative_percentages,omitempty" IRelativePercentages;
    mkStructField "Unit" "unit,omitempty" IUnit;
    mkStructField "CompactLabels" "compact_labels,omitempty" ICompactLabels;
    mkStructField "SourcePath" "-" ISourcePath;
    mkStructField "TrimPath" "-" ITrimPath;
    mkStructField "IntelSyntax" "intel_syntax,omitempty" IIntelSyntax;
    mkStructField "Mean" "mean,omitempty" IMean;
    mkStructField "SampleIndex" "-" ISampleIndex;
    mkStructField "DivideBy" "-" IDivideBy;
    mkStructField "Normalize" "normalize,omitempty" INormalize;
    mkStructField "Sort" "sort,omitempty" ISort;
    mkStructField "DropNegative" "drop_negative,omitempty" IDropNegative;
    mkStructField "NodeCount" "nodecount,omitempty" INodeCount;
    mkStructField "NodeFraction" "nodefraction,omitempty" INodeFraction;
    mkStructField "EdgeFraction" "edgefraction,omitempty" IEdgeFraction;
    mkStructField "Trim" "trim,omitempty" ITrim;
    mkStructField "Focus" "focus,omitempty" IFocus;
    mkStructField "Ignore" "ignore,omitempty" IIgnore;
    mkStructField "PruneFrom" "prune_from,omitempty" IPruneFrom;
    mkStructField "Hide" "hide,omitempty" IHide;
    mkStructField "Show" "show,omitempty" IShow;
    mkStructField "ShowFrom" "show_from,omitempty" IShowFrom;
    mkStructField "TagFocus" "tagfocus,omitempty" ITagFocus;
    mkStructField "TagIgnore" "tagignore,omitempty" ITagIgnore;
    mkStructField "TagShow" "tagshow,omitempty" ITagShow;
    mkStructField "TagHide" "taghide,omitempty" ITagHide;
    mkStructField "NoInlines" "noinlines,omitempty" INoInlines;
    mkStructField "Granularity" "granularity,omitempty" IGranularity ].

End reflect.

(** ** The pointer to a field *)

(** What fieldPtr hands to a type switch: a pointer of the field's own
    type, which is its current content together with the assignment
    through it. *)
Inductive pointer :=
| PString (deref : string) (assign : string -> PprofConfig)
| PInt (deref : Z) (assign : Z -> PprofConfig)
| PFloat64 (deref : float) (assign : float -> PprofConfig)
| PBool (deref : bool) (assign : bool -> PprofConfig).

(** Addr().Interface() of the field at an index of cfg. *)
Definition addrOf (cfg : PprofConfig) (i : fieldIndex) : pointer :=
  match load i cfg with
  | VString s => PString s (fun s' => store i (VString s') cfg)
  | VInt n => PInt n (fun n' => store i (VInt n') cfg)
  | VFloat64 x => PFloat64 x (fun x' => store i (VFloat64 x') cfg)
  | VBool b => PBool b (fun b' => store i (VBool b') cfg)
  end.

(** ** The field registry *)

(** configField contains metadata for a single configuration field. *)
Record configField := mkConfigField {
  name : string;
  urlparam : string;
  saved : bool;
  field : reflect.StructField;
  choices : list string;
  defaultValue : string
}.

(** fieldPtr returns a pointer to the field identified by f in cfg. *)
Definition fieldPtr (cfg : PprofConfig) (f : configField) : pointer :=
  addrOf cfg (reflect.Index (field f)).

(** Modelled from the spec: stringToBool, the helper of this package that
    set calls for a boolean field; it is defined outside config.go.  By the
    spec a boolean is written in full as true or false and shortened in a
    URL to t or f, decoding t and f gives true and false, and a malformed
    string is a parse error. *)
Definition stringToBool (s : string) : result bool :=
  if bool_decide (s ∈ ["true"; "t"]) then Ok true
  else if bool_decide (s ∈ ["false"; "f"]) then Ok false
  else Err (IllegalBool s).

(** Config names for fields that are not saved in settings and therefore
    do not have a JSON name. *)
Definition notSaved : gmap string string :=
  list_to_map
    [ ("SampleIndex", "sample_index");
      ("Output", "output");
      ("SourcePath", "source_path");
      ("TrimPath", "trim_path");
      ("DivideBy", "divide_by") ].

(** The allowed values of the fields that take one of a bounded set. *)
Definition choicesOf : gmap string (list string) :=
  list_to_map
    [ ("sort", ["cum"; "flat"]);
      ("granularity", ["functions"; "filefunctions"; "files"; "lines"; "addresses"]) ].

(** The URL parameter of a field name.  A name without an entry is not
    saved in URLs. *)
Definition urlparamOf : gmap string string :=
  list_to_map
    [ ("drop_negative", "dropneg");
      ("call_tree", "calltree");
      ("relative_percentages", "rel");
      ("unit", "unit");
      ("compact_labels", "compact");
      ("intel_syntax", "intel");
      ("nodecount", "n");
      ("nodefraction", "nf");
      ("edgefraction", "ef");
      ("trim", "trim");
      ("focus", "f");
      ("ignore", "i");
      ("prune_from", "prunefrom");
      ("hide", "h");
      ("show", "s");
      ("show_from", "sf");
      ("tagfocus", "tf");
      ("tagignore", "ti");
      ("tagshow", "ts");
      ("taghide", "th");
      ("mean", "mean");
      ("sample_index", "si");
      ("normalize", "norm");
      ("sort", "sort");
      ("granularity", "g");
      ("noinlines", "noinlines") ].

Section Config.

Context {text : Float64Text}.

(** get returns the value of field f in cfg. *)
Definition get (cfg : PprofConfig) (f : configField) : string :=
  match fieldPtr cfg f with
  | PString s _ => s
  | PInt n _ => fmt.SprintInt n
  | PFloat64 x _ => SprintFloat64 x
  | PBool b _ => fmt.SprintBool b
  end.

(** set sets the value of field f in cfg to value. *)
Definition set (cfg : PprofConfig) (f : configField) (value : string)
    : PprofConfig * option error :=
  match fieldPtr cfg f with
  | PString _ assign =>
      if Nat.ltb 0 (length (choices f)) then
        (* Verify that value is one of the allowed choices. *)
        if existsb (fun choice => String.eqb choice value) (choices f)
        then (assign value, None)
        else (cfg, Some (InvalidChoice (name f) value))
      else (assign value, None)
  | PInt _ assign =>
      match strconv.Atoi value with
      | Err err => (cfg, Some err)
      | Ok v => (assign v, None)
      end
  | PFloat64 _ assign =>
      match ParseFloat value with
      | Failed kind => (cfg, Some (NumError "ParseFloat" value kind))
      | Parsed v => (assign v, None)
      end
  | PBool _ assign =>
      match stringToBool value with
      | Err err => (cfg, Some err)
      | Ok v => (assign v, None)
      end
  end.

(** One iteration of the loop of init over the fields of the struct. *)
Definition initField (def : PprofConfig)
    (acc : list configField * gmap string configField)
    (field : reflect.StructField) : list configField * gmap string configField :=
  let js := gostrings.Split (reflect.JSONTag field) "," in
  match js with
  | [] => acc
  | js0 :: _ =>
      (* Get the configuration name for this field. *)
      let name := if String.eqb js0 "-" then default "" (notSaved !! reflect.Name field) else js0 in
      if String.eqb js0 "-" && String.eqb name "" then acc (* Not a configurable field. *)
      else
        let f :=
          {| name := name;
             urlparam := default "" (urlparamOf !! name);
             saved := String.eqb name js0;
             field := field;
             choices := default [] (choicesOf !! name);
             defaultValue := "" |} in
        let f :=
          {| name := driver.name f; urlparam := urlparam f; saved := saved f;
             field := driver.field f; choices := choices f;
             defaultValue := get def f |} in
        let configFields := (fst acc ++ [f])%list in
        let configFieldMap := <[driver.name f := f]> (snd acc) in
        (configFields,
         fold_left (fun m choice => <[choice := f]> m) (choices f) configFieldMap)
  end.

(** init: the registry, computed once from the struct type. *)
Definition init : list configField * gmap string configField :=
  fold_left (initField DefaultConfig) reflect.structFields ([], ∅).

(** Precomputed metadata per PprofConfig field. *)
Definition configFields : list configField := fst init.

(** configFieldMap holds an entry for every PprofConfig field as well as
    an entry for every valid choice for a multi-choice field. *)
Definition configFieldMap : gmap string configField := snd init.

(** isConfigurable returns true if name is either the name of a
    PprofConfig field, or a valid value for a multi-choice field. *)
Definition isConfigurable (name : string) : bool :=
  match configFieldMap !! name with
  | Some _ => true
  | None => false
  end.

(** isBoolConfig returns true if name is either name of a boolean
    PprofConfig field, or a valid value for a multi-choice field. *)
Definition isBoolConfig (name : string) : bool :=
  match configFieldMap !! name with
  | None => false
  | Some f =>
      if negb (String.eqb name (driver.name f)) then
        true (* name must be one possible value for the field *)
      else
        match fieldPtr zeroConfig f with
        | PBool _ _ => true
        | _ => false
        end
  end.

(** configure stores the name=value mapping into the current
    PprofConfig; the current configuration is passed in and returned. *)
Definition configure (name value : string) (currentCfg : PprofConfig)
    : PprofConfig * option error :=
  match configFieldMap !! name with
  | None => (currentCfg, Some (UnknownField name))
  | Some f =>
      if String.eqb (driver.name f) name then set currentCfg f value
      else
        (* name must be one of the choices. If value is true, set
           field-value to name. *)
        match strconv.ParseBool value with
        | Ok true => set currentCfg f name
        | _ => (currentCfg, Some (UnknownField name))
        end
  end.

(** resetTransient sets all transient fields in cfg to their currently
    configured values. *)
Definition resetTransient (cfg current : PprofConfig) : PprofConfig :=
  let cfg := store IOutput (VString (Output current)) cfg in
  let cfg := store ISourcePath (VString (SourcePath current)) cfg in
  let cfg := store ITrimPath (VString (TrimPath current)) cfg in
  let cfg := store IDivideBy (VFloat64 (DivideBy current)) cfg in
  store ISampleIndex (VString (SampleIndex current)) cfg.

(** The loop of applyURL over a list of fields. *)
Fixpoint applyFields (fields : list configField) (cfg : PprofConfig)
    (params : url.Values) : PprofConfig * option error :=
  match fields with
  | [] => (cfg, None)
  | f :: rest =>
      let value :=
        if negb (String.eqb (urlparam f) "") then url.Get params (urlparam f)
        else "" in
      if String.eqb value "" then applyFields rest cfg params
      else
        match set cfg f value with
        | (cfg', Some err) => (cfg', Some (ErrorSetting (name f) err))
        | (cfg', None) => applyFields rest cfg' params
        end
  end.

(** applyURL updates cfg based on params. *)
Definition applyURL (cfg : PprofConfig) (params : url.Values)
    : PprofConfig * option error :=
  applyFields configFields cfg params.

(** The value makeURL wants in the URL for field f: empty for the
    default value, the first byte for a boolean. *)
Definition urlValue (cfg : PprofConfig) (f : configField) : string :=
  let v := get cfg f in
  if String.eqb v (defaultValue f) then
    "" (* URL for of default value is the empty string. *)
  else if bool_decide (reflect.TypeKind (field f) = reflect.Bool) then
    String.substring 0 1 v (* Shorten bool values to "f" or "t" *)
  else v.

(** One iteration of the loop of makeURL. *)
Definition makeURLField (cfg : PprofConfig) (acc : url.Values * bool)
    (f : configField) : url.Values * bool :=
  let '(q, changed) := acc in
  if String.eqb (urlparam f) "" || negb (saved f) then acc
  else
    let v := urlValue cfg f in
    if String.eqb (url.Get q (urlparam f)) v then acc
    else
      (if String.eqb v "" then url.Del q (urlparam f)
       else url.Set_ q (urlparam f) v,
       true).

(** makeURL returns a URL based on initialURL that contains the
    PprofConfig contents as parameters.  The second result is true iff a
    parameter value was changed. *)
Definition makeURL (cfg : PprofConfig) (initialURL : url.URL) : url.URL * bool :=
  let q := url.Query initialURL in
  let '(q, changed) := fold_left (makeURLField cfg) configFields (q, false) in
  (if changed then url.withRawQuery initialURL (url.Encode q) else initialURL,
   changed).

(** completeConfig returns the list of configurable names starting with
    prefix.  Go ranges over configFieldMap in no fixed order; the list is
    taken here in the order of the map's listing. *)
Definition completeConfig (prefix : string) : list string :=
  List.filter (fun v => gostrings.HasPrefix v prefix)
    (map fst (map_to_list configFieldMap)).

End Config.

(** ** settings.go *)

(** namedConfig associates a name with a PprofConfig. *)
Record namedConfig := mkNamedConfig {
  Name : string;
  Config : PprofConfig
}.

(** settings holds pprof settings: a list of named UI configurations. *)
Record settings := mkSettings {
  Configs : list namedConfig
}.

(** configMenuEntry holds information for a single PprofConfig menu entry. *)
Record configMenuEntry := mkConfigMenuEntry {
  EntryName : string;
  URL : string;
  Current : bool;
  UserConfig : bool
}.

(** os.IsNotExist. *)
Definition IsNotExist (err : error) : bool :=
  match err with
  | PathError _ _ notExist => notExist
  | _ => false
  end.

(** The file system and the library calls of settings.go: a state of the
    file system is threaded through the calls that touch it; json and
    URL.String are taken as they are. *)
Class Runtime (FS : Type) := {
  (** ioutil.ReadFile *)
  ReadFile : string -> FS -> result string;
  (** os.MkdirAll *)
  MkdirAll : string -> Z -> FS -> FS * option error;
  (** ioutil.WriteFile *)
  WriteFile : string -> string -> Z -> FS -> FS * option error;
  (** filepath.Dir *)
  Dir : string -> string;
  (** json.Unmarshal into a fresh settings value *)
  Unmarshal : string -> result settings;
  (** json.MarshalIndent(settings, "", "  ") *)
  MarshalIndent : settings -> result string;
  (** URL.String *)
  URLString : url.URL -> string
}.

Section Settings.

Context {text : Float64Text} {FS : Type} {runtime : Runtime FS}.

(** readSettings reads settings from fname.  The transient fields of
    every configuration read are taken from the current configuration. *)
Definition readSettings (fname : string) (fs : FS) (currentCfg : PprofConfig)
    : result settings :=
  match ReadFile fname fs with
  | Err err =>
      if IsNotExist err then Ok {| Configs := [] |}
      else Err (CouldNotRead err)
  | Ok data =>
      match Unmarshal data with
      | Err err => Err (CouldNotParse err)
      | Ok settings =>
          Ok {| Configs :=
                  map (fun c => {| Name := Name c;
                                   Config := resetTransient (Config c) currentCfg |})
                      (Configs settings) |}
      end
  end.

(** writeSettings saves settings to fname. *)
Definition writeSettings (fname : string) (settings : settings) (fs : FS)
    : FS * option error :=
  match MarshalIndent settings with
  | Err err => (fs, Some (CouldNotEncode err))
  | Ok data =>
      (* create the settings directory if it does not exist *)
      match MkdirAll (Dir fname) 448 (* 0700 *) fs with
      | (fs, Some err) => (fs, Some (FailedCreateDir err))
      | (fs, None) =>
          match WriteFile fname data 420 (* 0644 *) fs with
          | (fs, Some err) => (fs, Some (FailedWrite err))
          | (fs, None) => (fs, None)
          end
      end
  end.

(** The loop of configMenu that converts the configurations to menu
    entries and finds the last one that matches the URL. *)
Definition menuEntries (configs : list namedConfig) (u : url.URL)
    : list configMenuEntry * Z :=
  let step (acc : list configMenuEntry * Z * Z) (cfg : namedConfig) :=
    let '(result, lastMatch, i) := acc in
    let '(dst, changed) := makeURL (Config cfg) u in
    let lastMatch := if negb changed then i else lastMatch in
    ((result ++ [ {| EntryName := Name cfg;
                     URL := URLString dst;
                     Current := false;
                     UserConfig := negb (i =? 0) |} ])%list,
     lastMatch, i + 1) in
  let '(result, lastMatch, _) := fold_left step configs ([], -1, 0) in
  (result, lastMatch).

(** configMenu returns a list of items to add to a menu in the web UI. *)
Definition configMenu (fname : string) (u : url.URL) (fs : FS)
    (currentCfg : PprofConfig) : list configMenuEntry :=
  (* Start with system configs. *)
  let configs := [ {| Name := "Default"; Config := DefaultConfig |} ] in
  let configs :=
    match readSettings fname fs currentCfg with
    | Ok settings => (configs ++ Configs settings)%list (* Add user configs. *)
    | Err _ => configs
    end in
  let '(result, lastMatch) := menuEntries configs u in
  (* Mark the last matching PprofConfig as current *)
  if 0 <=? lastMatch then
    alter (fun e => {| EntryName := EntryName e; URL := URL e;
                       Current := true; UserConfig := UserConfig e |})
          (Z.to_nat lastMatch) result
  else result.

(** editSettings edits settings by applying fn to them. *)
Definition editSettings (fname : string)
    (fn : settings -> settings * option error) (fs : FS)
    (currentCfg : PprofConfig) : FS * option error :=
  match readSettings fname fs currentCfg with
  | Err err => (fs, Some err)
  | Ok settings =>
      match fn settings with
      | (_, Some err) => (fs, Some err)
      | (settings, None) => writeSettings fname settings fs
      end
  end.

(** The function setConfig hands to editSettings: the configuration of the
    first entry called name is replaced; without such an entry one is
    appended. *)
Fixpoint saveNamed (name : string) (cfg : PprofConfig)
    (configs : list namedConfig) : list namedConfig :=
  match configs with
  | [] => [ {| Name := name; Config := cfg |} ]
  | c :: rest =>
      if String.eqb (Name c) name then {| Name := Name c; Config := cfg |} :: rest
      else c :: saveNamed name cfg rest
  end.

(** setConfig saves the PprofConfig specified in request to fname. *)
Definition setConfig (fname : string) (request : url.URL) (fs : FS)
    (currentCfg : PprofConfig) : FS * option error :=
  let q := url.Query request in
  let name := url.Get q "PprofConfig" in
  if String.eqb name "" then (fs, Some InvalidConfigName)
  else
    match applyURL currentCfg q with
    | (_, Some err) => (fs, Some err)
    | (cfg, None) =>
        editSettings fname
          (fun s => ({| Configs := saveNamed name cfg (Configs s) |}, None))
          fs currentCfg
    end.

(** The loop of removeConfig: the first entry called config is taken out;
    None when there is no such entry. *)
Fixpoint removeNamed (config : string) (configs : list namedConfig)
    : option (list namedConfig) :=
  match configs with
  | [] => None
  | c :: rest =>
      if String.eqb (Name c) config then Some rest
      else match removeNamed config rest with
           | Some rest' => Some (c :: rest')
           | None => None
           end
  end.

(** removeConfig removes PprofConfig from fname. *)
Definition removeConfig (fname config : string) (fs : FS)
    (currentCfg : PprofConfig) : FS * option error :=
  editSettings fname
    (fun s =>
       match removeNamed config (Configs s) with
       | Some configs => ({| Configs := configs |}, None)
       | None => (s, Some (ConfigNotFound config))
       end)
    fs currentCfg.

End Settings.

End driver.

(** ** A table of float64 literals *)

(** Decimal literals with the binary64 value Go gives each of them. *)
Definition floatLiterals : list (string * float) :=
  [ ("0", 0%float);
    ("1", 1%float);
    ("0.5", 0.5%float);
    ("0.25", 0.25%float);
    ("0.001", 0x1.0624dd2f1a9fcp-10%float);
    ("0.005", 0x1.47ae147ae147bp-8%float) ].

(** The conversions restricted to the literals of the table, on which they
    agree with fmt.Sprint and strconv.ParseFloat.  Off the table the
    printer answers NaN and the parser a syntax error; the instance is
    there to run the model on inputs whose float64 fields stay on the
    table, and every general theorem below is proved for all instances. *)
Definition literalFloats : Float64Text :=
  {| SprintFloat64 x :=
       match List.find (fun p => PrimFloat.eqb (snd p) x) floatLiterals with
       | Some p => fst p
       | None => "NaN"
       end;
     ParseFloat s :=
       match List.find (fun p => String.eqb (fst p) s) floatLiterals with
       | Some p => Parsed (snd p)
       | None => Failed ErrSyntax
       end |}.

(** ** Notions used in the statements about net/url *)

(** The escape of one byte, as QueryEscape writes it. *)
Definition escapeByte (c : ascii) : string :=
  if url.shouldEscape c then
    if Ascii.eqb c " " then "+"
    else String "%" (String (url.upperhex (Z.shiftr (url.byte c) 4))
           (String (url.upperhex (Z.land (url.byte c) 15)) EmptyString))
  else String c EmptyString.

(** The bytes that separate the pairs of a query, and a key from its value. *)
Definition separator (c : ascii) : Prop := c = "&"%char \/ c = ";"%char \/ c = "="%char.


(** The text of one key=value pair of an encoded query. *)
Definition pairText (p : string * string) : string :=
  url.QueryEscape (fst p) +:+ "=" +:+ url.QueryEscape (snd p).

(** The pairs joined by ampersands. *)
Fixpoint joinPairs (ps : list (string * string)) : string :=
  match ps with
  | [] => ""
  | p :: rest =>
      match rest with
      | [] => pairText p
      | _ => pairText p +:+ String "&" (joinPairs rest)
      end
  end.

(** The pairs of a url.Values, key by key in the order of a list of keys. *)
Definition pairsOf (v : url.Values) (keys : list string) : list (string * string) :=
  flat_map (fun k => map (pair k) (default [] (v !! k))) keys.

(** Adding pairs one after the other. *)
Definition addPairs (m : url.Values) (ps : list (string * string)) : url.Values :=
  fold_left (fun m p => url.Add m (fst p) (snd p)) ps m.

(** The buffer of Values.Encode after writing pairs to it. *)
Definition appendPairs (buf : string) (ps : list (string * string)) : string :=
  fold_left (fun buf p =>
    (if Nat.ltb 0 (String.length buf) then buf +:+ "&" else buf) +:+ pairText p) ps buf.

(** The values a key has after a query went through Encode and ParseQuery:
    a key without values is not written. *)
Definition written (vs : option (list string)) : option (list string) :=
  match vs with
  | Some (x :: l) => Some (x :: l)
  | _ => None
  end.

(** ** Notions used in the statements about the URL codec *)

(** The fields makeURL writes: those with a URL parameter that are saved
    in settings (the others are passed over by its loop). *)
Definition inURL (f : driver.configField) : bool :=
  negb (String.eqb (driver.urlparam f) "" || negb (driver.saved f)).

(** The URL parameters of the fields of a list that makeURL writes. *)
Definition urlparams (fields : list driver.configField) : list string :=
  map driver.urlparam (List.filter inURL fields).

(** The fields applyURL reads: those with a URL parameter. *)
Definition fromURL (f : driver.configField) : bool :=
  negb (String.eqb (driver.urlparam f) "").

(** The transient fields of a configuration. *)
Definition transient : list driver.fieldIndex :=
  [ driver.IOutput; driver.ISourcePath; driver.ITrimPath;
    driver.ISampleIndex; driver.IDivideBy ].

(** The entries init makes in configFieldMap for one field: its name,
    then each of its choices. *)
Definition registryEntries (f : driver.configField)
    : list (string * driver.configField) :=
  (driver.name f, f) :: map (fun choice => (choice, f)) (driver.choices f).

(** The entry of the registry for the node count. *)
Definition nodecountField : driver.configField :=
  {| driver.name := "nodecount";
     driver.urlparam := "n";
     driver.saved := true;
     driver.field :=
       driver.reflect.mkStructField "NodeCount" "nodecount,omitempty" driver.INodeCount;
     driver.choices := [];
     driver.defaultValue := "-1" |}.

(** The entry of the registry for the sample index. *)
Definition sampleIndexField : driver.configField :=
  {| driver.name := "sample_index";
     driver.urlparam := "si";
     driver.saved := false;
     driver.field := driver.reflect.mkStructField "SampleIndex" "-" driver.ISampleIndex;
     driver.choices := [];
     driver.defaultValue := "" |}.

(** The entry of the registry for call_tree. *)
Definition callTreeField : driver.configField :=
  {| driver.name := "call_tree";
     driver.urlparam := "calltree";
     driver.saved := true;
     driver.field :=
       driver.reflect.mkStructField "CallTree" "call_tree,omitempty" driver.ICallTree;
     driver.choices := [];
     driver.defaultValue := "false" |}.

(** ** Notions used in the statements about set and configure *)

(** The errors of the parsers of numbers and booleans. *)
Definition isParseError (err : error) : bool :=
  match err with
  | NumError _ _ _ | IllegalBool _ => true
  | _ => false
  end.

(** The error of a value outside the choices of a field. *)
Definition isInvalidChoice (err : error) : bool :=
  match err with
  | InvalidChoice _ _ => true
  | _ => false
  end.

(** The entry of the registry for the sort order. *)
Definition sortField : driver.configField :=
  {| driver.name := "sort";
     driver.urlparam := "sort";
     driver.saved := true;
     driver.field := driver.reflect.mkStructField "Sort" "sort,omitempty" driver.ISort;
     driver.choices := ["cum"; "flat"];
     driver.defaultValue := "flat" |}.

(** ** A runtime for the statements about settings.go *)

(** A runtime over a trivial file system, in which every read of a file
    answers readResult and every parse of its contents parseResult. *)
Definition fixedRuntime (readResult : result string)
    (parseResult : result driver.settings) : driver.Runtime unit :=
  {| driver.ReadFile _ _ := readResult;
     driver.MkdirAll _ _ fs := (fs, None);
     driver.WriteFile _ _ _ fs := (fs, None);
     driver.Dir path := path;
     driver.Unmarshal _ := parseResult;
     driver.MarshalIndent _ := Ok "";
     driver.URLString u := url.RawQuery u |}.

(** ** Notions used in the further properties *)

(** Every registered field with choices holds one of its choices. *)
Definition choicesOK {text : Float64Text} (cfg : driver.PprofConfig) : Prop :=
  forall f : driver.configField,
    f ∈ driver.configFields -> driver.choices f <> [] ->
    driver.get cfg f ∈ driver.choices f.

(** * Properties *)

(** ** The library models on concrete inputs *)

Example Atoi_5 : strconv.Atoi "5" = Ok 5.
Proof. reflexivity. Qed.

Example Atoi_minus1 : strconv.Atoi "-1" = Ok (-1).
Proof. reflexivity. Qed.

Example Atoi_bad : strconv.Atoi "abc" = Err (NumError "Atoi" "abc" ErrSyntax).
Proof. reflexivity. Qed.

Example Atoi_huge :
  strconv.Atoi "9223372036854775808" = Err (NumError "Atoi" "9223372036854775808" ErrRange).
Proof. reflexivity. Qed.

Example Atoi_overflow_first :
  strconv.Atoi "99999999999999999999x"
  = Err (NumError "Atoi" "99999999999999999999x" ErrRange).
Proof. reflexivity. Qed.

Example Atoi_syntax_first :
  strconv.Atoi "9x99999999999999999999"
  = Err (NumError "Atoi" "9x99999999999999999999" ErrSyntax).
Proof. reflexivity. Qed.

Example Atoi_minInt : strconv.Atoi "-9223372036854775808" = Ok strconv.minInt.
Proof. reflexivity. Qed.

Example Sprint_minus1 : fmt.SprintInt (-1) = "-1".
Proof. reflexivity. Qed.

Example Sprint_1234 : fmt.SprintInt 1234 = "1234".
Proof. reflexivity. Qed.

Example escape_example : url.QueryEscape "a b&c=d/é~" = "a+b%26c%3Dd%2F%C3%A9~".
Proof. reflexivity. Qed.

Example unescape_example : url.QueryUnescape "a+b%26c%3dd" = Ok "a b&c=d".
Proof. reflexivity. Qed.

Example unescape_bad : url.QueryUnescape "ab%2" = Err (EscapeError "%2").
Proof. reflexivity. Qed.

Example ParseQuery_example :
  url.ParseQuery "n=5&sort=cum&&x&n=7;y=1&f=a%20b" =
  (<["f" := ["a b"]]> (<["x" := [""]]> (<["sort" := ["cum"]]> (<["n" := ["5"]]> ∅))),
   Some InvalidSemicolon).
Proof. vm_compute. reflexivity. Qed.

Example Encode_example :
  url.Encode (<["sort" := ["cum"]]> (<["n" := ["5"; "a b"]]> (<["empty" := []]> ∅)))
  = "n=5&n=a+b&sort=cum".
Proof. vm_compute. reflexivity. Qed.

(** ** net/url: escaping round trip *)

Section UrlEscape.

Import url.

Lemma QueryEscape_cons c s :
  QueryEscape (String c s) = escapeByte c +:+ QueryEscape s.
Proof.
  unfold escapeByte. cbn [QueryEscape].
  destruct (shouldEscape c); [destruct (Ascii.eqb c " ")|]; reflexivity.
Qed.

Ltac each_byte c :=
  destruct c as [[] [] [] [] [] [] [] []].

Lemma QueryUnescape_escapeByte c t :
  QueryUnescape (escapeByte c +:+ t) =
  match QueryUnescape t with
  | Ok t' => Ok (String c t')
  | Err e => Err e
  end.
Proof. each_byte c; reflexivity. Qed.

Lemma QueryUnescape_QueryEscape s : QueryUnescape (QueryEscape s) = Ok s.
Proof.
  induction s as [|c s IH]; [reflexivity|].
  rewrite QueryEscape_cons, QueryUnescape_escapeByte, IH. reflexivity.
Qed.

Lemma Contains_app s t c :
  Contains (s +:+ t) c = Contains s c || Contains t c.
Proof.
  induction s as [|c' s IH]; simpl; [reflexivity|].
  rewrite IH. apply orb_assoc.
Qed.

(** The three separators of a query never occur in an escaped string. *)
Lemma Contains_escapeByte c sep :
  separator sep -> Contains (escapeByte c) sep = false.
Proof.
  intros [-> | [-> | ->]]; each_byte c; reflexivity.
Qed.

Lemma Contains_QueryEscape s sep :
  separator sep -> Contains (QueryEscape s) sep = false.
Proof.
  intros Hsep. induction s as [|c s IH]; [reflexivity|].
  rewrite QueryEscape_cons, Contains_app, IH, Contains_escapeByte by assumption.
  reflexivity.
Qed.

Lemma Cut_absent s sep :
  Contains s sep = false -> Cut s sep = (s, EmptyString, false).
Proof.
  induction s as [|c s IH]; simpl; [reflexivity|].
  intros Hc. apply orb_false_elim in Hc as [Hc1 Hc2].
  rewrite Hc1, (IH Hc2). reflexivity.
Qed.

Lemma Cut_first s sep t :
  Contains s sep = false -> Cut (s +:+ String sep t) sep = (s, t, true).
Proof.
  induction s as [|c s IH]; simpl.
  - rewrite Ascii.eqb_refl. reflexivity.
  - intros Hc. apply orb_false_elim in Hc as [Hc1 Hc2].
    rewrite Hc1, (IH Hc2). reflexivity.
Qed.

End UrlEscape.

(** ** net/url: parsing an encoded query *)

Section UrlQuery.

Import url.

Lemma append_nil_l s : "" +:+ s = s.
Proof. reflexivity. Qed.

Lemma append_cons a s t : String a s +:+ t = String a (s +:+ t).
Proof. reflexivity. Qed.

Lemma append_nil_r s : s +:+ "" = s.
Proof. induction s as [|a s IH]; [reflexivity|]. rewrite append_cons, IH. reflexivity. Qed.

Lemma append_assoc s t u : (s +:+ t) +:+ u = s +:+ (t +:+ u).
Proof.
  induction s as [|a s IH]; [reflexivity|].
  rewrite !append_cons, IH. reflexivity.
Qed.

Lemma length_append s t :
  String.length (s +:+ t) = (String.length s + String.length t)%nat.
Proof.
  induction s as [|a s IH]; [reflexivity|].
  rewrite append_cons. cbn [String.length]. rewrite IH. reflexivity.
Qed.

Lemma eqb_empty_length s : String.eqb s "" = negb (Nat.ltb 0 (String.length s)).
Proof. destruct s; reflexivity. Qed.

Lemma pairText_eq k x :
  pairText (k, x) = QueryEscape k +:+ String "=" (QueryEscape x).
Proof. reflexivity. Qed.

Lemma pairText_nonempty p : String.eqb (pairText p) "" = false.
Proof.
  destruct p as [k x]. rewrite pairText_eq.
  destruct (QueryEscape k); reflexivity.
Qed.

Lemma pairText_separator p sep :
  sep = "&"%char \/ sep = ";"%char -> Contains (pairText p) sep = false.
Proof.
  intros Hsep. destruct p as [k x]. rewrite pairText_eq, Contains_app.
  assert (Hs : separator sep) by (unfold separator; tauto).
  rewrite (Contains_QueryEscape k sep Hs). simpl.
  rewrite (Contains_QueryEscape x sep Hs).
  destruct Hsep as [-> | ->]; reflexivity.
Qed.

Lemma joinPairs_cons p rest :
  joinPairs (p :: rest) =
  match rest with
  | [] => pairText p
  | _ => pairText p +:+ String "&" (joinPairs rest)
  end.
Proof. reflexivity. Qed.

Lemma joinPairs_nonempty p rest : String.eqb (joinPairs (p :: rest)) "" = false.
Proof.
  rewrite joinPairs_cons. pose proof (pairText_nonempty p) as Hp.
  destruct rest; [assumption|].
  destruct (pairText p); [discriminate|reflexivity].
Qed.

(** Cutting the first pair off the joined pairs. *)
Lemma Cut_joinPairs p rest :
  exists found, Cut (joinPairs (p :: rest)) "&" = (pairText p, joinPairs rest, found).
Proof.
  rewrite joinPairs_cons. destruct rest as [|p' rest].
  - exists false. apply Cut_absent, pairText_separator. tauto.
  - exists true. apply Cut_first, pairText_separator. tauto.
Qed.

Lemma length_joinPairs_cons p rest :
  (String.length (joinPairs rest) < String.length (joinPairs (p :: rest)))%nat.
Proof.
  rewrite joinPairs_cons. pose proof (pairText_nonempty p) as Hp.
  destruct rest as [|p' rest].
  - destruct (pairText p); [discriminate|]. cbn. lia.
  - rewrite length_append. cbn [String.length]. lia.
Qed.

(** parseQuery reads the joined pairs back, one Add per pair. *)
Lemma parseQueryLoop_joinPairs ps :
  forall fuel m err,
    (String.length (joinPairs ps) <= fuel)%nat ->
    parseQueryLoop fuel m err (joinPairs ps) = (addPairs m ps, err).
Proof.
  induction ps as [|p rest IH]; intros fuel m err Hfuel.
  - destruct fuel; reflexivity.
  - pose proof (length_joinPairs_cons p rest) as Hlen.
    destruct fuel as [|fuel]; [lia|].
    cbn [parseQueryLoop]. rewrite joinPairs_nonempty.
    destruct (Cut_joinPairs p rest) as [found ->].
    rewrite pairText_separator by tauto. rewrite pairText_nonempty.
    destruct p as [k x]. rewrite pairText_eq.
    rewrite Cut_first by (apply Contains_QueryEscape; unfold separator; tauto).
    rewrite !QueryUnescape_QueryEscape.
    rewrite IH by lia. reflexivity.
Qed.

End UrlQuery.

Section UrlEncode.

Import url.

Lemma encodeValues_appendPairs k vs buf :
  encodeValues (QueryEscape k) vs buf = appendPairs buf (map (pair k) vs).
Proof.
  revert buf. induction vs as [|x vs IH]; intros buf; [reflexivity|].
  unfold encodeValues, appendPairs in *. cbn [fold_left map]. apply IH.
Qed.

Lemma appendPairs_app buf ps qs :
  appendPairs buf (ps ++ qs) = appendPairs (appendPairs buf ps) qs.
Proof. unfold appendPairs. apply fold_left_app. Qed.

Lemma fold_encodeValues (v : Values) keys buf :
  fold_left (fun buf k => encodeValues (QueryEscape k) (default [] (v !! k)) buf) keys buf
  = appendPairs buf (pairsOf v keys).
Proof.
  revert buf. induction keys as [|k keys IH]; intros buf; [reflexivity|].
  cbn [fold_left]. rewrite IH, encodeValues_appendPairs.
  unfold pairsOf. cbn [flat_map]. rewrite appendPairs_app. reflexivity.
Qed.

Lemma appendPairs_joinPairs ps :
  forall buf,
    appendPairs buf ps =
    match ps with
    | [] => buf
    | _ => if String.eqb buf "" then joinPairs ps else buf +:+ String "&" (joinPairs ps)
    end.
Proof.
  induction ps as [|p rest IH]; intros buf; [reflexivity|].
  change (appendPairs buf (p :: rest)) with
    (appendPairs ((if Nat.ltb 0 (String.length buf) then buf +:+ "&" else buf) +:+ pairText p) rest).
  rewrite IH, joinPairs_cons. rewrite (eqb_empty_length buf).
  assert (Hne : forall s, String.eqb (s +:+ pairText p) "" = false).
  { intros s. rewrite eqb_empty_length, length_append.
    pose proof (pairText_nonempty p) as Hp. rewrite eqb_empty_length in Hp.
    destruct (String.length (pairText p)); [discriminate|].
    replace (String.length s + S n)%nat with (S (String.length s + n)) by lia.
    reflexivity. }
  destruct rest as [|p' rest].
  - destruct (Nat.ltb 0 (String.length buf)) eqn:Hlen; cbn [negb].
    + rewrite append_assoc. reflexivity.
    + destruct buf; [reflexivity|discriminate Hlen].
  - rewrite Hne. destruct (Nat.ltb 0 (String.length buf)) eqn:Hlen; cbn [negb].
    + rewrite !append_assoc. reflexivity.
    + destruct buf; [reflexivity|discriminate Hlen].
Qed.

(** Values.Encode writes the pairs of the map, key by key in sorted order. *)
Lemma Encode_joinPairs (v : Values) :
  Encode v = joinPairs (pairsOf v (merge_sort String.le (map fst (map_to_list v)))).
Proof.
  unfold Encode. destruct (Nat.eqb (size v) 0) eqn:Hsize.
  - apply Nat.eqb_eq, map_size_empty_iff in Hsize. subst v.
    rewrite map_to_list_empty. reflexivity.
  - rewrite fold_encodeValues, appendPairs_joinPairs.
    destruct (pairsOf v _); reflexivity.
Qed.

Lemma addPairs_app m ps qs :
  addPairs m (ps ++ qs) = addPairs (addPairs m ps) qs.
Proof. unfold addPairs. apply fold_left_app. Qed.

Lemma addPairs_key k l :
  forall (m : Values) k',
    addPairs m (map (pair k) l) !! k' =
    if decide (k = k') then
      match l with
      | [] => m !! k
      | _ => Some (default [] (m !! k) ++ l)%list
      end
    else m !! k'.
Proof.
  induction l as [|x l IH]; intros m k'.
  - cbn. destruct (decide (k = k')); congruence.
  - change (addPairs m (map (pair k) (x :: l)))
      with (addPairs (Add m k x) (map (pair k) l)).
    rewrite IH. unfold Add. destruct (decide (k = k')) as [->|Hne].
    + rewrite lookup_insert_eq. cbn [from_option id].
      destruct l; [reflexivity|]. rewrite <- List.app_assoc. reflexivity.
    + rewrite lookup_insert_ne by assumption. reflexivity.
Qed.

Lemma addPairs_pairsOf (v : Values) keys :
  NoDup keys ->
  forall (m : Values) k',
    (forall k, k ∈ keys -> m !! k = None) ->
    addPairs m (pairsOf v keys) !! k' =
    if decide (k' ∈ keys) then written (v !! k') else m !! k'.
Proof.
  induction 1 as [|k keys Hk Hnd IH]; intros m k' Hm.
  - cbn. destruct (decide (k' ∈ [])) as [Hin|]; [inversion Hin|reflexivity].
  - unfold pairsOf. cbn [flat_map]. rewrite addPairs_app.
    fold (pairsOf v keys). rewrite IH.
    + rewrite addPairs_key. rewrite (Hm k) by (left).
      destruct (decide (k' ∈ keys)) as [Hin|Hnin].
      * rewrite decide_True by (right; assumption). reflexivity.
      * destruct (decide (k = k')) as [->|Hne].
        -- rewrite decide_True by left.
           destruct (v !! k') as [[|x l]|]; reflexivity.
        -- rewrite decide_False; [reflexivity|].
           intros Hin. apply elem_of_cons in Hin as [->|Hin]; congruence.
    + intros k0 Hk0. rewrite addPairs_key.
      destruct (decide (k = k0)) as [->|Hne]; [contradiction|].
      apply Hm. right. assumption.
Qed.

(** A query that went through Encode and ParseQuery holds the same values,
    but for the keys that had none. *)
Lemma ParseQuery_Encode (v : Values) :
  ParseQuery (Encode v) = (addPairs ∅ (pairsOf v (merge_sort String.le (map fst (map_to_list v)))), None).
Proof.
  unfold ParseQuery. rewrite Encode_joinPairs.
  apply parseQueryLoop_joinPairs. lia.
Qed.

Lemma lookup_ParseQuery_Encode (v : Values) k :
  fst (ParseQuery (Encode v)) !! k = written (v !! k).
Proof.
  rewrite ParseQuery_Encode. cbn [fst].
  assert (Hperm : merge_sort String.le (map fst (map_to_list v)) ≡ₚ map fst (map_to_list v))
    by apply merge_sort_Permutation.
  rewrite addPairs_pairsOf.
  - destruct (decide (k ∈ _)) as [Hin|Hnin]; [reflexivity|].
    rewrite lookup_empty. destruct (v !! k) as [l|] eqn:Hv; [|reflexivity].
    exfalso. apply Hnin. rewrite Hperm.
    apply list_elem_of_fmap. exists (k, l). split; [reflexivity|].
    apply elem_of_map_to_list. assumption.
  - rewrite Hperm. apply NoDup_fst_map_to_list.
  - intros. apply lookup_empty.
Qed.

Lemma Get_ParseQuery_Encode (v : Values) k :
  Get (fst (ParseQuery (Encode v))) k = Get v k.
Proof.
  unfold Get. rewrite lookup_ParseQuery_Encode.
  destruct (v !! k) as [[|x l]|]; reflexivity.
Qed.

End UrlEncode.

(** ** Fields of a configuration: reading and writing by index *)

Section Fields.

Import driver.

Lemma load_store_other i j v cfg :
  i <> j -> load j (store i v cfg) = load j cfg.
Proof.
  intros Hne. destruct i, j; try congruence; destruct v; reflexivity.
Qed.

Lemma load_store_same i v cfg :
  reflect.kindOf v = reflect.kindOf (load i cfg) -> load i (store i v cfg) = v.
Proof.
  destruct i, v; cbn; intros Hkind; try discriminate Hkind; reflexivity.
Qed.

Lemma store_wrong_kind i v cfg :
  reflect.kindOf v <> reflect.kindOf (load i cfg) -> store i v cfg = cfg.
Proof.
  destruct cfg, i, v; cbn; intros Hkind; try congruence; reflexivity.
Qed.

Lemma store_load i cfg : store i (load i cfg) cfg = cfg.
Proof. destruct cfg, i; reflexivity. Qed.

(** The kind of a field is that of the struct type, whatever the
    configuration holds. *)
Lemma kindOf_load i cfg :
  reflect.kindOf (load i cfg) = reflect.kindOf (load i zeroConfig).
Proof. destruct i; reflexivity. Qed.

Lemma TypeKind_load f cfg :
  reflect.TypeKind f = reflect.kindOf (load (reflect.Index f) cfg).
Proof. unfold reflect.TypeKind. symmetry. apply kindOf_load. Qed.

End Fields.

(** ** The accessor: get and set *)

Section Accessor.

Import driver.
Context {text : Float64Text}.

(** What set writes on success: the value its parser read for the kind of
    the field. *)
Lemma set_cases cfg f value :
  let i := reflect.Index (field f) in
  match load i cfg with
  | VString _ =>
      set cfg f value =
      if Nat.ltb 0 (length (choices f)) && negb (existsb (fun choice => String.eqb choice value) (choices f))
      then (cfg, Some (InvalidChoice (name f) value))
      else (store i (VString value) cfg, None)
  | VInt _ =>
      set cfg f value =
      match strconv.Atoi value with
      | Err err => (cfg, Some err)
      | Ok v => (store i (VInt v) cfg, None)
      end
  | VFloat64 _ =>
      set cfg f value =
      match ParseFloat value with
      | Failed kind => (cfg, Some (NumError "ParseFloat" value kind))
      | Parsed v => (store i (VFloat64 v) cfg, None)
      end
  | VBool _ =>
      set cfg f value =
      match stringToBool value with
      | Err err => (cfg, Some err)
      | Ok v => (store i (VBool v) cfg, None)
      end
  end.
Proof.
  intros i. unfold set, fieldPtr, addrOf. fold i.
  destruct (load i cfg); try reflexivity.
  destruct (Nat.ltb 0 (length (choices f))); [|reflexivity].
  destruct (existsb _ (choices f)); reflexivity.
Qed.

(** A failing set leaves the configuration as it was. *)
Lemma set_error_unchanged cfg f value cfg' err :
  set cfg f value = (cfg', Some err) -> cfg' = cfg.
Proof.
  pose proof (set_cases cfg f value) as Hc. cbv zeta in Hc.
  destruct (load (reflect.Index (field f)) cfg); rewrite Hc; clear Hc.
  - destruct (_ && _); congruence.
  - destruct (strconv.Atoi value); congruence.
  - destruct (ParseFloat value); congruence.
  - destruct (stringToBool value); congruence.
Qed.

(** A set, failing or not, writes to no other field than its own. *)
Lemma set_other cfg f value cfg' r j :
  set cfg f value = (cfg', r) ->
  j <> reflect.Index (field f) ->
  load j cfg' = load j cfg.
Proof.
  intros Hset Hj.
  pose proof (set_cases cfg f value) as Hc. cbv zeta in Hc.
  assert (Hst : forall v, load j (store (reflect.Index (field f)) v cfg) = load j cfg)
    by (intros v; apply load_store_other; congruence).
  destruct (load (reflect.Index (field f)) cfg); rewrite Hc in Hset; clear Hc.
  - destruct (_ && _); inversion Hset; subst; auto.
  - destruct (strconv.Atoi value); inversion Hset; subst; auto.
  - destruct (ParseFloat value); inversion Hset; subst; auto.
  - destruct (stringToBool value); inversion Hset; subst; auto.
Qed.

(** get prints the content of the field. *)
Lemma get_load cfg f :
  get cfg f =
  match load (reflect.Index (field f)) cfg with
  | VString s => s
  | VInt n => fmt.SprintInt n
  | VFloat64 x => SprintFloat64 x
  | VBool b => fmt.SprintBool b
  end.
Proof.
  unfold get, fieldPtr, addrOf.
  destruct (load (reflect.Index (field f)) cfg); reflexivity.
Qed.

Lemma get_same_load cfg cfg' f :
  load (reflect.Index (field f)) cfg' = load (reflect.Index (field f)) cfg ->
  get cfg' f = get cfg f.
Proof. intros Heq. rewrite !get_load, Heq. reflexivity. Qed.

End Accessor.

(** ** url.Values: Get after Set and Del *)

Section ValuesFacts.

Import url.

Lemma Get_Set_same (q : Values) key value : Get (Set_ q key value) key = value.
Proof. unfold Get, Set_. rewrite lookup_insert_eq. reflexivity. Qed.

Lemma Get_Set_other (q : Values) key value key' :
  key <> key' -> Get (Set_ q key value) key' = Get q key'.
Proof. intros Hne. unfold Get, Set_. rewrite lookup_insert_ne by assumption. reflexivity. Qed.

Lemma Get_Del_same (q : Values) key : Get (Del q key) key = "".
Proof. unfold Get, Del. rewrite lookup_delete_eq. reflexivity. Qed.

Lemma Get_Del_other (q : Values) key key' :
  key <> key' -> Get (Del q key) key' = Get q key'.
Proof. intros Hne. unfold Get, Del. rewrite lookup_delete_ne by assumption. reflexivity. Qed.

Lemma Get_Query_Encode u (q : Values) key :
  Get (Query (withRawQuery u (Encode q))) key = Get q key.
Proof. unfold Query. cbn [RawQuery withRawQuery]. apply Get_ParseQuery_Encode. Qed.

End ValuesFacts.

(** ** makeURL: the loop over the fields *)

Section MakeURLLoop.

Import driver.
Context {text : Float64Text}.

Lemma elem_of_urlparams key fields :
  key ∈ urlparams fields <->
  exists f, f ∈ fields /\ inURL f = true /\ urlparam f = key.
Proof.
  unfold urlparams. rewrite list_elem_of_In, in_map_iff. split.
  - intros (f & Hkey & Hin). apply filter_In in Hin as [Hin Hact].
    exists f. rewrite list_elem_of_In. auto.
  - intros (f & Hin & Hact & Hkey). exists f. split; [assumption|].
    apply filter_In. rewrite <- list_elem_of_In. auto.
Qed.

Lemma urlparams_cons f fields :
  urlparams (f :: fields) =
  if inURL f then urlparam f :: urlparams fields else urlparams fields.
Proof. unfold urlparams. cbn [List.filter]. destruct (inURL f); reflexivity. Qed.

Lemma makeURLField_skip cfg acc f :
  inURL f = false -> makeURLField cfg acc f = acc.
Proof.
  unfold inURL, makeURLField. destruct acc as [q changed].
  destruct (_ || _); [reflexivity|discriminate].
Qed.

Lemma makeURLField_write cfg q changed f :
  inURL f = true ->
  makeURLField cfg (q, changed) f =
  if String.eqb (url.Get q (urlparam f)) (urlValue cfg f) then (q, changed)
  else (if String.eqb (urlValue cfg f) "" then url.Del q (urlparam f)
        else url.Set_ q (urlparam f) (urlValue cfg f), true).
Proof.
  unfold inURL, makeURLField. destruct (_ || _); [discriminate|reflexivity].
Qed.

(** One iteration leaves the field's parameter at the wanted value, the
    other parameters as they were, and never clears the flag. *)
Lemma makeURLField_spec cfg q changed f q' changed' :
  inURL f = true ->
  makeURLField cfg (q, changed) f = (q', changed') ->
  url.Get q' (urlparam f) = urlValue cfg f
  /\ (forall key, key <> urlparam f -> url.Get q' key = url.Get q key)
  /\ (changed' = false -> q' = q /\ changed = false)
  /\ (url.Get q (urlparam f) = urlValue cfg f -> q' = q /\ changed' = changed).
Proof.
  intros Hact. rewrite makeURLField_write by assumption.
  destruct (String.eqb_spec (url.Get q (urlparam f)) (urlValue cfg f)) as [Heq|Hne].
  - intros [= <- <-]. auto.
  - destruct (String.eqb_spec (urlValue cfg f) "") as [Hv|Hv]; intros [= <- <-].
    + split; [rewrite Get_Del_same; congruence|].
      split; [|split; [discriminate|intros; contradiction]].
      intros key Hkey. apply Get_Del_other. congruence.
    + split; [apply Get_Set_same|].
      split; [|split; [discriminate|intros; contradiction]].
      intros key Hkey. apply Get_Set_other. congruence.
Qed.

(** The loop touches the parameters of the fields it writes, and no other. *)
Lemma makeURL_loop_other cfg fields :
  forall q changed q' changed' key,
    fold_left (makeURLField cfg) fields (q, changed) = (q', changed') ->
    key ∉ urlparams fields ->
    url.Get q' key = url.Get q key.
Proof.
  induction fields as [|f fields IH]; intros q changed q' changed' key Hfold Hkey.
  - cbn in Hfold. congruence.
  - cbn [fold_left] in Hfold. rewrite urlparams_cons in Hkey.
    destruct (inURL f) eqn:Hact.
    + destruct (makeURLField cfg (q, changed) f) as [q1 c1] eqn:Hstep.
      apply not_elem_of_cons in Hkey as [Hne Hkey].
      rewrite (IH _ _ _ _ _ Hfold Hkey).
      apply (makeURLField_spec _ _ _ _ _ _ Hact Hstep). assumption.
    + rewrite makeURLField_skip in Hfold by assumption. eauto.
Qed.

(** After the loop every written field's parameter holds the wanted value. *)
Lemma makeURL_loop_Get cfg fields :
  forall q changed q' changed' f,
    fold_left (makeURLField cfg) fields (q, changed) = (q', changed') ->
    NoDup (urlparams fields) ->
    f ∈ fields -> inURL f = true ->
    url.Get q' (urlparam f) = urlValue cfg f.
Proof.
  induction fields as [|g fields IH]; intros q changed q' changed' f Hfold Hnd Hin Hact.
  - inversion Hin.
  - cbn [fold_left] in Hfold. rewrite urlparams_cons in Hnd.
    destruct (inURL g) eqn:Hg.
    + destruct (makeURLField cfg (q, changed) g) as [q1 c1] eqn:Hstep.
      apply NoDup_cons in Hnd as [Hfresh Hnd].
      apply elem_of_cons in Hin as [->|Hin]; [|eauto].
      rewrite (makeURL_loop_other _ _ _ _ _ _ _ Hfold Hfresh).
      apply (makeURLField_spec _ _ _ _ _ _ Hg Hstep).
    + rewrite makeURLField_skip in Hfold by assumption.
      apply elem_of_cons in Hin as [->|Hin]; [congruence|eauto].
Qed.

(** The flag is never cleared, and it stays clear only if nothing was written. *)
Lemma makeURL_loop_unchanged cfg fields :
  forall q changed q',
    fold_left (makeURLField cfg) fields (q, changed) = (q', false) ->
    q' = q /\ changed = false.
Proof.
  induction fields as [|f fields IH]; intros q changed q' Hfold.
  - cbn in Hfold. inversion Hfold. auto.
  - cbn [fold_left] in Hfold.
    destruct (inURL f) eqn:Hact.
    + destruct (makeURLField cfg (q, changed) f) as [q1 c1] eqn:Hstep.
      apply IH in Hfold as [-> ->].
      apply (makeURLField_spec _ _ _ _ _ _ Hact Hstep). reflexivity.
    + rewrite makeURLField_skip in Hfold by assumption. eauto.
Qed.

(** When every written field's parameter already holds the wanted value
    the loop changes nothing. *)
Lemma makeURL_loop_fixed cfg fields :
  forall q changed,
    (forall f, f ∈ fields -> inURL f = true ->
               url.Get q (urlparam f) = urlValue cfg f) ->
    fold_left (makeURLField cfg) fields (q, changed) = (q, changed).
Proof.
  induction fields as [|f fields IH]; intros q changed Hall; [reflexivity|].
  cbn [fold_left]. destruct (inURL f) eqn:Hact.
  - destruct (makeURLField cfg (q, changed) f) as [q1 c1] eqn:Hstep.
    destruct (makeURLField_spec _ _ _ _ _ _ Hact Hstep) as (_ & _ & _ & Hfix).
    destruct Hfix as [-> ->]; [apply Hall; [left|assumption]|].
    apply IH. intros g Hg. apply Hall. right. assumption.
  - rewrite makeURLField_skip by assumption.
    apply IH. intros g Hg. apply Hall. right. assumption.
Qed.

End MakeURLLoop.

(** ** The registry that init builds *)

(** Case analysis over the fields of the registry. *)
Ltac each_field Hin :=
  apply list_elem_of_In in Hin; vm_compute in Hin;
  repeat (destruct Hin as [<- | Hin]); [..|contradiction].

Section Registry.

Import driver.
Context {text : Float64Text}.

Lemma configFields_names :
  map name configFields =
  [ "output"; "call_tree"; "relative_percentages"; "unit"; "compact_labels";
    "source_path"; "trim_path"; "intel_syntax"; "mean"; "sample_index";
    "divide_by"; "normalize"; "sort"; "drop_negative"; "nodecount";
    "nodefraction"; "edgefraction"; "trim"; "focus"; "ignore"; "prune_from";
    "hide"; "show"; "show_from"; "tagfocus"; "tagignore"; "tagshow";
    "taghide"; "noinlines"; "granularity" ].
Proof. vm_compute. reflexivity. Qed.

Lemma urlparams_configFields :
  urlparams configFields =
  [ "calltree"; "rel"; "unit"; "compact"; "intel"; "mean"; "norm"; "sort";
    "dropneg"; "n"; "nf"; "ef"; "trim"; "f"; "i"; "prunefrom"; "h"; "s";
    "sf"; "tf"; "ti"; "ts"; "th"; "noinlines"; "g" ].
Proof. vm_compute. reflexivity. Qed.

Lemma NoDup_urlparams : NoDup (urlparams configFields).
Proof.
  rewrite urlparams_configFields. apply NoDup_ListNoDup.
  repeat (constructor; [vm_compute; intuition discriminate|]). constructor.
Qed.

(** The default value of a field is what get prints for the default
    configuration. *)
Lemma defaultValue_get f :
  f ∈ configFields -> defaultValue f = get DefaultConfig f.
Proof. intros Hin. each_field Hin; reflexivity. Qed.

(** No field that makeURL writes is transient. *)
Lemma inURL_not_transient f :
  f ∈ configFields -> inURL f = true -> reflect.Index (field f) ∉ transient.
Proof.
  intros Hin. each_field Hin; vm_compute; intros Hact Hmem;
    try discriminate Hact;
    repeat (apply elem_of_cons in Hmem as [Hmem|Hmem]; [discriminate Hmem|]);
    inversion Hmem.
Qed.

(** Of the transient fields only the sample index has a URL parameter. *)
Lemma fromURL_transient f :
  f ∈ configFields -> fromURL f = true ->
  reflect.Index (field f) ∈ transient ->
  reflect.Index (field f) = ISampleIndex /\ urlparam f = "si".
Proof.
  intros Hin. each_field Hin; vm_compute; intros Hact Hmem;
    try discriminate Hact; try (split; reflexivity);
    repeat (apply elem_of_cons in Hmem as [Hmem|Hmem]; [discriminate Hmem|]);
    inversion Hmem.
Qed.


(** The entries init makes for one field: its name, then its choices. *)
Lemma configFieldMap_entries :
  configFieldMap = list_to_map (flat_map registryEntries configFields).
Proof. vm_cast_no_check (eq_refl configFieldMap). Qed.

Lemma registry_keys_NoDup :
  NoDup (flat_map registryEntries configFields).*1.
Proof.
  match goal with |- ?G => refine (@bool_decide_unpack G _ _) end.
  vm_compute. exact I.
Qed.

Lemma elem_of_registryEntries key f fields :
  (key, f) ∈ flat_map registryEntries fields <->
  f ∈ fields /\ (key = name f \/ key ∈ choices f).
Proof.
  rewrite list_elem_of_In, in_flat_map. unfold registryEntries. split.
  - intros (g & Hg & Hin). apply list_elem_of_In in Hg.
    destruct Hin as [[= <- <-]|Hin]; [tauto|].
    apply in_map_iff in Hin as (c & [= <- <-] & Hc).
    apply list_elem_of_In in Hc. tauto.
  - intros (Hf & Hkey). exists f. split; [apply list_elem_of_In; assumption|].
    destruct Hkey as [->|Hc]; [left; reflexivity|right].
    apply in_map_iff. exists key. split; [reflexivity|].
    apply list_elem_of_In. assumption.
Qed.

(** The names of the registry: the names of the fields, and the choices of
    the fields that have some. *)
Lemma configFieldMap_lookup key f :
  configFieldMap !! key = Some f <->
  f ∈ configFields /\ (key = name f \/ key ∈ choices f).
Proof.
  rewrite configFieldMap_entries, <- elem_of_registryEntries.
  symmetry. apply elem_of_list_to_map. apply registry_keys_NoDup.
Qed.

(** A field is registered under its own name. *)
Lemma configFieldMap_name f :
  f ∈ configFields -> configFieldMap !! name f = Some f.
Proof. intros Hin. apply configFieldMap_lookup. auto. Qed.

(** A choice of a field is registered as a name of that field. *)
Lemma configFieldMap_choice f choice :
  f ∈ configFields -> choice ∈ choices f ->
  configFieldMap !! choice = Some f /\ choice <> name f.
Proof.
  intros Hin Hc. split; [apply configFieldMap_lookup; auto|].
  revert Hc. each_field Hin; cbn [choices name]; intros Hmem;
    repeat (apply elem_of_cons in Hmem as [->|Hmem]; [discriminate|]);
    inversion Hmem.
Qed.

(** Only string fields have choices. *)
Lemma choices_kind f :
  f ∈ configFields -> choices f <> [] -> reflect.TypeKind (field f) = reflect.String_.
Proof. intros Hin. each_field Hin; vm_compute; intros Hc; congruence. Qed.

(** Two registered fields are the same field of the struct only if they
    are the same entry. *)
Lemma configFields_index_inj f g :
  f ∈ configFields -> g ∈ configFields ->
  reflect.Index (field f) = reflect.Index (field g) -> f = g.
Proof.
  intros Hf Hg Heq.
  assert (Hnd : NoDup ((fun f => reflect.Index (field f)) <$> configFields)).
  { match goal with |- ?G => refine (@bool_decide_unpack G _ _) end.
    vm_compute. exact I. }
  apply list_elem_of_lookup in Hf as [i Hi], Hg as [j Hj].
  assert (i = j); [|congruence].
  eapply NoDup_lookup; [exact Hnd| |]; rewrite list_lookup_fmap.
  - rewrite Hi. reflexivity.
  - rewrite Hj, Heq. reflexivity.
Qed.

(** The node count is registered as nodecount, with URL parameter n. *)
Lemma nodecountField_registered : nodecountField ∈ configFields.
Proof. apply list_elem_of_In. vm_compute. do 14 right. left. reflexivity. Qed.

(** The sample index is registered as sample_index, with URL parameter si. *)
Lemma sampleIndexField_registered : sampleIndexField ∈ configFields.
Proof. apply list_elem_of_In. vm_compute. do 9 right. left. reflexivity. Qed.

Lemma callTreeField_registered : callTreeField ∈ configFields.
Proof. apply list_elem_of_In. vm_compute. do 1 right. left. reflexivity. Qed.

Lemma sortField_registered : sortField ∈ configFields.
Proof. apply list_elem_of_In. vm_compute. do 12 right. left. reflexivity. Qed.

(** Every boolean field is written to URLs. *)
Lemma bool_inURL f :
  f ∈ configFields -> reflect.TypeKind (field f) = reflect.Bool -> inURL f = true.
Proof. intros Hin. each_field Hin; vm_compute; congruence. Qed.

(** The choices of the registry. *)
Lemma configFields_choices :
  flat_map choices configFields =
  [ "cum"; "flat";
    "functions"; "filefunctions"; "files"; "lines"; "addresses" ].
Proof. vm_compute. reflexivity. Qed.

End Registry.


(** ** makeURL *)

Section MakeURL.

Import driver.
Context {text : Float64Text}.

Lemma makeURL_loop cfg u :
  makeURL cfg u =
  let r := fold_left (makeURLField cfg) configFields (url.Query u, false) in
  (if snd r then url.withRawQuery u (url.Encode (fst r)) else u, snd r).
Proof.
  unfold makeURL. destruct (fold_left _ _ _) as [q changed]. reflexivity.
Qed.

(** In the URL makeURL returns every written field's parameter holds the
    value makeURL wants for it. *)
Lemma makeURL_Get cfg u f :
  f ∈ configFields -> inURL f = true ->
  url.Get (url.Query (fst (makeURL cfg u))) (urlparam f) = urlValue cfg f.
Proof.
  intros Hin Hact. rewrite makeURL_loop. cbv zeta.
  destruct (fold_left _ _ _) as [q changed] eqn:Hfold. cbn [fst snd].
  pose proof (makeURL_loop_Get _ _ _ _ _ _ _ Hfold NoDup_urlparams Hin Hact) as Hget.
  destruct changed.
  - rewrite Get_Query_Encode. assumption.
  - apply makeURL_loop_unchanged in Hfold as [-> _]. assumption.
Qed.

(** The other parameters of the URL are as they were. *)
Lemma makeURL_other cfg u key :
  key ∉ urlparams configFields ->
  url.Get (url.Query (fst (makeURL cfg u))) key = url.Get (url.Query u) key.
Proof.
  intros Hkey. rewrite makeURL_loop. cbv zeta.
  destruct (fold_left _ _ _) as [q changed] eqn:Hfold. cbn [fst snd].
  destruct changed; [|reflexivity].
  rewrite Get_Query_Encode. eapply makeURL_loop_other; eassumption.
Qed.

(** makeURL returns its argument, and false, when every written field's
    parameter already holds the wanted value. *)
Lemma makeURL_fixed cfg u :
  (forall f, f ∈ configFields -> inURL f = true ->
             url.Get (url.Query u) (urlparam f) = urlValue cfg f) ->
  makeURL cfg u = (u, false).
Proof.
  intros Hall. rewrite makeURL_loop, makeURL_loop_fixed by assumption. reflexivity.
Qed.

(** And only then. *)
Lemma makeURL_unchanged cfg u :
  snd (makeURL cfg u) = false ->
  makeURL cfg u = (u, false)
  /\ forall f, f ∈ configFields -> inURL f = true ->
               url.Get (url.Query u) (urlparam f) = urlValue cfg f.
Proof.
  intros Hsnd.
  assert (Heq : makeURL cfg u = (u, false)).
  { revert Hsnd. rewrite makeURL_loop. cbv zeta.
    destruct (fold_left _ _ _) as [q changed]. cbn [fst snd].
    intros ->. reflexivity. }
  split; [assumption|]. intros f Hin Hact.
  rewrite <- (makeURL_Get cfg u f Hin Hact), Heq. reflexivity.
Qed.

Lemma makeURL_again cfg u :
  makeURL cfg (fst (makeURL cfg u)) = (fst (makeURL cfg u), false).
Proof. apply makeURL_fixed. intros f. apply makeURL_Get. Qed.

(** makeURL reads the configuration through the fields it writes only. *)
Lemma makeURL_same_fields cfg cfg' u :
  (forall f, f ∈ configFields -> inURL f = true ->
             load (reflect.Index (field f)) cfg' = load (reflect.Index (field f)) cfg) ->
  makeURL cfg' u = makeURL cfg u.
Proof.
  intros Hsame. unfold makeURL.
  assert (Hfold : forall fields acc,
            (forall f, f ∈ fields -> f ∈ configFields) ->
            fold_left (makeURLField cfg') fields acc =
            fold_left (makeURLField cfg) fields acc).
  { induction fields as [|f fields IH]; intros acc Hsub; [reflexivity|].
    cbn [fold_left]. rewrite IH by (intros g Hg; apply Hsub; right; assumption).
    f_equal. destruct (inURL f) eqn:Hact.
    - destruct acc as [q changed]. rewrite !makeURLField_write by assumption.
      unfold urlValue.
      rewrite (get_same_load cfg cfg' f) by (apply Hsame; [apply Hsub; left|assumption]).
      reflexivity.
    - rewrite !makeURLField_skip by assumption. reflexivity. }
  rewrite Hfold by auto. reflexivity.
Qed.

End MakeURL.

(** ** applyURL *)

Section ApplyURL.

Import driver.
Context {text : Float64Text}.

(** The value applyURL finds for a field in the parameters. *)
Lemma applyFields_cons f rest cfg params :
  applyFields (f :: rest) cfg params =
  let value := if fromURL f then url.Get params (urlparam f) else "" in
  if String.eqb value "" then applyFields rest cfg params
  else match set cfg f value with
       | (cfg', Some err) => (cfg', Some (ErrorSetting (name f) err))
       | (cfg', None) => applyFields rest cfg' params
       end.
Proof. reflexivity. Qed.

(** applyURL writes to no field whose parameter is absent or empty, nor
    to a field that has no parameter. *)
Lemma applyFields_untouched fields :
  forall cfg params cfg' r j,
    applyFields fields cfg params = (cfg', r) ->
    (forall f, f ∈ fields -> reflect.Index (field f) = j ->
               fromURL f = false \/ url.Get params (urlparam f) = "") ->
    load j cfg' = load j cfg.
Proof.
  induction fields as [|f rest IH]; intros cfg params cfg' r j Happly Hj.
  - cbn in Happly. congruence.
  - rewrite applyFields_cons in Happly. cbv zeta in Happly.
    assert (Hrest : forall g, g ∈ rest -> reflect.Index (field g) = j ->
                      fromURL g = false \/ url.Get params (urlparam g) = "")
      by (intros g Hg; apply Hj; right; assumption).
    destruct (String.eqb_spec (if fromURL f then url.Get params (urlparam f) else "") "")
      as [Hempty|Hvalue]; [eauto|].
    assert (Hne : j <> reflect.Index (field f)).
    { intros ->. destruct (Hj f) as [Hf|Hf]; [left|reflexivity| |].
      - rewrite Hf in Hvalue. congruence.
      - rewrite Hf in Hvalue. destruct (fromURL f); congruence. }
    destruct (set cfg f _) as [cfg1 [err|]] eqn:Hset.
    + inversion Happly; subst. eapply set_other; eassumption.
    + rewrite (IH _ _ _ _ _ Happly Hrest). eapply set_other; eassumption.
Qed.

(** The loop over a list of fields that is split in two. *)
Lemma applyFields_app pre post :
  forall cfg params,
    applyFields (pre ++ post) cfg params =
    match applyFields pre cfg params with
    | (cfg1, None) => applyFields post cfg1 params
    | (cfg1, Some err) => (cfg1, Some err)
    end.
Proof.
  induction pre as [|f pre IH]; intros cfg params; [reflexivity|].
  rewrite <- app_comm_cons, !applyFields_cons. cbv zeta.
  destruct (String.eqb _ ""); [apply IH|].
  destruct (set cfg f _) as [cfg1 [err|]]; [reflexivity|apply IH].
Qed.

End ApplyURL.


(** ** makeURL when one field differs from the URL *)

Section MakeURLSingle.

Import driver.
Context {text : Float64Text}.

Lemma urlValue_default cfg f :
  get cfg f = defaultValue f -> urlValue cfg f = "".
Proof. intros Heq. unfold urlValue. rewrite Heq, String.eqb_refl. reflexivity. Qed.

Lemma urlValue_not_default cfg f :
  get cfg f <> defaultValue f ->
  urlValue cfg f =
  if bool_decide (reflect.TypeKind (field f) = reflect.Bool)
  then String.substring 0 1 (get cfg f) else get cfg f.
Proof.
  intros Hne. unfold urlValue.
  destruct (String.eqb_spec (get cfg f) (defaultValue f)); [contradiction|reflexivity].
Qed.

(** A registered field that holds what the default configuration holds
    is at its default value. *)
Lemma get_default cfg f :
  f ∈ configFields ->
  load (reflect.Index (field f)) cfg = load (reflect.Index (field f)) DefaultConfig ->
  get cfg f = defaultValue f.
Proof.
  intros Hin Hload. rewrite (defaultValue_get f Hin). apply get_same_load. assumption.
Qed.

(** The loop when exactly one written field differs from the query. *)
Lemma makeURL_loop_single cfg fields :
  forall q changed f0,
    NoDup (urlparams fields) ->
    f0 ∈ fields -> inURL f0 = true ->
    url.Get q (urlparam f0) <> urlValue cfg f0 ->
    (forall f, f ∈ fields -> inURL f = true -> urlparam f <> urlparam f0 ->
               url.Get q (urlparam f) = urlValue cfg f) ->
    fold_left (makeURLField cfg) fields (q, changed) =
    (if String.eqb (urlValue cfg f0) "" then url.Del q (urlparam f0)
     else url.Set_ q (urlparam f0) (urlValue cfg f0), true).
Proof.
  induction fields as [|g fields IH]; intros q changed f0 Hnd Hin Hact Hdiff Hrest.
  - inversion Hin.
  - cbn [fold_left]. rewrite urlparams_cons in Hnd.
    assert (Htail : forall f, f ∈ fields -> inURL f = true -> urlparam f <> urlparam f0 ->
                     url.Get q (urlparam f) = urlValue cfg f)
      by (intros f Hf; apply Hrest; right; assumption).
    destruct (inURL g) eqn:Hg.
    + apply NoDup_cons in Hnd as [Hfresh Hnd].
      destruct (decide (urlparam g = urlparam f0)) as [Hsame|Hother].
      * assert (g = f0) as ->.
        { apply elem_of_cons in Hin as [->|Hin]; [reflexivity|].
          exfalso. apply Hfresh. apply elem_of_urlparams. eauto. }
        rewrite makeURLField_write by assumption.
        destruct (String.eqb_spec (url.Get q (urlparam f0)) (urlValue cfg f0));
          [contradiction|].
        apply makeURL_loop_fixed. intros f Hf Hfact.
        assert (Hne : urlparam f0 <> urlparam f).
        { intros Heq. apply Hfresh. apply elem_of_urlparams. eauto. }
        destruct (String.eqb (urlValue cfg f0) "").
        -- rewrite Get_Del_other by assumption. apply Htail; auto.
        -- rewrite Get_Set_other by assumption. apply Htail; auto.
      * rewrite makeURLField_write by assumption.
        rewrite (Hrest g) by (auto; left). rewrite String.eqb_refl.
        apply IH; auto.
        apply elem_of_cons in Hin as [->|Hin]; [contradiction|assumption].
    + rewrite makeURLField_skip by assumption.
      apply IH; auto.
      apply elem_of_cons in Hin as [->|Hin]; [congruence|assumption].
Qed.

(** makeURL when exactly one written field differs from the URL: the
    parameter of that field is set, or deleted when the field is at its
    default, and the query is written back in its encoded form. *)
Lemma makeURL_single cfg u f0 :
  f0 ∈ configFields -> inURL f0 = true ->
  url.Get (url.Query u) (urlparam f0) <> urlValue cfg f0 ->
  (forall f, f ∈ configFields -> inURL f = true -> urlparam f <> urlparam f0 ->
             url.Get (url.Query u) (urlparam f) = urlValue cfg f) ->
  makeURL cfg u =
  (url.withRawQuery u
     (url.Encode (if String.eqb (urlValue cfg f0) "" then url.Del (url.Query u) (urlparam f0)
                  else url.Set_ (url.Query u) (urlparam f0) (urlValue cfg f0))),
   true).
Proof.
  intros Hin Hact Hdiff Hrest. rewrite makeURL_loop.
  rewrite (makeURL_loop_single cfg configFields _ _ f0 NoDup_urlparams Hin Hact Hdiff Hrest).
  reflexivity.
Qed.

(** The node count is the only field with URL parameter n. *)
Lemma urlparam_n f :
  f ∈ configFields -> urlparam f <> "n" -> reflect.Index (field f) <> INodeCount.
Proof. intros Hin. each_field Hin; vm_compute; congruence. Qed.

End MakeURLSingle.


(** * The properties of the specification *)

(** ** C1: the node count, decoded from and encoded into a URL *)

Section NodeCountScenario.

Import driver.
Context {text : Float64Text}.

Lemma Query_empty u : url.Query (url.withRawQuery u "") = ∅.
Proof. reflexivity. Qed.

Lemma Query_n_minus1 u :
  url.Query (url.withRawQuery u "n=-1") = {[ "n" := ["-1"] ]}.
Proof. vm_compute. reflexivity. Qed.

(** The fields other than the node count, in a configuration that is the
    default one but for the node count, are at their default values. *)
Lemma urlValue_but_nodecount n f :
  f ∈ configFields -> urlparam f <> "n" ->
  urlValue (store INodeCount (VInt n) DefaultConfig) f = "".
Proof.
  intros Hin Hne. apply urlValue_default, get_default; [assumption|].
  apply load_store_other. apply not_eq_sym, urlparam_n; assumption.
Qed.

End NodeCountScenario.

(** C1 as stated fails in its last part: the default configuration, as
    decoded from ?n=-1, encoded against the URL that still holds n=-1, gives
    changed = true, and n is deleted from the URL. *)
Lemma C1_counterexample :
  let u := url.mkURL "http" "localhost:8080" "/ui/" "n=-1" "" in
  let cfg := fst (driver.applyURL (text := literalFloats) driver.DefaultConfig (url.Query u)) in
  (driver.NodeCount cfg, driver.makeURL (text := literalFloats) cfg u)
  = (-1, (url.mkURL "http" "localhost:8080" "/ui/" "" "", true)).
Proof. vm_compute. reflexivity. Qed.

(** C1, amended.  With the default configuration (nodecount = -1):
    decoding ?n=5 sets the node count to 5, and encoding that configuration
    against a URL without n gives a URL with n=5 and changed = true;
    decoding ?n=-1 sets the node count to -1, and encoding that
    configuration against the URL that still holds n=-1 gives
    changed = true and a URL from which n is deleted. *)
Theorem C1_nodecount_scenario {text : Float64Text} (u : url.URL) :
  let plain := url.withRawQuery u "" in
  let five := url.withRawQuery u "n=5" in
  let minus := url.withRawQuery u "n=-1" in
  driver.applyURL driver.DefaultConfig (url.Query five)
    = (driver.store driver.INodeCount (driver.VInt 5) driver.DefaultConfig, None)
  /\ driver.makeURL (driver.store driver.INodeCount (driver.VInt 5) driver.DefaultConfig) plain
    = (five, true)
  /\ driver.applyURL driver.DefaultConfig (url.Query minus) = (driver.DefaultConfig, None)
  /\ driver.makeURL driver.DefaultConfig minus = (plain, true).
Proof.
  cbv zeta. split; [|split; [|split]].
  - vm_compute. reflexivity.
  - rewrite (makeURL_single _ _ nodecountField).
    + vm_compute. reflexivity.
    + apply nodecountField_registered.
    + reflexivity.
    + vm_compute. discriminate.
    + intros f Hin _ Hne. rewrite Query_empty. unfold url.Get. rewrite lookup_empty.
      symmetry. apply urlValue_but_nodecount; assumption.
  - vm_compute. reflexivity.
  - rewrite (makeURL_single _ _ nodecountField).
    + vm_compute. reflexivity.
    + apply nodecountField_registered.
    + reflexivity.
    + vm_compute. discriminate.
    + intros f Hin _ Hne. rewrite Query_n_minus1.
      unfold url.Get. rewrite lookup_singleton_ne by (apply not_eq_sym; exact Hne).
      symmetry. apply (urlValue_but_nodecount (-1)); assumption.
Qed.


(** ** What applyURL reads *)

Section ApplyURLReads.

Import driver.
Context {text : Float64Text}.

Lemma NoDup_indices :
  NoDup ((fun f => reflect.Index (field f)) <$> configFields).
Proof.
  match goal with |- ?G => refine (@bool_decide_unpack G _ _) end.
  vm_compute. exact I.
Qed.

(** When the loop succeeds, a field whose parameter is present and not
    empty holds what set stored for that parameter. *)
Lemma applyFields_reads fields :
  forall cfg params cfg' f value,
    NoDup ((fun f => reflect.Index (field f)) <$> fields) ->
    f ∈ fields -> fromURL f = true ->
    url.Get params (urlparam f) = value -> value <> "" ->
    applyFields fields cfg params = (cfg', None) ->
    exists cfg1 cfg2,
      set cfg1 f value = (cfg2, None)
      /\ load (reflect.Index (field f)) cfg' = load (reflect.Index (field f)) cfg2.
Proof.
  induction fields as [|g rest IH]; intros cfg params cfg' f value Hnd Hin Hact Hget Hvalue Happly.
  - inversion Hin.
  - rewrite fmap_cons in Hnd. apply NoDup_cons in Hnd as [Hfresh Hnd].
    rewrite applyFields_cons in Happly. cbv zeta in Happly.
    apply elem_of_cons in Hin as [->|Hin].
    + rewrite Hact, Hget in Happly.
      destruct (String.eqb_spec value ""); [contradiction|].
      destruct (set cfg g value) as [cfg1 [err|]] eqn:Hset; [discriminate|].
      exists cfg, cfg1. split; [assumption|].
      eapply applyFields_untouched; [eassumption|].
      intros h Hh Hidx. exfalso. apply Hfresh.
      apply list_elem_of_fmap. exists h. auto.
    + destruct (String.eqb _ ""); [eauto|].
      destruct (set cfg g _) as [cfg1 [err|]]; [discriminate|eauto].
Qed.

Lemma applyURL_reads cfg params cfg' f value :
  f ∈ configFields -> fromURL f = true ->
  url.Get params (urlparam f) = value -> value <> "" ->
  applyURL cfg params = (cfg', None) ->
  exists cfg1 cfg2,
    set cfg1 f value = (cfg2, None)
    /\ load (reflect.Index (field f)) cfg' = load (reflect.Index (field f)) cfg2.
Proof.
  unfold applyURL. intros Hin Hact Hget Hvalue Happly.
  exact (applyFields_reads configFields cfg params cfg' f value
           NoDup_indices Hin Hact Hget Hvalue Happly).
Qed.

(** applyURL leaves a registered field as it was when its parameter is
    absent or empty, or when it has none. *)
Lemma applyURL_untouched cfg params cfg' r f :
  f ∈ configFields ->
  fromURL f = false \/ url.Get params (urlparam f) = "" ->
  applyURL cfg params = (cfg', r) ->
  load (reflect.Index (field f)) cfg' = load (reflect.Index (field f)) cfg.
Proof.
  unfold applyURL. intros Hin Hf Happly.
  apply (applyFields_untouched configFields cfg params cfg' r _ Happly).
  intros g Hg Hidx. rewrite (configFields_index_inj g f Hg Hin Hidx). assumption.
Qed.

Lemma inURL_fromURL f : inURL f = true -> fromURL f = true.
Proof. unfold inURL, fromURL. destruct (String.eqb _ ""); [discriminate|reflexivity]. Qed.

End ApplyURLReads.

(** ** C8: encoding twice *)

(** C8.  Encoding a configuration into the URL that a first encoding of
    the same configuration returned gives that URL back with
    changed = false; and whenever the value makeURL wants for each written
    field equals the value the URL already has for the field's parameter,
    makeURL returns the URL it was given, with changed = false. *)
Theorem C8_encode_twice {text : Float64Text} (cfg : driver.PprofConfig) (u : url.URL) :
  driver.makeURL cfg (fst (driver.makeURL cfg u)) = (fst (driver.makeURL cfg u), false)
  /\ ((forall f, f ∈ driver.configFields -> inURL f = true ->
         url.Get (url.Query u) (driver.urlparam f) = driver.urlValue cfg f) ->
      driver.makeURL cfg u = (u, false)).
Proof. split; [apply makeURL_again|apply makeURL_fixed]. Qed.

(** C8 on the default configuration and a URL whose only parameter is
    si, which makeURL does not write. *)
Lemma C8_encode_twice_witness :
  let u := url.mkURL "http" "localhost:8080" "/ui/" "si=cpu" "" in
  driver.makeURL (text := literalFloats) driver.DefaultConfig u = (u, false).
Proof.
  cbv zeta.
  apply (proj2 (C8_encode_twice (text := literalFloats) driver.DefaultConfig
                  (url.mkURL "http" "localhost:8080" "/ui/" "si=cpu" ""))).
  intros f Hin Hact. each_field Hin; first [reflexivity | discriminate Hact].
Defined.

(** ** C2: a field at its default value *)

(** C2 as stated fails: with the node count at its default value, encoding
    reports changed = true as soon as another field is off its default
    (here sort = cum, against a URL without parameters), or as soon as the
    URL holds a value for the parameter (here n=5, with the default
    configuration). *)
Lemma C2_counterexample :
  let u := url.mkURL "http" "localhost:8080" "/ui/" "" "" in
  let u5 := url.mkURL "http" "localhost:8080" "/ui/" "n=5" "" in
  let cum := driver.store driver.ISort (driver.VString "cum") driver.DefaultConfig in
  driver.configFieldMap (text := literalFloats) !! "nodecount" = Some nodecountField
  /\ (inURL nodecountField,
      driver.get (text := literalFloats) cum nodecountField,
      driver.get (text := literalFloats) driver.DefaultConfig nodecountField,
      driver.defaultValue nodecountField)
     = (true, "-1", "-1", "-1")
  /\ driver.makeURL (text := literalFloats) cum u
     = (url.mkURL "http" "localhost:8080" "/ui/" "sort=cum" "", true)
  /\ driver.makeURL (text := literalFloats) driver.DefaultConfig u5 = (u, true).
Proof. vm_compute. repeat split; reflexivity. Qed.

(** C2, amended.  For a field that makeURL writes (saved, with a URL
    parameter) and whose value is its default value: the URL makeURL
    returns has no value for the field's parameter, and applyURL on the
    parameters of that URL leaves the field as it is; makeURL reports
    changed = false, and returns the URL it was given, when moreover every
    field it writes is at its default value and the URL has no value for
    any of their parameters. *)
Theorem C2_default_field {text : Float64Text}
    (cfg : driver.PprofConfig) (u : url.URL) (f : driver.configField) :
  f ∈ driver.configFields -> inURL f = true ->
  driver.get cfg f = driver.defaultValue f ->
  let u' := fst (driver.makeURL cfg u) in
  url.Get (url.Query u') (driver.urlparam f) = ""
  /\ (forall cfg' r,
        driver.applyURL cfg (url.Query u') = (cfg', r) ->
        driver.load (driver.reflect.Index (driver.field f)) cfg'
        = driver.load (driver.reflect.Index (driver.field f)) cfg)
  /\ ((forall g, g ∈ driver.configFields -> inURL g = true ->
         driver.get cfg g = driver.defaultValue g
         /\ url.Get (url.Query u) (driver.urlparam g) = "") ->
      driver.makeURL cfg u = (u, false)).
Proof.
  intros Hin Hact Hdef u'.
  assert (Hget : url.Get (url.Query u') (driver.urlparam f) = "").
  { unfold u'. rewrite makeURL_Get by assumption. apply urlValue_default. assumption. }
  split; [assumption|]. split.
  - intros cfg' r Happly. eapply applyURL_untouched; eauto.
  - intros Hall. apply makeURL_fixed. intros g Hg Hgact.
    destruct (Hall g Hg Hgact) as [Hgdef ->]. symmetry. apply urlValue_default. assumption.
Qed.

(** C2 at the node count of the default configuration, against a URL
    that holds n=5. *)
Lemma C2_default_field_witness :
  let u5 := url.mkURL "http" "localhost:8080" "/ui/" "n=5" "" in
  let u' := fst (driver.makeURL (text := literalFloats) driver.DefaultConfig u5) in
  url.Get (url.Query u') "n" = ""
  /\ (forall cfg' r,
        driver.applyURL (text := literalFloats) driver.DefaultConfig (url.Query u') = (cfg', r) ->
        driver.load driver.INodeCount cfg' = driver.VInt (-1))
  /\ ((forall g, g ∈ driver.configFields (text := literalFloats) -> inURL g = true ->
         driver.get (text := literalFloats) driver.DefaultConfig g = driver.defaultValue g
         /\ url.Get (url.Query u5) (driver.urlparam g) = "") ->
      driver.makeURL (text := literalFloats) driver.DefaultConfig u5 = (u5, false)).
Proof.
  exact (C2_default_field (text := literalFloats) driver.DefaultConfig
           (url.mkURL "http" "localhost:8080" "/ui/" "n=5" "") nodecountField
           nodecountField_registered eq_refl eq_refl).
Defined.


(** ** C7: booleans in URLs *)

(** C7.  For a registered boolean field holding b: get prints it in full,
    as true or false; the field is one makeURL writes, and when its value
    is not the default value the URL makeURL returns holds t for true and
    f for false as the value of the field's parameter; set with t stores
    true, set with f stores false, and so does a successful applyURL on
    parameters that hold t or f for the field. *)
Theorem C7_boolean_field {text : Float64Text}
    (cfg : driver.PprofConfig) (u : url.URL) (f : driver.configField) (b : bool) :
  f ∈ driver.configFields ->
  driver.load (driver.reflect.Index (driver.field f)) cfg = driver.VBool b ->
  let i := driver.reflect.Index (driver.field f) in
  driver.get cfg f = (if b then "true" else "false")
  /\ inURL f = true
  /\ (driver.get cfg f <> driver.defaultValue f ->
      url.Get (url.Query (fst (driver.makeURL cfg u))) (driver.urlparam f)
      = (if b then "t" else "f"))
  /\ driver.set cfg f "t" = (driver.store i (driver.VBool true) cfg, None)
  /\ driver.set cfg f "f" = (driver.store i (driver.VBool false) cfg, None)
  /\ (forall (params : url.Values) (cfg' : driver.PprofConfig) (b' : bool),
        url.Get params (driver.urlparam f) = (if b' then "t" else "f") ->
        driver.applyURL cfg params = (cfg', None) ->
        driver.load i cfg' = driver.VBool b').
Proof.
  intros Hin Hload. cbv zeta.
  assert (Hkind : driver.reflect.TypeKind (driver.field f) = driver.reflect.Bool).
  { rewrite (TypeKind_load _ cfg). rewrite Hload. reflexivity. }
  assert (Hact : inURL f = true) by (apply bool_inURL; assumption).
  assert (Hget : driver.get cfg f = (if b then "true" else "false")).
  { rewrite get_load. rewrite Hload. destruct b; reflexivity. }
  assert (Hset : forall (cfg1 : driver.PprofConfig) (b' : bool), driver.set cfg1 f (if b' then "t" else "f")
                   = (driver.store (driver.reflect.Index (driver.field f)) (driver.VBool b') cfg1, None)).
  { intros cfg1 b'. pose proof (set_cases cfg1 f (if b' then "t" else "f")) as Hc.
    cbv zeta in Hc.
    pose proof (TypeKind_load (driver.field f) cfg1) as Hk.
    rewrite Hkind in Hk.
    destruct (driver.load (driver.reflect.Index (driver.field f)) cfg1); try discriminate Hk.
    rewrite Hc. destruct b'; reflexivity. }
  split; [assumption|]. split; [assumption|]. split; [|split; [|split]].
  - intros Hne. rewrite makeURL_Get by assumption.
    rewrite urlValue_not_default by assumption.
    rewrite bool_decide_true by assumption. rewrite Hget. destruct b; reflexivity.
  - apply (Hset cfg true).
  - apply (Hset cfg false).
  - intros params cfg' b' Hparam Happly.
    destruct (applyURL_reads cfg params cfg' f _ Hin (inURL_fromURL f Hact) Hparam)
      as (cfg1 & cfg2 & Hset1 & Hsame); [destruct b'; discriminate|assumption|].
    rewrite Hsame. rewrite Hset in Hset1. inversion Hset1; subst.
    apply load_store_same.
    pose proof (TypeKind_load (driver.field f) cfg1) as Hk.
    rewrite <- Hk, Hkind. reflexivity.
Qed.

(** C7 at call_tree, set to true over the default configuration, and at
    trim, whose default is true. *)
Lemma C7_boolean_field_witness :
  let u := url.mkURL "http" "localhost:8080" "/ui/" "" "" in
  let cfg := driver.store driver.ICallTree (driver.VBool true) driver.DefaultConfig in
  (driver.makeURL (text := literalFloats) cfg u,
   driver.makeURL (text := literalFloats)
     (driver.store driver.ITrim (driver.VBool false) driver.DefaultConfig) u,
   fst (driver.applyURL (text := literalFloats) driver.DefaultConfig
          (url.Query (url.withRawQuery u "calltree=t&trim=f"))))
  = ((url.withRawQuery u "calltree=t", true),
     (url.withRawQuery u "trim=f", true),
     driver.store driver.ITrim (driver.VBool false) cfg)
  /\ driver.get (text := literalFloats) cfg callTreeField = "true"
  /\ url.Get (url.Query (fst (driver.makeURL (text := literalFloats) cfg u))) "calltree" = "t".
Proof.
  split; [vm_compute; reflexivity|].
  pose proof (C7_boolean_field (text := literalFloats)
                (driver.store driver.ICallTree (driver.VBool true) driver.DefaultConfig)
                (url.mkURL "http" "localhost:8080" "/ui/" "" "") callTreeField true
                callTreeField_registered eq_refl) as Hw.
  cbv zeta in Hw. destruct Hw as (Hget & _ & Hurl & _).
  split; [exact Hget|]. apply Hurl. vm_compute. discriminate.
Defined.


(** ** C3: transient fields and URLs *)

Section Transient.

Import driver.
Context {text : Float64Text}.

(** The fields without a URL parameter are the output, the source path,
    the trim path and the divisor. *)
Lemma fromURL_false f :
  f ∈ configFields ->
  (fromURL f = false <->
   reflect.Index (field f) ∈ [IOutput; ISourcePath; ITrimPath; IDivideBy]).
Proof.
  intros Hin. each_field Hin; vm_compute; split; intros Hf;
    try discriminate Hf; try (apply list_elem_of_In; cbn; tauto);
    try reflexivity;
    repeat (apply elem_of_cons in Hf as [Hf|Hf]; [discriminate Hf|]);
    inversion Hf.
Qed.

(** The parameter of a field that makeURL passes over is the parameter of
    no field that makeURL writes. *)
Lemma skipped_urlparam f :
  f ∈ configFields -> inURL f = false -> urlparam f ∉ urlparams configFields.
Proof.
  intros Hin. rewrite urlparams_configFields.
  each_field Hin; vm_compute; intros Hact Hmem; try discriminate Hact;
    repeat (apply elem_of_cons in Hmem as [Hmem|Hmem]; [discriminate Hmem|]);
    inversion Hmem.
Qed.

Lemma applyURL_eq cfg params :
  applyURL cfg params = applyFields configFields cfg params.
Proof. reflexivity. Qed.

Lemma set_sample_index cfg value :
  set cfg sampleIndexField value = (store ISampleIndex (VString value) cfg, None).
Proof. reflexivity. Qed.

(** What makeURL returns does not depend on the transient fields. *)
Lemma makeURL_transient cfg u i v :
  i ∈ transient -> makeURL (store i v cfg) u = makeURL cfg u.
Proof.
  intros Hi. apply makeURL_same_fields. intros f Hin Hact.
  apply load_store_other. intros ->.
  exact (inURL_not_transient f Hin Hact Hi).
Qed.

(** applyURL never writes the fields that have no URL parameter. *)
Lemma applyURL_no_parameter cfg params cfg' r :
  applyURL cfg params = (cfg', r) ->
  (Output cfg', SourcePath cfg', TrimPath cfg', DivideBy cfg')
  = (Output cfg, SourcePath cfg, TrimPath cfg, DivideBy cfg).
Proof.
  intros Happly.
  assert (Hsame : forall i, i ∈ [IOutput; ISourcePath; ITrimPath; IDivideBy] ->
                    load i cfg' = load i cfg).
  { intros i Hi. rewrite applyURL_eq in Happly.
    apply (applyFields_untouched configFields cfg params cfg' r i Happly).
    intros f Hin Hidx. left. apply fromURL_false; [assumption|]. rewrite Hidx. assumption. }
  assert (H1 : load IOutput cfg' = load IOutput cfg)
    by (apply Hsame, list_elem_of_In; cbn; tauto).
  assert (H2 : load ISourcePath cfg' = load ISourcePath cfg)
    by (apply Hsame, list_elem_of_In; cbn; tauto).
  assert (H3 : load ITrimPath cfg' = load ITrimPath cfg)
    by (apply Hsame, list_elem_of_In; cbn; tauto).
  assert (H4 : load IDivideBy cfg' = load IDivideBy cfg)
    by (apply Hsame, list_elem_of_In; cbn; tauto).
  cbn [load] in H1, H2, H3, H4. congruence.
Qed.

(** applyURL reads the sample index from the parameter si. *)
Lemma applyURL_sample_index cfg params cfg' value :
  url.Get params "si" = value -> value <> "" ->
  applyURL cfg params = (cfg', None) ->
  SampleIndex cfg' = value.
Proof.
  intros Hget Hvalue Happly.
  assert (Hact : fromURL sampleIndexField = true) by reflexivity.
  destruct (applyURL_reads cfg params cfg' sampleIndexField value
              sampleIndexField_registered Hact Hget Hvalue Happly)
    as (cfg1 & cfg2 & Hset & Hsame).
  rewrite set_sample_index in Hset. inversion Hset; subst.
  change (VString (SampleIndex cfg')
          = load ISampleIndex (store ISampleIndex (VString (url.Get params "si")) cfg1)) in Hsame.
  rewrite load_store_same in Hsame by reflexivity. congruence.
Qed.

End Transient.

(** C3 as stated fails for decoding: the sample index is not saved in
    settings, yet applyURL reads it from the parameter si. *)
Lemma C3_counterexample :
  let u := url.mkURL "http" "localhost:8080" "/ui/" "si=cpu" "" in
  driver.configFieldMap (text := literalFloats) !! "sample_index" = Some sampleIndexField
  /\ (driver.saved sampleIndexField, driver.SampleIndex driver.DefaultConfig) = (false, "")
  /\ driver.applyURL (text := literalFloats) driver.DefaultConfig (url.Query u)
     = (driver.store driver.ISampleIndex (driver.VString "cpu") driver.DefaultConfig, None).
Proof. vm_compute. repeat split; reflexivity. Qed.

(** C3, amended.  makeURL passes over every field that has no URL
    parameter or is not saved: what it returns does not depend on the
    transient fields (output, source path, trim path, sample index,
    divisor), and it leaves the parameter of a field it passes over as the
    URL had it.  applyURL passes over the fields that have no URL
    parameter, saved or not: it never writes the output, the source path,
    the trim path or the divisor, and it does read the sample index, from
    the parameter si. *)
Theorem C3_transient_fields {text : Float64Text} (cfg : driver.PprofConfig) :
  (forall (u : url.URL) (i : driver.fieldIndex) (v : driver.value),
     i ∈ transient -> driver.makeURL (driver.store i v cfg) u = driver.makeURL cfg u)
  /\ (forall (u : url.URL) (f : driver.configField),
        f ∈ driver.configFields -> inURL f = false ->
        url.Get (url.Query (fst (driver.makeURL cfg u))) (driver.urlparam f)
        = url.Get (url.Query u) (driver.urlparam f))
  /\ (forall (params : url.Values) (cfg' : driver.PprofConfig) (r : option error)
             (f : driver.configField),
        f ∈ driver.configFields -> fromURL f = false ->
        driver.applyURL cfg params = (cfg', r) ->
        driver.load (driver.reflect.Index (driver.field f)) cfg'
        = driver.load (driver.reflect.Index (driver.field f)) cfg)
  /\ (forall (params : url.Values) (cfg' : driver.PprofConfig) (r : option error),
        driver.applyURL cfg params = (cfg', r) ->
        (driver.Output cfg', driver.SourcePath cfg', driver.TrimPath cfg', driver.DivideBy cfg')
        = (driver.Output cfg, driver.SourcePath cfg, driver.TrimPath cfg, driver.DivideBy cfg))
  /\ (forall (params : url.Values) (cfg' : driver.PprofConfig) (value : string),
        url.Get params "si" = value -> value <> "" ->
        driver.applyURL cfg params = (cfg', None) ->
        driver.SampleIndex cfg' = value).
Proof.
  split; [|split; [|split; [|split]]].
  - intros u i v. apply makeURL_transient.
  - intros u f Hin Hact. apply makeURL_other, skipped_urlparam; assumption.
  - intros params cfg' r f Hin Hf. apply applyURL_untouched; auto.
  - apply applyURL_no_parameter.
  - apply applyURL_sample_index.
Qed.


(** ** C4: what set rejects, and what it leaves alone *)

Section SetRejects.

Import driver.
Context {text : Float64Text}.

Lemma Atoi_error s err :
  strconv.Atoi s = Err err -> exists kind, err = NumError "Atoi" s kind.
Proof.
  unfold strconv.Atoi.
  destruct (match s with
            | String "+" rest => (false, rest)
            | String "-" rest => (true, rest)
            | _ => (false, s)
            end) as [neg body].
  destruct body; [intros [= <-]; eauto|].
  destruct (strconv.parseDigits _ 0); [|intros [= <-]; eauto].
  cbv zeta. destruct (_ && _); [intros [= <-]; eauto|].
  destruct (_ && _); [intros [= <-]; eauto|discriminate].
Qed.

Lemma stringToBool_error s err :
  stringToBool s = Err err -> err = IllegalBool s.
Proof.
  unfold stringToBool. repeat destruct (bool_decide _); congruence.
Qed.

Lemma existsb_choice value cs :
  existsb (fun choice => String.eqb choice value) cs = bool_decide (value ∈ cs).
Proof.
  induction cs as [|c cs IH]; [reflexivity|]. cbn [existsb]. rewrite IH.
  destruct (String.eqb_spec c value) as [->|Hne].
  - symmetry. apply bool_decide_eq_true. left.
  - cbn [orb]. apply bool_decide_ext. rewrite elem_of_cons. intuition congruence.
Qed.

Lemma has_choices (cs : list string) : Nat.ltb 0 (length cs) = bool_decide (cs <> []).
Proof. destruct cs; reflexivity. Qed.

End SetRejects.

(** C4.  set on a string field with choices rejects a value outside the
    choices with an InvalidChoice error; on an integer, floating-point or
    boolean field it rejects a string its parser rejects, with the parser's
    error; a failing set leaves the configuration as it was, and its error
    is of one of these two kinds; a succeeding set writes to the field,
    and to no other field, the value its parser read from the string: the
    string itself for a string field (one of the choices when the field
    has choices), the int of Atoi, the float of ParseFloat, the boolean of
    stringToBool; and set succeeds so whenever the parser reads the
    string. *)
Theorem C4_set {text : Float64Text}
    (cfg : driver.PprofConfig) (f : driver.configField) (value : string) :
  let i := driver.reflect.Index (driver.field f) in
  let kind := driver.reflect.TypeKind (driver.field f) in
  (kind = driver.reflect.String_ -> driver.choices f <> [] -> value ∉ driver.choices f ->
   driver.set cfg f value = (cfg, Some (InvalidChoice (driver.name f) value)))
  /\ (forall err : error,
        kind = driver.reflect.Int -> strconv.Atoi value = Err err ->
        driver.set cfg f value = (cfg, Some err) /\ isParseError err = true)
  /\ (forall kind' : numErr,
        kind = driver.reflect.Float64 -> ParseFloat value = Failed kind' ->
        driver.set cfg f value = (cfg, Some (NumError "ParseFloat" value kind')))
  /\ (forall err : error,
        kind = driver.reflect.Bool -> driver.stringToBool value = Err err ->
        driver.set cfg f value = (cfg, Some err) /\ isParseError err = true)
  /\ (forall (cfg' : driver.PprofConfig) (err : error),
        driver.set cfg f value = (cfg', Some err) ->
        cfg' = cfg
        /\ (if isInvalidChoice err
            then kind = driver.reflect.String_ /\ value ∉ driver.choices f
            else isParseError err = true /\ kind <> driver.reflect.String_))
  /\ (forall cfg' : driver.PprofConfig,
        driver.set cfg f value = (cfg', None) ->
        (forall j, j <> i -> driver.load j cfg' = driver.load j cfg)
        /\ driver.reflect.kindOf (driver.load i cfg') = kind
        /\ cfg' = driver.store i (driver.load i cfg') cfg
        /\ (kind = driver.reflect.String_ ->
            driver.load i cfg' = driver.VString value
            /\ (driver.choices f <> [] -> value ∈ driver.choices f))
        /\ (kind = driver.reflect.Int ->
            exists n : Z,
              strconv.Atoi value = Ok n /\ driver.load i cfg' = driver.VInt n)
        /\ (kind = driver.reflect.Float64 ->
            exists x : float,
              ParseFloat value = Parsed x /\ driver.load i cfg' = driver.VFloat64 x)
        /\ (kind = driver.reflect.Bool ->
            exists b : bool,
              driver.stringToBool value = Ok b /\ driver.load i cfg' = driver.VBool b))
  /\ (kind = driver.reflect.String_ ->
      driver.choices f = [] \/ value ∈ driver.choices f ->
      driver.set cfg f value = (driver.store i (driver.VString value) cfg, None))
  /\ (forall n : Z,
        kind = driver.reflect.Int -> strconv.Atoi value = Ok n ->
        driver.set cfg f value = (driver.store i (driver.VInt n) cfg, None))
  /\ (forall x : float,
        kind = driver.reflect.Float64 -> ParseFloat value = Parsed x ->
        driver.set cfg f value = (driver.store i (driver.VFloat64 x) cfg, None))
  /\ (forall b : bool,
        kind = driver.reflect.Bool -> driver.stringToBool value = Ok b ->
        driver.set cfg f value = (driver.store i (driver.VBool b) cfg, None)).
Proof.
  cbv zeta.
  pose proof (set_cases cfg f value) as Hc. cbv zeta in Hc.
  rewrite (TypeKind_load (driver.field f) cfg).
  rewrite existsb_choice, has_choices in Hc.
  destruct (driver.load (driver.reflect.Index (driver.field f)) cfg) eqn:Hload;
    cbn [driver.reflect.kindOf]; rewrite Hc; clear Hc;
    (split; [|split; [|split; [|split; [|split; [|split; [|split; [|split; [|split]]]]]]]]);
    try discriminate;
    try (intros ? Hk; discriminate Hk).
  - intros _ Hcs Hv. rewrite bool_decide_true, bool_decide_false by assumption.
    reflexivity.
  - intros cfg' err.
    destruct (bool_decide_reflect (driver.choices f <> []));
      destruct (bool_decide_reflect (value ∈ driver.choices f)); cbn [andb negb];
      intros [= <- <-]. cbn. auto.
  - intros cfg'.
    destruct (bool_decide (driver.choices f <> []) && negb (bool_decide (value ∈ driver.choices f)))
      eqn:Hguard; intros [= <-].
    split; [intros j Hj; apply load_store_other; congruence|].
    rewrite load_store_same by (rewrite Hload; reflexivity).
    split; [reflexivity|]. split; [reflexivity|].
    split; [|split; [|split]]; try (intros Hk; discriminate Hk).
    intros _. split; [reflexivity|]. intros Hcs.
    rewrite (bool_decide_true _ Hcs) in Hguard. cbn [andb] in Hguard.
    apply negb_false_iff in Hguard. apply bool_decide_eq_true in Hguard. exact Hguard.
  - intros _ [Hnil|Hin].
    + rewrite (bool_decide_false (driver.choices f <> [])) by (intros Hcs; apply Hcs; exact Hnil).
      reflexivity.
    + rewrite (bool_decide_true _ Hin). cbn [negb]. rewrite andb_false_r. reflexivity.
  - intros err _ Herr. rewrite Herr. split; [reflexivity|].
    apply Atoi_error in Herr as [k ->]. reflexivity.
  - intros cfg' err. destruct (strconv.Atoi value) as [v|e] eqn:Hp; intros [= <- <-].
    split; [reflexivity|]. apply Atoi_error in Hp as [k ->]. cbn. split; [reflexivity|discriminate].
  - intros cfg'. destruct (strconv.Atoi value) as [v|e]; intros [= <-].
    split; [intros j Hj; apply load_store_other; congruence|].
    rewrite load_store_same by (rewrite Hload; reflexivity).
    split; [reflexivity|]. split; [reflexivity|].
    split; [|split; [|split]]; try (intros Hk; discriminate Hk).
    intros _. exists v. split; reflexivity.
  - intros parsed _ Hp. rewrite Hp. reflexivity.
  - intros k _ Hp. rewrite Hp. reflexivity.
  - intros cfg' err. destruct (ParseFloat value) as [v|k]; intros [= <- <-].
    cbn. split; [reflexivity|]. split; [reflexivity|discriminate].
  - intros cfg'. destruct (ParseFloat value) as [v|k]; intros [= <-].
    split; [intros j Hj; apply load_store_other; congruence|].
    rewrite load_store_same by (rewrite Hload; reflexivity).
    split; [reflexivity|]. split; [reflexivity|].
    split; [|split; [|split]]; try (intros Hk; discriminate Hk).
    intros _. exists v. split; reflexivity.
  - intros parsed _ Hp. rewrite Hp. reflexivity.
  - intros err _ Herr. rewrite Herr. split; [reflexivity|].
    apply stringToBool_error in Herr as ->. reflexivity.
  - intros cfg' err. destruct (driver.stringToBool value) as [v|e] eqn:Hp; intros [= <- <-].
    split; [reflexivity|]. apply stringToBool_error in Hp as ->. cbn. split; [reflexivity|discriminate].
  - intros cfg'. destruct (driver.stringToBool value) as [v|e]; intros [= <-].
    split; [intros j Hj; apply load_store_other; congruence|].
    rewrite load_store_same by (rewrite Hload; reflexivity).
    split; [reflexivity|]. split; [reflexivity|].
    split; [|split; [|split]]; try (intros Hk; discriminate Hk).
    intros _. exists v. split; reflexivity.
  - intros parsed _ Hp. rewrite Hp. reflexivity.
Qed.

(** C4 at the sort order with a value outside cum and flat, and at the
    node count with a string that is no number and with the string 5. *)
Lemma C4_set_witness :
  driver.set (text := literalFloats) driver.DefaultConfig sortField "bogus"
  = (driver.DefaultConfig, Some (InvalidChoice "sort" "bogus"))
  /\ driver.set (text := literalFloats) driver.DefaultConfig nodecountField "abc"
     = (driver.DefaultConfig, Some (NumError "Atoi" "abc" ErrSyntax))
  /\ (exists n : Z,
        strconv.Atoi "5" = Ok n
        /\ driver.load driver.INodeCount
             (fst (driver.set (text := literalFloats) driver.DefaultConfig nodecountField "5"))
           = driver.VInt n).
Proof.
  split; [|split].
  3:{ destruct (C4_set (text := literalFloats) driver.DefaultConfig nodecountField "5")
        as (_ & _ & _ & _ & _ & Hok & _).
      destruct (Hok (driver.store driver.INodeCount (driver.VInt 5) driver.DefaultConfig) eq_refl)
        as (_ & _ & _ & _ & Hint & _).
      exact (Hint eq_refl). }
  - apply (proj1 (C4_set (text := literalFloats) driver.DefaultConfig sortField "bogus"));
      [reflexivity|discriminate|].
    intros Hmem. repeat (apply elem_of_cons in Hmem as [Hmem|Hmem]; [discriminate Hmem|]).
    inversion Hmem.
  - apply (proj1 (proj2 (C4_set (text := literalFloats) driver.DefaultConfig nodecountField "abc")));
      reflexivity.
Defined.


(** ** C5: configure by name *)

(** C5.  configure with the name of a registered field applies the value
    with set; with a name that is one of the choices of a registered field
    it sets the field to that name when the value parses as the boolean
    true, and fails with UnknownField otherwise (a value that parses as
    false, or does not parse); with a name that is neither it fails with
    UnknownField. *)
Theorem C5_configure {text : Float64Text}
    (name value : string) (currentCfg : driver.PprofConfig) :
  (forall f : driver.configField,
     f ∈ driver.configFields -> name = driver.name f ->
     driver.configure name value currentCfg = driver.set currentCfg f value)
  /\ (forall f : driver.configField,
        f ∈ driver.configFields -> name ∈ driver.choices f ->
        driver.configure name value currentCfg =
        match strconv.ParseBool value with
        | Ok true =>
            (driver.store (driver.reflect.Index (driver.field f)) (driver.VString name)
               currentCfg, None)
        | _ => (currentCfg, Some (UnknownField name))
        end)
  /\ ((forall f : driver.configField,
         f ∈ driver.configFields -> name <> driver.name f /\ name ∉ driver.choices f) ->
      driver.configure name value currentCfg = (currentCfg, Some (UnknownField name))).
Proof.
  split; [|split].
  - intros f Hin ->. unfold driver.configure.
    rewrite (configFieldMap_name f Hin), String.eqb_refl. reflexivity.
  - intros f Hin Hc. unfold driver.configure.
    destruct (configFieldMap_choice f name Hin Hc) as [-> Hne].
    destruct (String.eqb_spec (driver.name f) name) as [Heq|_]; [congruence|].
    destruct (strconv.ParseBool value) as [[|]|]; try reflexivity.
    pose proof (set_cases currentCfg f name) as Hset. cbv zeta in Hset.
    assert (Hkind : driver.reflect.TypeKind (driver.field f) = driver.reflect.String_).
    { apply choices_kind; [assumption|]. intros Hnil. rewrite Hnil in Hc. inversion Hc. }
    rewrite (TypeKind_load _ currentCfg) in Hkind.
    destruct (driver.load _ currentCfg); try discriminate Hkind.
    rewrite Hset, existsb_choice, (bool_decide_true _ Hc), andb_false_r. reflexivity.
  - intros Hnone. unfold driver.configure.
    destruct (driver.configFieldMap !! name) as [f|] eqn:Hlook; [|reflexivity].
    apply configFieldMap_lookup in Hlook as [Hin Hname].
    destruct (Hnone f Hin). tauto.
Qed.

(** C5 at cum, a choice of the sort order. *)
Lemma C5_configure_witness :
  (driver.configure (text := literalFloats) "cum" "true" driver.DefaultConfig,
   driver.configure (text := literalFloats) "cum" "false" driver.DefaultConfig,
   driver.configure (text := literalFloats) "cum" "maybe" driver.DefaultConfig)
  = ((driver.store driver.ISort (driver.VString "cum") driver.DefaultConfig, None),
     (driver.DefaultConfig, Some (UnknownField "cum")),
     (driver.DefaultConfig, Some (UnknownField "cum"))).
Proof.
  assert (Hc : "cum" ∈ driver.choices sortField) by left.
  pose proof (fun value =>
    proj1 (proj2 (C5_configure (text := literalFloats) "cum" value driver.DefaultConfig))
      sortField sortField_registered Hc) as Hw.
  rewrite (Hw "true"), (Hw "false"), (Hw "maybe"). reflexivity.
Defined.


(** ** C6: applyURL stops at the first field that fails *)

Section ApplyURLStops.

Import driver.
Context {text : Float64Text}.

(** The loop stops at the first field whose set fails, with the fields
    before it applied. *)
Lemma applyFields_stops pre f post cfg params cfg1 cfg1' err :
  applyFields pre cfg params = (cfg1, None) ->
  fromURL f = true -> url.Get params (urlparam f) <> "" ->
  set cfg1 f (url.Get params (urlparam f)) = (cfg1', Some err) ->
  applyFields (pre ++ f :: post)%list cfg params = (cfg1, Some (ErrorSetting (name f) err)).
Proof.
  intros Hpre Hact Hvalue Hset.
  rewrite applyFields_app, Hpre, applyFields_cons. cbv zeta. rewrite Hact.
  destruct (String.eqb_spec (url.Get params (urlparam f)) ""); [contradiction|].
  rewrite Hset. rewrite (set_error_unchanged _ _ _ _ _ Hset). reflexivity.
Qed.

(** Every error of the loop comes about in this way. *)
Lemma applyFields_error fields :
  forall cfg params cfg' e,
    applyFields fields cfg params = (cfg', Some e) ->
    exists pre f post err,
      fields = (pre ++ f :: post)%list
      /\ applyFields pre cfg params = (cfg', None)
      /\ fromURL f = true /\ url.Get params (urlparam f) <> ""
      /\ set cfg' f (url.Get params (urlparam f)) = (cfg', Some err)
      /\ e = ErrorSetting (name f) err.
Proof.
  induction fields as [|g rest IH]; intros cfg params cfg' e Happly.
  - discriminate Happly.
  - rewrite applyFields_cons in Happly. cbv zeta in Happly.
    destruct (String.eqb_spec (if fromURL g then url.Get params (urlparam g) else "") "")
      as [Hempty|Hvalue].
    + apply IH in Happly as (pre & f & post & err & -> & Hpre & Hrest).
      exists (g :: pre), f, post, err. split; [reflexivity|]. split; [|exact Hrest].
      rewrite applyFields_cons. cbv zeta. rewrite Hempty. exact Hpre.
    + destruct (set cfg g _) as [cfg1 [err|]] eqn:Hset.
      * injection Happly as <- <-.
        pose proof (set_error_unchanged _ _ _ _ _ Hset) as ->.
        destruct (fromURL g) eqn:Hact; [|contradiction].
        exists [], g, rest, err. auto 10.
      * apply IH in Happly as (pre & f & post & err' & -> & Hpre & Hrest).
        exists (g :: pre), f, post, err'. split; [reflexivity|]. split; [|exact Hrest].
        rewrite applyFields_cons. cbv zeta.
        destruct (String.eqb_spec (if fromURL g then url.Get params (urlparam g) else "") "");
          [contradiction|].
        rewrite Hset. exact Hpre.
Qed.

End ApplyURLStops.




(** ** C10: isBoolConfig *)

(** C10.  The choices of the registry are cum, flat, functions,
    filefunctions, files, lines and addresses; on each of them isBoolConfig
    returns true although the field it is a choice of is a string field.
    On the name of a registered field isBoolConfig returns true exactly
    when the field is boolean, and it returns false on a name that is
    neither the name of a field nor a choice. *)
Theorem C10_isBoolConfig {text : Float64Text} :
  flat_map driver.choices driver.configFields
    = [ "cum"; "flat"; "functions"; "filefunctions"; "files"; "lines"; "addresses" ]
  /\ (forall (f : driver.configField) (name : string),
        f ∈ driver.configFields -> name ∈ driver.choices f ->
        driver.isBoolConfig name = true
        /\ driver.reflect.TypeKind (driver.field f) = driver.reflect.String_)
  /\ (forall f : driver.configField,
        f ∈ driver.configFields ->
        driver.isBoolConfig (driver.name f)
        = bool_decide (driver.reflect.TypeKind (driver.field f) = driver.reflect.Bool))
  /\ (forall name : string,
        (forall f : driver.configField,
           f ∈ driver.configFields -> name <> driver.name f /\ name ∉ driver.choices f) ->
        driver.isBoolConfig name = false).
Proof.
  split; [apply configFields_choices|]. split; [|split].
  - intros f name Hin Hc. split.
    + unfold driver.isBoolConfig.
      destruct (configFieldMap_choice f name Hin Hc) as [-> Hne].
      destruct (String.eqb_spec name (driver.name f)); [contradiction|reflexivity].
    + apply choices_kind; [assumption|]. intros Hnil. rewrite Hnil in Hc. inversion Hc.
  - intros f Hin. unfold driver.isBoolConfig.
    rewrite (configFieldMap_name f Hin), String.eqb_refl. cbn [negb].
    unfold driver.fieldPtr, driver.addrOf, driver.reflect.TypeKind.
    destruct (driver.load _ driver.zeroConfig); reflexivity.
  - intros name Hnone. unfold driver.isBoolConfig.
    destruct (driver.configFieldMap !! name) as [f|] eqn:Hlook; [|reflexivity].
    apply configFieldMap_lookup in Hlook as [Hin Hname].
    destruct (Hnone f Hin). tauto.
Qed.

(** C10 at the choices of the registry and at some names. *)
Lemma C10_isBoolConfig_witness :
  map (driver.isBoolConfig (text := literalFloats))
      [ "cum"; "flat"; "functions"; "filefunctions"; "files"; "lines"; "addresses";
        "sort"; "granularity"; "trim"; "call_tree"; "nodecount"; "nodefraction"; "bogus" ]
  = [ true; true; true; true; true; true; true;
      false; false; true; true; false; false; false ]
  /\ driver.isBoolConfig (text := literalFloats) "cum" = true.
Proof.
  split; [vm_compute; reflexivity|].
  apply (proj1 (proj2 (C10_isBoolConfig (text := literalFloats))) sortField "cum").
  - apply sortField_registered.
  - left.
Defined.


(** ** C9: failures of the settings file *)

(** C9 as stated fails: when the file cannot be read for another reason
    than its absence (here a permission error), and when its contents do
    not parse, readSettings returns an error and no settings. *)
Lemma C9_counterexample :
  let denied := PathError "open" "settings.json" false in
  let malformed := JSONError "unexpected end of JSON input" in
  driver.readSettings (runtime := fixedRuntime (Err denied) (Err malformed))
    "settings.json" tt driver.DefaultConfig
  = Err (CouldNotRead denied)
  /\ driver.readSettings (runtime := fixedRuntime (Ok "{") (Err malformed))
       "settings.json" tt driver.DefaultConfig
     = Err (CouldNotParse malformed).
Proof. split; reflexivity. Qed.

(** C9, amended.  A settings file that does not exist is read as empty
    settings, without error.  Any other error of reading the file, and any
    error of parsing its contents, makes readSettings return an error and no
    settings.  configMenu treats a failed read as no settings: its menu is
    the one of the Default configuration alone.  editSettings returns the
    error of a failed read and writes nothing.  Every failure of
    writeSettings (encoding, creating the directory, writing the file) is
    returned as an error. *)
Theorem C9_settings_failures {text : Float64Text} {FS : Type} {runtime : driver.Runtime FS}
    (fname : string) (fs : FS) (currentCfg : driver.PprofConfig) :
  (forall err : error,
     driver.ReadFile fname fs = Err err -> driver.IsNotExist err = true ->
     driver.readSettings fname fs currentCfg = Ok {| driver.Configs := [] |})
  /\ (forall err : error,
        driver.ReadFile fname fs = Err err -> driver.IsNotExist err = false ->
        driver.readSettings fname fs currentCfg = Err (CouldNotRead err))
  /\ (forall (data : string) (err : error),
        driver.ReadFile fname fs = Ok data -> driver.Unmarshal data = Err err ->
        driver.readSettings fname fs currentCfg = Err (CouldNotParse err))
  /\ (forall (err : error) (u : url.URL),
        driver.readSettings fname fs currentCfg = Err err ->
        driver.configMenu fname u fs currentCfg
        = [ {| driver.EntryName := "Default";
               driver.URL := driver.URLString (fst (driver.makeURL driver.DefaultConfig u));
               driver.Current := negb (snd (driver.makeURL driver.DefaultConfig u));
               driver.UserConfig := false |} ])
  /\ (forall (err : error) (fn : driver.settings -> driver.settings * option error),
        driver.readSettings fname fs currentCfg = Err err ->
        driver.editSettings fname fn fs currentCfg = (fs, Some err))
  /\ (forall (settings : driver.settings) (fs' : FS),
        driver.writeSettings fname settings fs = (fs', None) ->
        exists (data : string) (fs1 : FS),
          driver.MarshalIndent settings = Ok data
          /\ driver.MkdirAll (driver.Dir fname) 448 fs = (fs1, None)
          /\ driver.WriteFile fname data 420 fs1 = (fs', None)).
Proof.
  split; [|split; [|split; [|split; [|split]]]].
  - intros err Hread Hne. unfold driver.readSettings. rewrite Hread, Hne. reflexivity.
  - intros err Hread Hne. unfold driver.readSettings. rewrite Hread, Hne. reflexivity.
  - intros data err Hread Hparse. unfold driver.readSettings.
    rewrite Hread, Hparse. reflexivity.
  - intros err u Hread. unfold driver.configMenu. rewrite Hread.
    unfold driver.menuEntries. cbn [fold_left driver.Config driver.Name].
    destruct (driver.makeURL driver.DefaultConfig u) as [dst changed].
    destruct changed; reflexivity.
  - intros err fn Hread. unfold driver.editSettings. rewrite Hread. reflexivity.
  - intros settings fs'. unfold driver.writeSettings.
    destruct (driver.MarshalIndent settings) as [data|e]; [|discriminate].
    destruct (driver.MkdirAll _ 448 fs) as [fs1 [e|]]; [discriminate|].
    destruct (driver.WriteFile fname data 420 fs1) as [fs2 [e|]] eqn:Hw; [discriminate|].
    intros [= <-]. eauto.
Qed.

(** C9 on a settings file that cannot be opened. *)
Lemma C9_settings_failures_witness :
  let denied := PathError "open" "settings.json" false in
  let runtime := fixedRuntime (Err denied) (Ok {| driver.Configs := [] |}) in
  driver.readSettings (runtime := runtime) "settings.json" tt driver.DefaultConfig
  = Err (CouldNotRead denied).
Proof.
  cbv zeta.
  apply (proj1 (proj2 (C9_settings_failures (text := literalFloats)
                         (runtime := fixedRuntime (Err (PathError "open" "settings.json" false))
                                       (Ok {| driver.Configs := [] |}))
                         "settings.json" tt driver.DefaultConfig)));
    reflexivity.
Defined.


(** * Further properties of the code *)

(** ** strconv: printing and reading back an int *)

Section AtoiItoa.

Import strconv.

Lemma digitChar_digit d :
  0 <= d < 10 -> isDigit (digitChar d) = true /\ digitVal (digitChar d) = d.
Proof.
  intros Hd.
  assert (Hcases : d = 0 \/ d = 1 \/ d = 2 \/ d = 3 \/ d = 4 \/ d = 5 \/ d = 6
                   \/ d = 7 \/ d = 8 \/ d = 9) by lia.
  repeat (destruct Hcases as [->|Hcases]; [split; reflexivity|]).
  subst d. split; reflexivity.
Qed.

Lemma digitChar_not_sign d :
  0 <= d < 10 ->
  forall rest, (match String (digitChar d) rest with
                | String "+" r => (false, r)
                | String "-" r => (true, r)
                | _ => (false, String (digitChar d) rest)
                end) = (false, String (digitChar d) rest).
Proof.
  intros Hd rest.
  assert (Hcases : d = 0 \/ d = 1 \/ d = 2 \/ d = 3 \/ d = 4 \/ d = 5 \/ d = 6
                   \/ d = 7 \/ d = 8 \/ d = 9) by lia.
  repeat (destruct Hcases as [->|Hcases]; [reflexivity|]).
  subst d. reflexivity.
Qed.

Lemma parseDigits_cons d rest k :
  0 <= d < 10 -> 0 <= k -> k * 10 + d <= maxUint64 ->
  parseDigits (String (digitChar d) rest) k = parseDigits rest (k * 10 + d).
Proof.
  intros Hd Hk Hmax. destruct (digitChar_digit d Hd) as [Hdig Hval].
  cbn [parseDigits]. rewrite Hdig, Hval. cbv zeta.
  change maxUint64 with 18446744073709551615 in *.
  change (18446744073709551615 / 10 + 1) with 1844674407370955162.
  change (2 ^ 64) with 18446744073709551616.
  destruct (Z.leb_spec 1844674407370955162 k); [lia|].
  rewrite (Z.mod_small (k * 10)) by lia.
  rewrite (Z.mod_small (k * 10 + d)) by lia.
  destruct (Z.ltb_spec (k * 10 + d) (k * 10)); [lia|].
  destruct (Z.ltb_spec 18446744073709551615 (k * 10 + d)); [lia|].
  reflexivity.
Qed.

(** The digits formatDigits writes in front of acc read back as the
    number, as long as it is a uint64. *)
Lemma parseDigits_formatDigits fuel :
  forall n acc,
    0 <= n < 10 ^ Z.of_nat fuel ->
    exists len, 0 <= len /\
      forall k, 0 <= k -> k * 10 ^ len + n <= maxUint64 ->
                parseDigits (formatDigits fuel n acc) k
                = parseDigits acc (k * 10 ^ len + n).
Proof.
  induction fuel as [|fuel IH]; intros n acc Hn.
  - exists 0. split; [lia|]. intros k _ _.
    change (10 ^ Z.of_nat 0) with 1 in Hn. cbn [formatDigits].
    f_equal. change (10 ^ 0) with 1. lia.
  - cbn [formatDigits]. destruct (Z.ltb_spec n 10) as [Hsmall|Hbig].
    + exists 1. split; [lia|]. intros k Hk Hmax.
      change (10 ^ 1) with 10 in *.
      rewrite Z.mod_small by lia.
      rewrite parseDigits_cons by lia. reflexivity.
    + destruct (IH (n / 10) (String (digitChar (n mod 10)) acc)) as (len & Hlen & Hparse).
      { split; [apply Z.div_pos; lia|].
        apply Z.div_lt_upper_bound; [lia|].
        replace (Z.of_nat (S fuel)) with (Z.of_nat fuel + 1) in Hn by lia.
        rewrite Z.pow_add_r in Hn by lia. lia. }
      exists (len + 1). split; [lia|]. intros k Hk Hmax.
      rewrite Z.pow_add_r in * by lia. change (10 ^ 1) with 10 in *.
      pose proof (Z.div_mod n 10 ltac:(lia)) as Hdm.
      pose proof (Z.mod_pos_bound n 10 ltac:(lia)) as Hmod.
      assert (Hpow : 0 <= k * 10 ^ len)
        by (apply Z.mul_nonneg_nonneg; [lia|apply Z.pow_nonneg; lia]).
      rewrite Hparse by lia.
      rewrite parseDigits_cons by lia.
      f_equal. lia.
Qed.

Lemma formatDigits_head fuel n acc :
  0 <= n ->
  exists d rest, 0 <= d < 10 /\ formatDigits (S fuel) n acc = String (digitChar d) rest.
Proof.
  revert n acc. induction fuel as [|fuel IH]; intros n acc Hn.
  - cbn [formatDigits]. exists (n mod 10), acc.
    split; [apply Z.mod_pos_bound; lia|]. destruct (n <? 10); reflexivity.
  - change (formatDigits (S (S fuel)) n acc)
      with (if n <? 10 then String (digitChar (n mod 10)) acc
            else formatDigits (S fuel) (n / 10) (String (digitChar (n mod 10)) acc)).
    destruct (n <? 10).
    + exists (n mod 10), acc. split; [apply Z.mod_pos_bound; lia|reflexivity].
    + apply IH. apply Z.div_pos; lia.
Qed.

Lemma fuel_enough n :
  0 <= n -> n < 10 ^ Z.of_nat (Z.to_nat (Z.log2 n) + 1).
Proof.
  intros Hn.
  replace (Z.of_nat (Z.to_nat (Z.log2 n) + 1)) with (Z.log2 n + 1)
    by (pose proof (Z.log2_nonneg n); lia).
  destruct (Z.eq_dec n 0) as [->|Hpos]; [reflexivity|].
  pose proof (Z.log2_spec n ltac:(lia)) as [_ Hup].
  eapply Z.lt_le_trans; [exact Hup|].
  replace (Z.succ (Z.log2 n)) with (Z.log2 n + 1) by lia.
  apply Z.pow_le_mono_l. lia.
Qed.

Lemma parseDigits_Itoa_digits n :
  0 <= n <= maxUint64 ->
  parseDigits (formatDigits (Z.to_nat (Z.log2 n) + 1) n "") 0 = inl n.
Proof.
  intros Hn.
  destruct (parseDigits_formatDigits (Z.to_nat (Z.log2 n) + 1) n "")
    as (len & _ & Hparse); [split; [lia|apply fuel_enough; lia]|].
  rewrite Hparse by lia. reflexivity.
Qed.

(** strconv.Atoi reads back what strconv.Itoa prints for an int. *)
Lemma Atoi_Itoa n :
  minInt <= n <= maxInt -> Atoi (Itoa n) = Ok n.
Proof.
  intros Hrange. unfold Itoa.
  change minInt with (-9223372036854775808) in Hrange.
  change maxInt with 9223372036854775807 in Hrange.
  destruct (Z.ltb_spec n 0) as [Hneg|Hpos].
  - unfold Atoi. cbv iota beta.
    replace (Z.to_nat (Z.log2 (- n)) + 1)%nat with (S (Z.to_nat (Z.log2 (- n)))) by lia.
    destruct (formatDigits_head (Z.to_nat (Z.log2 (- n))) (- n) "" ltac:(lia))
      as (d & rest & Hd & Hhead).
    assert (Hparse : parseDigits (formatDigits (Z.to_nat (Z.log2 (- n)) + 1) (- n) "") 0
                     = inl (- n)).
    { apply parseDigits_Itoa_digits. change maxUint64 with 18446744073709551615. lia. }
    replace (Z.to_nat (Z.log2 (- n)) + 1)%nat with (S (Z.to_nat (Z.log2 (- n)))) in Hparse by lia.
    rewrite Hhead in *. rewrite Hparse. cbv zeta.
    change (2 ^ (intSize - 1)) with 9223372036854775808. cbn [negb andb].
    destruct (Z.ltb_spec 9223372036854775808 (- n)); [lia|].
    f_equal. lia.
  - unfold Atoi.
    replace (Z.to_nat (Z.log2 n) + 1)%nat with (S (Z.to_nat (Z.log2 n))) by lia.
    destruct (formatDigits_head (Z.to_nat (Z.log2 n)) n "" ltac:(lia))
      as (d & rest & Hd & Hhead).
    assert (Hparse : parseDigits (formatDigits (Z.to_nat (Z.log2 n) + 1) n "") 0 = inl n).
    { apply parseDigits_Itoa_digits. change maxUint64 with 18446744073709551615. lia. }
    replace (Z.to_nat (Z.log2 n) + 1)%nat with (S (Z.to_nat (Z.log2 n))) in Hparse by lia.
    rewrite Hhead in *. rewrite digitChar_not_sign by assumption. rewrite Hparse. cbv zeta.
    change (2 ^ (intSize - 1)) with 9223372036854775808. cbn [negb andb].
    destruct (Z.leb_spec 9223372036854775808 n); [lia|].
    reflexivity.
Qed.

End AtoiItoa.


(** ** Fields of a configuration: stores composed *)

Section Stores.

Import driver.

(** Two configurations that hold the same in every field are the same. *)
Lemma load_ext c1 c2 : (forall i, load i c1 = load i c2) -> c1 = c2.
Proof.
  intros H. destruct c1, c2.
  generalize (H IOutput) (H ICallTree) (H IRelativePercentages) (H IUnit)
    (H ICompactLabels) (H ISourcePath) (H ITrimPath) (H IIntelSyntax) (H IMean)
    (H ISampleIndex) (H IDivideBy) (H INormalize) (H ISort) (H IDropNegative)
    (H INodeCount) (H INodeFraction) (H IEdgeFraction) (H ITrim) (H IFocus)
    (H IIgnore) (H IPruneFrom) (H IHide) (H IShow) (H IShowFrom) (H ITagFocus)
    (H ITagIgnore) (H ITagShow) (H ITagHide) (H INoInlines) (H IGranularity).
  cbn [load Output CallTree RelativePercentages Unit CompactLabels SourcePath
       TrimPath IntelSyntax Mean SampleIndex DivideBy Normalize Sort
       DropNegative NodeCount NodeFraction EdgeFraction Trim Focus Ignore
       PruneFrom Hide Show ShowFrom TagFocus TagIgnore TagShow TagHide
       NoInlines Granularity].
  intros.
  repeat match goal with
         | H : VString _ = VString _ |- _ => injection H as ->
         | H : VBool _ = VBool _ |- _ => injection H as ->
         | H : VInt _ = VInt _ |- _ => injection H as ->
         | H : VFloat64 _ = VFloat64 _ |- _ => injection H as ->
         end.
  reflexivity.
Qed.

Lemma load_store k i v cfg :
  load k (store i v cfg) =
  if decide (k = i) then
    if decide (reflect.kindOf v = reflect.kindOf (load i cfg)) then v else load i cfg
  else load k cfg.
Proof.
  destruct (decide (k = i)) as [->|Hne].
  - destruct (decide _) as [Hk|Hk].
    + apply load_store_same. assumption.
    + rewrite store_wrong_kind by assumption. reflexivity.
  - apply load_store_other. congruence.
Qed.

Lemma kindOf_load_store i j v cfg :
  reflect.kindOf (load i (store j v cfg)) = reflect.kindOf (load i cfg).
Proof. rewrite (kindOf_load i (store j v cfg)), (kindOf_load i cfg). reflexivity. Qed.

(** The last store to a field is the one that stays. *)
Lemma store_store i v w cfg :
  reflect.kindOf v = reflect.kindOf (load i cfg) ->
  store i v (store i w cfg) = store i v cfg.
Proof.
  intros Hk. apply load_ext. intros k. destruct (decide (k = i)) as [->|Hne].
  - rewrite !load_store_same; [reflexivity|assumption|].
    rewrite kindOf_load_store. assumption.
  - rewrite !load_store_other by congruence. reflexivity.
Qed.

(** Stores to two fields can be made in either order. *)
Lemma store_comm i j v w cfg :
  i <> j -> store i v (store j w cfg) = store j w (store i v cfg).
Proof.
  intros Hne.
  destruct (decide (reflect.kindOf v = reflect.kindOf (load i cfg))) as [Hv|Hv].
  2:{ rewrite (store_wrong_kind i v cfg) by assumption.
      apply store_wrong_kind. rewrite kindOf_load_store. assumption. }
  destruct (decide (reflect.kindOf w = reflect.kindOf (load j cfg))) as [Hw|Hw].
  2:{ rewrite (store_wrong_kind j w cfg) by assumption.
      symmetry. apply store_wrong_kind. rewrite kindOf_load_store. assumption. }
  apply load_ext. intros k.
  destruct (decide (k = i)) as [->|Hi]; [|destruct (decide (k = j)) as [->|Hj]].
  - rewrite load_store_same by (rewrite kindOf_load_store; assumption).
    rewrite load_store_other by congruence.
    rewrite load_store_same by assumption. reflexivity.
  - rewrite load_store_other by congruence.
    rewrite !load_store_same; [reflexivity| |assumption].
    rewrite kindOf_load_store. assumption.
  - rewrite !load_store_other by congruence. reflexivity.
Qed.

End Stores.

(** ** The accessor: what a successful set stores *)

Section SetOutcome.

Import driver.
Context {text : Float64Text}.

(** The outcome of set depends on the field and on the string, not on the
    configuration: a success stores one and the same value of the kind of
    the field in any configuration, a failure is the same failure. *)
Lemma set_success_any cfg f value cfg' :
  set cfg f value = (cfg', None) ->
  exists v,
    reflect.kindOf v = reflect.TypeKind (field f)
    /\ (reflect.TypeKind (field f) = reflect.String_ -> v = VString value)
    /\ forall cfg0, set cfg0 f value = (store (reflect.Index (field f)) v cfg0, None).
Proof.
  intros Hset.
  pose proof (set_cases cfg f value) as Hc. cbv zeta in Hc.
  assert (Hany : forall cfg0,
            reflect.kindOf (load (reflect.Index (field f)) cfg0)
            = reflect.kindOf (load (reflect.Index (field f)) cfg))
    by (intros cfg0; rewrite (kindOf_load _ cfg0), (kindOf_load _ cfg); reflexivity).
  unfold reflect.TypeKind. rewrite <- (kindOf_load _ cfg).
  destruct (load (reflect.Index (field f)) cfg) eqn:Hload; rewrite Hc in Hset; clear Hc.
  - destruct (_ && _) eqn:Hchoice; [discriminate|]. exists (VString value).
    split; [reflexivity|]. split; [reflexivity|]. intros cfg0.
    pose proof (set_cases cfg0 f value) as Hc0. cbv zeta in Hc0.
    specialize (Hany cfg0).
    destruct (load (reflect.Index (field f)) cfg0); try discriminate Hany.
    rewrite Hc0, Hchoice. reflexivity.
  - destruct (strconv.Atoi value) as [parsed|] eqn:Hp; [|discriminate]. exists (VInt parsed).
    split; [reflexivity|]. split; [discriminate|]. intros cfg0.
    pose proof (set_cases cfg0 f value) as Hc0. cbv zeta in Hc0.
    specialize (Hany cfg0).
    destruct (load (reflect.Index (field f)) cfg0); try discriminate Hany.
    rewrite Hc0, Hp. reflexivity.
  - destruct (ParseFloat value) as [parsed|] eqn:Hp; [|discriminate]. exists (VFloat64 parsed).
    split; [reflexivity|]. split; [discriminate|]. intros cfg0.
    pose proof (set_cases cfg0 f value) as Hc0. cbv zeta in Hc0.
    specialize (Hany cfg0).
    destruct (load (reflect.Index (field f)) cfg0); try discriminate Hany.
    rewrite Hc0, Hp. reflexivity.
  - destruct (stringToBool value) as [parsed|] eqn:Hp; [|discriminate]. exists (VBool parsed).
    split; [reflexivity|]. split; [discriminate|]. intros cfg0.
    pose proof (set_cases cfg0 f value) as Hc0. cbv zeta in Hc0.
    specialize (Hany cfg0).
    destruct (load (reflect.Index (field f)) cfg0); try discriminate Hany.
    rewrite Hc0, Hp. reflexivity.
Qed.

Lemma set_failure_any cfg f value cfg' err :
  set cfg f value = (cfg', Some err) ->
  forall cfg0, set cfg0 f value = (cfg0, Some err).
Proof.
  intros Hset cfg0.
  pose proof (set_cases cfg f value) as Hc. cbv zeta in Hc.
  pose proof (set_cases cfg0 f value) as Hc0. cbv zeta in Hc0.
  assert (Hany : reflect.kindOf (load (reflect.Index (field f)) cfg0)
                 = reflect.kindOf (load (reflect.Index (field f)) cfg))
    by (rewrite (kindOf_load _ cfg0), (kindOf_load _ cfg); reflexivity).
  destruct (load (reflect.Index (field f)) cfg);
    destruct (load (reflect.Index (field f)) cfg0); try discriminate Hany;
    rewrite Hc in Hset; rewrite Hc0; clear Hc Hc0.
  - destruct (_ && _); [congruence|discriminate].
  - destruct (strconv.Atoi value); [discriminate|congruence].
  - destruct (ParseFloat value); [discriminate|congruence].
  - destruct (stringToBool value); [discriminate|congruence].
Qed.

Lemma kind_of_field f cfg :
  reflect.kindOf (load (reflect.Index (field f)) cfg) = reflect.TypeKind (field f).
Proof. symmetry. apply TypeKind_load. Qed.

End SetOutcome.


(** ** X1 to X3: get and set composed *)

(** X1.  Setting a field to what get prints for it succeeds and leaves the
    configuration as it is: for a string field without choices, or whose
    content is one of its choices; for an integer field, whose content is
    an int; for a boolean field; and for a floating-point field whenever
    ParseFloat reads back what Sprint printed. *)
Theorem X1_set_get {text : Float64Text} (cfg : driver.PprofConfig) (f : driver.configField) :
  match driver.load (driver.reflect.Index (driver.field f)) cfg with
  | driver.VString s =>
      driver.choices f = [] \/ s ∈ driver.choices f ->
      driver.set cfg f (driver.get cfg f) = (cfg, None)
  | driver.VInt n =>
      strconv.minInt <= n <= strconv.maxInt ->
      driver.set cfg f (driver.get cfg f) = (cfg, None)
  | driver.VFloat64 x =>
      ParseFloat (SprintFloat64 x) = Parsed x ->
      driver.set cfg f (driver.get cfg f) = (cfg, None)
  | driver.VBool _ => driver.set cfg f (driver.get cfg f) = (cfg, None)
  end.
Proof.
  pose proof (set_cases cfg f (driver.get cfg f)) as Hc. cbv zeta in Hc.
  pose proof (store_load (driver.reflect.Index (driver.field f)) cfg) as Hid.
  rewrite get_load in Hc.
  destruct (driver.load (driver.reflect.Index (driver.field f)) cfg) as [s|n|x|b] eqn:Hload;
    rewrite get_load, Hload, Hc; clear Hc.
  - intros Hs. rewrite existsb_choice, has_choices.
    destruct Hs as [Hnil|Hin].
    + rewrite (bool_decide_false (driver.choices f <> [])) by (intros H; contradiction).
      rewrite Hid. reflexivity.
    + rewrite (bool_decide_true _ Hin), andb_false_r, Hid. reflexivity.
  - intros Hn. unfold fmt.SprintInt. rewrite Atoi_Itoa by assumption.
    rewrite Hid. reflexivity.
  - intros Hx. rewrite Hx, Hid. reflexivity.
  - destruct b.
    + change (driver.stringToBool (fmt.SprintBool true)) with (@Ok bool true).
      cbv beta iota. rewrite Hid. reflexivity.
    + change (driver.stringToBool (fmt.SprintBool false)) with (@Ok bool false).
      cbv beta iota. rewrite Hid. reflexivity.
Qed.

(** X1 at the node count of the default configuration. *)
Lemma X1_set_get_witness :
  driver.set (text := literalFloats) driver.DefaultConfig nodecountField
    (driver.get (text := literalFloats) driver.DefaultConfig nodecountField)
  = (driver.DefaultConfig, None).
Proof.
  pose proof (X1_set_get (text := literalFloats) driver.DefaultConfig nodecountField) as Hw.
  cbn in Hw. apply Hw. vm_compute. split; discriminate.
Defined.

(** X2.  After a successful set of a string field get returns the string
    that was set; and for a field of any kind, setting the same string
    once more succeeds and changes nothing. *)
Theorem X2_set_then_get {text : Float64Text}
    (cfg cfg' : driver.PprofConfig) (f : driver.configField) (value : string) :
  driver.set cfg f value = (cfg', None) ->
  (driver.reflect.TypeKind (driver.field f) = driver.reflect.String_ ->
   driver.get cfg' f = value)
  /\ driver.set cfg' f value = (cfg', None).
Proof.
  intros Hset.
  destruct (set_success_any cfg f value cfg' Hset) as (v & Hkind & Hstring & Hany).
  rewrite Hany in Hset. injection Hset as <-.
  assert (Hk : driver.reflect.kindOf v
               = driver.reflect.kindOf (driver.load (driver.reflect.Index (driver.field f)) cfg))
    by (rewrite kind_of_field; assumption).
  split.
  - intros Hs. rewrite get_load, load_store_same by assumption.
    rewrite (Hstring Hs). reflexivity.
  - rewrite Hany, store_store by assumption. reflexivity.
Qed.

(** X2 at the sort order, set to cum. *)
Lemma X2_set_then_get_witness :
  let cfg := driver.store driver.ISort (driver.VString "cum") driver.DefaultConfig in
  driver.get (text := literalFloats) cfg sortField = "cum"
  /\ driver.set (text := literalFloats) cfg sortField "cum" = (cfg, None).
Proof.
  cbv zeta.
  pose proof (X2_set_then_get (text := literalFloats) driver.DefaultConfig
                (driver.store driver.ISort (driver.VString "cum") driver.DefaultConfig)
                sortField "cum" eq_refl) as [Hget Hagain].
  split; [apply Hget; reflexivity|exact Hagain].
Defined.

(** X3.  Sets compose.  After a successful set of a field, a second set of
    the same field gives what it gives alone: on success the configuration
    it alone would give (the last set wins), on failure its error, with the
    first value kept.  Successful sets of two different fields can be made
    in either order. *)
Theorem X3_sets_compose {text : Float64Text}
    (cfg cfg1 : driver.PprofConfig) (f : driver.configField) (v1 : string) :
  driver.set cfg f v1 = (cfg1, None) ->
  (forall (v2 : string) (cfg2 : driver.PprofConfig),
     driver.set cfg f v2 = (cfg2, None) -> driver.set cfg1 f v2 = (cfg2, None))
  /\ (forall (v2 : string) (cfg2 : driver.PprofConfig) (err : error),
        driver.set cfg f v2 = (cfg2, Some err) -> driver.set cfg1 f v2 = (cfg1, Some err))
  /\ (forall (g : driver.configField) (w : string) (cfg2 : driver.PprofConfig),
        driver.reflect.Index (driver.field g) <> driver.reflect.Index (driver.field f) ->
        driver.set cfg g w = (cfg2, None) ->
        exists cfg3 : driver.PprofConfig,
          driver.set cfg1 g w = (cfg3, None) /\ driver.set cfg2 f v1 = (cfg3, None)).
Proof.
  intros Hset.
  destruct (set_success_any cfg f v1 cfg1 Hset) as (x1 & Hk1 & _ & Hany1).
  rewrite Hany1 in Hset. injection Hset as <-.
  split; [|split].
  - intros v2 cfg2 Hset2.
    destruct (set_success_any cfg f v2 cfg2 Hset2) as (x2 & Hk2 & _ & Hany2).
    rewrite Hany2 in Hset2. injection Hset2 as <-.
    rewrite Hany2, store_store; [reflexivity|].
    rewrite kind_of_field. assumption.
  - intros v2 cfg2 err Hset2. apply (set_failure_any cfg f v2 cfg2 err Hset2).
  - intros g w cfg2 Hne Hsetg.
    destruct (set_success_any cfg g w cfg2 Hsetg) as (y & Hky & _ & Hanyg).
    rewrite Hanyg in Hsetg. injection Hsetg as <-.
    eexists. split; [apply Hanyg|].
    rewrite Hany1. f_equal. apply store_comm. congruence.
Qed.

(** X3 at the sort order and the node count. *)
Lemma X3_sets_compose_witness :
  let cum := driver.store driver.ISort (driver.VString "cum") driver.DefaultConfig in
  driver.set (text := literalFloats) cum sortField "flat" = (driver.DefaultConfig, None)
  /\ driver.set (text := literalFloats) cum sortField "bogus"
     = (cum, Some (InvalidChoice "sort" "bogus"))
  /\ exists cfg3 : driver.PprofConfig,
       driver.set (text := literalFloats) cum nodecountField "7" = (cfg3, None)
       /\ driver.set (text := literalFloats)
            (driver.store driver.INodeCount (driver.VInt 7) driver.DefaultConfig)
            sortField "cum" = (cfg3, None).
Proof.
  cbv zeta.
  pose proof (X3_sets_compose (text := literalFloats) driver.DefaultConfig
                (driver.store driver.ISort (driver.VString "cum") driver.DefaultConfig)
                sortField "cum" eq_refl) as (Hlast & Hfail & Hcomm).
  split; [apply (Hlast "flat"); reflexivity|].
  split; [apply (Hfail "bogus" driver.DefaultConfig); reflexivity|].
  apply (Hcomm nodecountField "7"); [discriminate|reflexivity].
Defined.


(** ** X4: fields with choices hold one of their choices *)

Section Choices.

Import driver.
Context {text : Float64Text}.

Lemma choicesOK_DefaultConfig : choicesOK DefaultConfig.
Proof.
  intros f Hin. each_field Hin;
    first [ intros Hc; exfalso; apply Hc; reflexivity
          | intros _; apply list_elem_of_In; vm_compute; tauto ].
Qed.

Lemma set_choicesOK cfg f value cfg' r :
  f ∈ configFields -> choicesOK cfg -> set cfg f value = (cfg', r) -> choicesOK cfg'.
Proof.
  intros Hin Hok Hset g Hg Hchoices.
  destruct (decide (reflect.Index (field g) = reflect.Index (field f))) as [Hsame|Hother].
  - assert (g = f) as -> by (apply configFields_index_inj; assumption).
    destruct r as [err|].
    + rewrite (set_error_unchanged _ _ _ _ _ Hset). apply Hok; assumption.
    + pose proof (TypeKind_load (field f) cfg) as Hkind.
      rewrite (choices_kind f Hin Hchoices) in Hkind.
      pose proof (set_cases cfg f value) as Hc. cbv zeta in Hc.
      destruct (load (reflect.Index (field f)) cfg) eqn:Hload; try discriminate Hkind.
      rewrite Hc, existsb_choice in Hset.
      destruct (bool_decide_reflect (value ∈ choices f)) as [Hmem|Hmem].
      * rewrite andb_false_r in Hset. injection Hset as <-.
        rewrite get_load, load_store_same by (rewrite Hload; reflexivity). assumption.
      * rewrite has_choices, (bool_decide_true _ Hchoices) in Hset. discriminate Hset.
  - rewrite (get_same_load cfg cfg' g); [apply Hok; assumption|].
    eapply set_other; eassumption.
Qed.

Lemma applyFields_choicesOK fields :
  forall cfg params cfg' r,
    (forall f, f ∈ fields -> f ∈ configFields) ->
    choicesOK cfg -> applyFields fields cfg params = (cfg', r) -> choicesOK cfg'.
Proof.
  induction fields as [|f rest IH]; intros cfg params cfg' r Hsub Hok Happly.
  - injection Happly as <- _. assumption.
  - rewrite applyFields_cons in Happly. cbv zeta in Happly.
    assert (Hrest : forall g, g ∈ rest -> g ∈ configFields)
      by (intros g Hg; apply Hsub; right; assumption).
    destruct (String.eqb _ ""); [eauto|].
    destruct (set cfg f _) as [cfg1 [err|]] eqn:Hset.
    + injection Happly as <- _. eapply set_choicesOK; [apply Hsub; left|eassumption..].
    + eapply IH; [exact Hrest| |exact Happly].
      eapply set_choicesOK; [apply Hsub; left|eassumption..].
Qed.

End Choices.

(** X4.  In the default configuration every field with choices holds one
    of its choices, and set on a registered field, configure and applyURL
    keep it so, whether they succeed or fail. *)
Theorem X4_choices_kept {text : Float64Text} :
  choicesOK driver.DefaultConfig
  /\ (forall (cfg cfg' : driver.PprofConfig) (f : driver.configField) (value : string)
             (r : option error),
        f ∈ driver.configFields -> choicesOK cfg ->
        driver.set cfg f value = (cfg', r) -> choicesOK cfg')
  /\ (forall (cfg cfg' : driver.PprofConfig) (name value : string) (r : option error),
        choicesOK cfg -> driver.configure name value cfg = (cfg', r) -> choicesOK cfg')
  /\ (forall (cfg cfg' : driver.PprofConfig) (params : url.Values) (r : option error),
        choicesOK cfg -> driver.applyURL cfg params = (cfg', r) -> choicesOK cfg').
Proof.
  split; [apply choicesOK_DefaultConfig|]. split; [|split].
  - intros cfg cfg' f value r. apply set_choicesOK.
  - intros cfg cfg' name value r Hok. unfold driver.configure.
    destruct (driver.configFieldMap !! name) as [f|] eqn:Hlook;
      [|intros [= <- _]; assumption].
    apply configFieldMap_lookup in Hlook as [Hin _].
    destruct (String.eqb (driver.name f) name); [apply set_choicesOK; assumption|].
    destruct (strconv.ParseBool value) as [[|]|];
      [apply set_choicesOK; assumption|intros [= <- _]; assumption..].
  - intros cfg cfg' params r Hok Happly. rewrite applyURL_eq in Happly.
    eapply applyFields_choicesOK; [|exact Hok|exact Happly]. auto.
Qed.

(** X4 at the configuration that configure gives for cum. *)
Lemma X4_choices_kept_witness :
  choicesOK (text := literalFloats)
    (driver.store driver.ISort (driver.VString "cum") driver.DefaultConfig).
Proof.
  apply (proj1 (proj2 (proj2 (X4_choices_kept (text := literalFloats))))
           driver.DefaultConfig _ "cum" "true" None).
  - apply (proj1 (X4_choices_kept (text := literalFloats))).
  - vm_compute. reflexivity.
Defined.


(** ** X5 and X6: the names configure knows *)

Section Names.

Import driver.
Context {text : Float64Text}.

Lemma isConfigurable_true name :
  isConfigurable name = true <->
  exists f, f ∈ configFields /\ (name = driver.name f \/ name ∈ choices f).
Proof.
  unfold isConfigurable. split.
  - destruct (configFieldMap !! name) as [f|] eqn:Hlook; [|discriminate].
    intros _. exists f. apply configFieldMap_lookup. assumption.
  - intros (f & Hf). apply configFieldMap_lookup in Hf. rewrite Hf. reflexivity.
Qed.

Lemma elem_of_completeConfig name prefix :
  name ∈ completeConfig prefix <->
  isConfigurable name = true /\ gostrings.HasPrefix name prefix = true.
Proof.
  unfold completeConfig. rewrite list_elem_of_In, filter_In, <- list_elem_of_In.
  rewrite list_elem_of_fmap. unfold isConfigurable. split.
  - intros [([key f] & -> & Hin) Hp]. apply elem_of_map_to_list in Hin.
    cbn [fst]. rewrite Hin. auto.
  - intros [Hc Hp]. split; [|assumption].
    destruct (configFieldMap !! name) as [f|] eqn:Hlook; [|discriminate].
    exists (name, f). split; [reflexivity|]. apply elem_of_map_to_list. assumption.
Qed.

Lemma NoDup_completeConfig prefix : NoDup (completeConfig prefix).
Proof.
  unfold completeConfig. apply NoDup_ListNoDup, List.NoDup_filter, NoDup_ListNoDup.
  apply NoDup_fst_map_to_list.
Qed.

End Names.

(** X5.  A failing configure leaves the current configuration as it was,
    and on a name that is not configurable its error is UnknownField.  A
    succeeding configure was given the name or a choice of a registered
    field, and it has written to no other field than that one. *)
Theorem X5_configure_outcome {text : Float64Text}
    (name value : string) (currentCfg cfg' : driver.PprofConfig) (r : option error) :
  driver.configure name value currentCfg = (cfg', r) ->
  match r with
  | Some err =>
      cfg' = currentCfg
      /\ (driver.isConfigurable name = false -> err = UnknownField name)
  | None =>
      driver.isConfigurable name = true
      /\ exists f : driver.configField,
           f ∈ driver.configFields
           /\ (name = driver.name f \/ name ∈ driver.choices f)
           /\ forall j : driver.fieldIndex,
                j <> driver.reflect.Index (driver.field f) ->
                driver.load j cfg' = driver.load j currentCfg
  end.
Proof.
  unfold driver.configure, driver.isConfigurable.
  destruct (driver.configFieldMap !! name) as [f|] eqn:Hlook.
  - pose proof Hlook as Hf. apply configFieldMap_lookup in Hf as [Hin Hname].
    assert (Hset : forall v, driver.set currentCfg f v = (cfg', r) ->
              match r with
              | Some err => cfg' = currentCfg /\ (true = false -> err = UnknownField name)
              | None =>
                  true = true
                  /\ exists g : driver.configField,
                       g ∈ driver.configFields
                       /\ (name = driver.name g \/ name ∈ driver.choices g)
                       /\ forall j : driver.fieldIndex,
                            j <> driver.reflect.Index (driver.field g) ->
                            driver.load j cfg' = driver.load j currentCfg
              end).
    { intros v Hs. destruct r as [err|].
      - split; [eapply set_error_unchanged; eassumption|discriminate].
      - split; [reflexivity|]. exists f. split; [assumption|]. split; [assumption|].
        intros j Hj. eapply set_other; eassumption. }
    destruct (String.eqb (driver.name f) name); [apply Hset|].
    destruct (strconv.ParseBool value) as [[|]|]; [apply Hset| |];
      intros [= <- <-]; (split; [reflexivity|discriminate]).
  - intros [= <- <-]. split; reflexivity.
Qed.

(** X5 at a name that is not configurable, and at a choice. *)
Lemma X5_configure_outcome_witness :
  (driver.isConfigurable (text := literalFloats) "bogus" = false ->
   UnknownField "bogus" = UnknownField "bogus")
  /\ driver.isConfigurable (text := literalFloats) "cum" = true.
Proof.
  split.
  - exact (proj2 (X5_configure_outcome (text := literalFloats) "bogus" "1"
                    driver.DefaultConfig driver.DefaultConfig
                    (Some (UnknownField "bogus")) eq_refl)).
  - exact (proj1 (X5_configure_outcome (text := literalFloats) "cum" "true"
                    driver.DefaultConfig
                    (driver.store driver.ISort (driver.VString "cum") driver.DefaultConfig)
                    None eq_refl)).
Defined.

(** X6.  A name is configurable exactly when it is the name or a choice of
    a registered field; every name on which isBoolConfig is true is
    configurable; and completeConfig lists, each once, the configurable
    names that start with the prefix. *)
Theorem X6_configurable_names {text : Float64Text} (name prefix : string) :
  (driver.isConfigurable name = true <->
   exists f : driver.configField,
     f ∈ driver.configFields /\ (name = driver.name f \/ name ∈ driver.choices f))
  /\ (driver.isBoolConfig name = true -> driver.isConfigurable name = true)
  /\ (name ∈ driver.completeConfig prefix <->
      driver.isConfigurable name = true /\ gostrings.HasPrefix name prefix = true)
  /\ NoDup (driver.completeConfig prefix).
Proof.
  split; [apply isConfigurable_true|]. split; [|split].
  - unfold driver.isBoolConfig, driver.isConfigurable.
    destruct (driver.configFieldMap !! name); [reflexivity|discriminate].
  - apply elem_of_completeConfig.
  - apply NoDup_completeConfig.
Qed.

(** X6 on the prefix f: focus, and the choices that start with f. *)
Lemma X6_configurable_names_witness :
  "focus" ∈ driver.completeConfig (text := literalFloats) "f"
  /\ length (driver.completeConfig (text := literalFloats) "f") = 5%nat
  /\ length (driver.completeConfig (text := literalFloats) "") = 37%nat.
Proof.
  split; [|split; vm_compute; reflexivity].
  apply (proj1 (proj2 (proj2 (X6_configurable_names (text := literalFloats) "focus" "f")))).
  split; vm_compute; reflexivity.
Defined.


(** ** X7 and X8: applyURL on nothing, and applyURL twice *)

Section ApplyURLAgain.

Import driver.
Context {text : Float64Text}.

(** The loop changes nothing when every set it makes changes nothing. *)
Lemma applyFields_fixed fields cfg params :
  (forall f, f ∈ fields -> fromURL f = true -> url.Get params (urlparam f) <> "" ->
             set cfg f (url.Get params (urlparam f)) = (cfg, None)) ->
  applyFields fields cfg params = (cfg, None).
Proof.
  induction fields as [|f rest IH]; intros Hall; [reflexivity|].
  rewrite applyFields_cons. cbv zeta.
  assert (Hrest : applyFields rest cfg params = (cfg, None))
    by (apply IH; intros g Hg; apply Hall; right; assumption).
  destruct (fromURL f) eqn:Hact; [|exact Hrest].
  destruct (String.eqb_spec (url.Get params (urlparam f)) "") as [_|Hvalue]; [exact Hrest|].
  rewrite (Hall f) by (assumption || left). exact Hrest.
Qed.

(** After a successful run of the loop, running it again on the result
    changes nothing. *)
Lemma applyFields_again fields cfg params cfg' :
  NoDup ((fun f => reflect.Index (field f)) <$> fields) ->
  applyFields fields cfg params = (cfg', None) ->
  applyFields fields cfg' params = (cfg', None).
Proof.
  intros Hnd Happly. apply applyFields_fixed. intros f Hin Hact Hvalue.
  destruct (applyFields_reads fields cfg params cfg' f _ Hnd Hin Hact eq_refl Hvalue Happly)
    as (cfg1 & cfg2 & Hset & Hsame).
  destruct (set_success_any cfg1 f _ cfg2 Hset) as (v & Hkind & _ & Hany).
  rewrite Hany in Hset. injection Hset as <-.
  rewrite load_store_same in Hsame by (rewrite kind_of_field; assumption).
  rewrite Hany, <- Hsame, store_load. reflexivity.
Qed.

End ApplyURLAgain.

(** X7.  applyURL on parameters that hold no value for the URL parameter
    of any field, as the empty parameters do, succeeds and leaves the
    configuration as it is. *)
Theorem X7_applyURL_nothing {text : Float64Text}
    (cfg : driver.PprofConfig) (params : url.Values) :
  (forall f : driver.configField,
     f ∈ driver.configFields -> fromURL f = true ->
     url.Get params (driver.urlparam f) = "") ->
  driver.applyURL cfg params = (cfg, None).
Proof.
  intros Hall. rewrite applyURL_eq. apply applyFields_fixed.
  intros f Hin Hact Hvalue. destruct Hvalue. apply Hall; assumption.
Qed.

(** X7 on the empty parameters and on parameters that are no field's. *)
Lemma X7_applyURL_nothing_witness :
  let u := url.mkURL "http" "localhost:8080" "/ui/" "PprofConfig=mine&refresh=1" "" in
  driver.applyURL (text := literalFloats) driver.DefaultConfig (url.Query u)
  = (driver.DefaultConfig, None)
  /\ driver.applyURL (text := literalFloats) driver.DefaultConfig ∅
     = (driver.DefaultConfig, None).
Proof.
  cbv zeta. split; apply (X7_applyURL_nothing (text := literalFloats));
    intros f Hin Hact; each_field Hin; reflexivity.
Defined.

(** X8.  applyURL is idempotent: applied to the configuration and error it
    returned, with the same parameters, it returns them again.  After a
    success nothing is left to change; after a failure the fields before
    the failing one are at their values and the failing one fails again. *)
Theorem X8_applyURL_twice {text : Float64Text}
    (cfg cfg' : driver.PprofConfig) (params : url.Values) (r : option error) :
  driver.applyURL cfg params = (cfg', r) ->
  driver.applyURL cfg' params = (cfg', r).
Proof.
  intros Happly. rewrite applyURL_eq in Happly. rewrite applyURL_eq.
  destruct r as [e|].
  - destruct (applyFields_error driver.configFields cfg params cfg' e Happly)
      as (pre & f & post & err & Hsplit & Hpre & Hact & Hvalue & Hset & ->).
    rewrite Hsplit. eapply applyFields_stops; [|assumption|assumption|exact Hset].
    apply (applyFields_again pre cfg params cfg'); [|assumption].
    pose proof NoDup_indices as Hnd. rewrite Hsplit, fmap_app in Hnd.
    apply NoDup_app in Hnd as [Hnd _]. exact Hnd.
  - apply (applyFields_again driver.configFields cfg params cfg');
      [apply NoDup_indices|assumption].
Qed.

(** X8 on parameters that set two fields and then fail on a third. *)
Lemma X8_applyURL_twice_witness :
  let u := url.mkURL "http" "localhost:8080" "/ui/" "calltree=t&sort=cum&n=many" "" in
  let cfg' := driver.store driver.ISort (driver.VString "cum")
                (driver.store driver.ICallTree (driver.VBool true) driver.DefaultConfig) in
  driver.applyURL (text := literalFloats) cfg' (url.Query u)
  = (cfg', Some (ErrorSetting "nodecount" (NumError "Atoi" "many" ErrSyntax))).
Proof.
  cbv zeta.
  apply (X8_applyURL_twice (text := literalFloats) driver.DefaultConfig).
  vm_compute. reflexivity.
Defined.


(** ** X9 to X12: makeURL, and applyURL after it *)

Section EncodeDecode.

Import driver.
Context {text : Float64Text}.

Lemma substring_SprintBool b :
  String.substring 0 1 (fmt.SprintBool b) = if b then "t" else "f".
Proof. destruct b; reflexivity. Qed.

(** What set stores for the value makeURL writes for a field that is off
    its default value. *)
Lemma set_urlValue cfg cfg1 cfg2 f :
  urlValue cfg f <> "" ->
  set cfg1 f (urlValue cfg f) = (cfg2, None) ->
  match load (reflect.Index (field f)) cfg with
  | VString s => load (reflect.Index (field f)) cfg2 = VString s
  | VInt n =>
      strconv.minInt <= n <= strconv.maxInt ->
      load (reflect.Index (field f)) cfg2 = VInt n
  | VFloat64 x =>
      ParseFloat (SprintFloat64 x) = Parsed x ->
      load (reflect.Index (field f)) cfg2 = VFloat64 x
  | VBool b => load (reflect.Index (field f)) cfg2 = VBool b
  end.
Proof.
  intros Hvalue Hset.
  assert (Hne : get cfg f <> defaultValue f).
  { intros Heq. apply Hvalue, urlValue_default. assumption. }
  rewrite (urlValue_not_default cfg f Hne) in Hset.
  rewrite (TypeKind_load (field f) cfg), get_load in Hset.
  pose proof (kind_of_field f cfg) as Hk. pose proof (kind_of_field f cfg1) as Hk1.
  pose proof (set_cases cfg1 f) as Hc. cbv zeta in Hc.
  destruct (load (reflect.Index (field f)) cfg) as [s|n|x|b] eqn:Hload;
    cbn [reflect.kindOf] in Hset, Hk; rewrite <- Hk in Hk1;
    destruct (load (reflect.Index (field f)) cfg1) eqn:Hload1; try discriminate Hk1;
    rewrite Hc in Hset; clear Hc.
  - rewrite bool_decide_false in Hset by discriminate.
    destruct (_ && _); [discriminate|]. injection Hset as <-.
    apply load_store_same. rewrite Hload1. reflexivity.
  - rewrite bool_decide_false in Hset by discriminate. intros Hn.
    unfold fmt.SprintInt in Hset. rewrite (Atoi_Itoa n Hn) in Hset. injection Hset as <-.
    apply load_store_same. rewrite Hload1. reflexivity.
  - rewrite bool_decide_false in Hset by discriminate. intros Hx.
    rewrite Hx in Hset. injection Hset as <-.
    apply load_store_same. rewrite Hload1. reflexivity.
  - rewrite bool_decide_true in Hset by reflexivity.
    rewrite substring_SprintBool in Hset.
    assert (Hb : stringToBool (if b then "t" else "f") = Ok b) by (destruct b; reflexivity).
    rewrite Hb in Hset. injection Hset as <-.
    apply load_store_same. rewrite Hload1. reflexivity.
Qed.

End EncodeDecode.

(** X9.  Decoding what makeURL encoded restores the fields it wrote.  When
    applyURL succeeds on the parameters of the URL makeURL returned for a
    configuration, then in the result a written field whose URL value is
    not empty (it is off its default value, and not an empty string) holds
    what it held in that configuration, provided an integer is an int and a
    float is read back by ParseFloat as Sprint printed it; a written field
    whose URL value is empty is left as the decoded-into configuration had
    it. *)
Theorem X9_encode_decode {text : Float64Text}
    (cfg base cfg' : driver.PprofConfig) (u : url.URL) (f : driver.configField) :
  f ∈ driver.configFields -> inURL f = true ->
  driver.applyURL base (url.Query (fst (driver.makeURL cfg u))) = (cfg', None) ->
  let i := driver.reflect.Index (driver.field f) in
  if String.eqb (driver.urlValue cfg f) "" then driver.load i cfg' = driver.load i base
  else
    match driver.load i cfg with
    | driver.VString s => driver.load i cfg' = driver.VString s
    | driver.VInt n =>
        strconv.minInt <= n <= strconv.maxInt -> driver.load i cfg' = driver.VInt n
    | driver.VFloat64 x =>
        ParseFloat (SprintFloat64 x) = Parsed x -> driver.load i cfg' = driver.VFloat64 x
    | driver.VBool b => driver.load i cfg' = driver.VBool b
    end.
Proof.
  intros Hin Hact Happly. cbv zeta.
  pose proof (makeURL_Get cfg u f Hin Hact) as Hget.
  destruct (String.eqb_spec (driver.urlValue cfg f) "") as [Hempty|Hvalue].
  - eapply applyURL_untouched; [exact Hin| |exact Happly].
    right. rewrite Hget. assumption.
  - destruct (applyURL_reads base _ cfg' f _ Hin (inURL_fromURL f Hact) Hget Hvalue Happly)
      as (cfg1 & cfg2 & Hset & Hsame).
    rewrite Hsame. eapply set_urlValue; eassumption.
Qed.

(** X9 at a node count of 5, decoded into the default configuration. *)
Lemma X9_encode_decode_witness :
  let u := url.mkURL "http" "localhost:8080" "/ui/" "" "" in
  let cfg := driver.store driver.INodeCount (driver.VInt 5)
               (driver.store driver.ISort (driver.VString "cum") driver.DefaultConfig) in
  driver.load driver.INodeCount cfg = driver.VInt 5.
Proof.
  cbv zeta.
  pose proof (X9_encode_decode (text := literalFloats)
                (driver.store driver.INodeCount (driver.VInt 5)
                   (driver.store driver.ISort (driver.VString "cum") driver.DefaultConfig))
                driver.DefaultConfig
                (driver.store driver.INodeCount (driver.VInt 5)
                   (driver.store driver.ISort (driver.VString "cum") driver.DefaultConfig))
                (url.mkURL "http" "localhost:8080" "/ui/" "" "")
                nodecountField nodecountField_registered eq_refl) as Hw.
  apply Hw; [vm_compute; reflexivity|vm_compute; split; discriminate].
Defined.

(** X10.  makeURL changes nothing of the URL but its query, and in the
    query it leaves every parameter that is not the URL parameter of a
    field it writes at the value it had. *)
Theorem X10_makeURL_rest {text : Float64Text} (cfg : driver.PprofConfig) (u : url.URL) :
  let u' := fst (driver.makeURL cfg u) in
  (url.Scheme u', url.Host u', url.Path u', url.Fragment u')
  = (url.Scheme u, url.Host u, url.Path u, url.Fragment u)
  /\ forall key : string,
       (forall f : driver.configField,
          f ∈ driver.configFields -> inURL f = true -> driver.urlparam f <> key) ->
       url.Get (url.Query u') key = url.Get (url.Query u) key.
Proof.
  cbv zeta. split.
  - rewrite makeURL_loop. cbv zeta. destruct (snd _); reflexivity.
  - intros key Hkey. apply makeURL_other. intros Hmem.
    apply elem_of_urlparams in Hmem as (f & Hin & Hact & Heq).
    exact (Hkey f Hin Hact Heq).
Qed.

(** X10 on a URL that carries the name of a configuration to save. *)
Lemma X10_makeURL_rest_witness :
  let u := url.mkURL "http" "localhost:8080" "/ui/" "PprofConfig=mine&n=5" "top" in
  url.Get (url.Query (fst (driver.makeURL (text := literalFloats) driver.DefaultConfig u)))
    "PprofConfig"
  = "mine".
Proof.
  cbv zeta.
  rewrite (proj2 (X10_makeURL_rest (text := literalFloats) driver.DefaultConfig
                    (url.mkURL "http" "localhost:8080" "/ui/" "PprofConfig=mine&n=5" "top"))).
  - reflexivity.
  - intros f Hin Hact. each_field Hin; discriminate.
Defined.

(** X11.  The second result of makeURL is false exactly when every field
    it writes already has, as the value of its parameter in the URL, the
    value makeURL wants for it; and then the URL is returned as given. *)
Theorem X11_makeURL_changed {text : Float64Text} (cfg : driver.PprofConfig) (u : url.URL) :
  (snd (driver.makeURL cfg u) = false <->
   forall f : driver.configField,
     f ∈ driver.configFields -> inURL f = true ->
     url.Get (url.Query u) (driver.urlparam f) = driver.urlValue cfg f)
  /\ (snd (driver.makeURL cfg u) = false -> fst (driver.makeURL cfg u) = u).
Proof.
  split; [split|].
  - intros Hsnd. apply makeURL_unchanged. assumption.
  - intros Hall. rewrite (makeURL_fixed cfg u Hall). reflexivity.
  - intros Hsnd. destruct (makeURL_unchanged cfg u Hsnd) as [-> _]. reflexivity.
Qed.

(** X12.  When makeURL rewrites the query, the query it writes parses
    without error, whatever the query of the given URL was. *)
Theorem X12_makeURL_wellformed {text : Float64Text} (cfg : driver.PprofConfig) (u : url.URL) :
  snd (driver.makeURL cfg u) = true ->
  snd (url.ParseQuery (url.RawQuery (fst (driver.makeURL cfg u)))) = None.
Proof.
  rewrite makeURL_loop. cbv zeta. destruct (fold_left _ _ _) as [q changed].
  cbn [fst snd]. intros ->. cbn [url.RawQuery url.withRawQuery].
  rewrite ParseQuery_Encode. reflexivity.
Qed.

(** X12 on a URL whose query has a bad escape and a semicolon. *)
Lemma X12_makeURL_wellformed_witness :
  let u := url.mkURL "http" "localhost:8080" "/ui/" "n=5;x=1&%zz=1&sort=cum" "" in
  (snd (url.ParseQuery (url.RawQuery u)),
   url.RawQuery (fst (driver.makeURL (text := literalFloats) driver.DefaultConfig u)))
  = (Some InvalidSemicolon, "")
  /\ snd (url.ParseQuery
            (url.RawQuery (fst (driver.makeURL (text := literalFloats) driver.DefaultConfig u))))
     = None.
Proof.
  cbv zeta. split; [vm_compute; reflexivity|].
  apply (X12_makeURL_wellformed (text := literalFloats)). vm_compute. reflexivity.
Defined.


(** ** X13 and X14: transient fields of the settings read *)

Section ResetTransient.

Import driver.

Lemma resetTransient_transient cfg current i :
  i ∈ transient -> load i (resetTransient cfg current) = load i current.
Proof.
  intros Hi. unfold transient in Hi.
  repeat (apply elem_of_cons in Hi as [->|Hi]; [reflexivity|]). inversion Hi.
Qed.

Lemma resetTransient_other cfg current i :
  i ∉ transient -> load i (resetTransient cfg current) = load i cfg.
Proof.
  intros Hi. destruct i; try reflexivity; exfalso; apply Hi;
    apply list_elem_of_In; cbn; tauto.
Qed.

Lemma resetTransient_again cfg current :
  resetTransient (resetTransient cfg current) current = resetTransient cfg current.
Proof. reflexivity. Qed.

End ResetTransient.

(** X13.  resetTransient gives the five transient fields the values of the
    current configuration and leaves every other field as it is; doing it
    again changes nothing; and makeURL returns the same for a configuration
    before and after it. *)
Theorem X13_resetTransient {text : Float64Text} (cfg current : driver.PprofConfig) :
  (forall i : driver.fieldIndex,
     driver.load i (driver.resetTransient cfg current)
     = if bool_decide (i ∈ transient) then driver.load i current else driver.load i cfg)
  /\ driver.resetTransient (driver.resetTransient cfg current) current
     = driver.resetTransient cfg current
  /\ forall u : url.URL,
       driver.makeURL (driver.resetTransient cfg current) u = driver.makeURL cfg u.
Proof.
  split; [|split].
  - intros i. destruct (bool_decide_reflect (i ∈ transient)).
    + apply resetTransient_transient. assumption.
    + apply resetTransient_other. assumption.
  - apply resetTransient_again.
  - intros u. apply makeURL_same_fields. intros f Hin Hact.
    apply resetTransient_other. apply inURL_not_transient; assumption.
Qed.

(** X14.  When the settings file is read and parsed, readSettings returns
    the configurations that were parsed, under the same names and in the
    same order, each with its transient fields taken from the current
    configuration and its other fields as parsed. *)
Theorem X14_readSettings_success {FS : Type} {runtime : driver.Runtime FS}
    (fname data : string) (fs : FS) (currentCfg : driver.PprofConfig)
    (parsed : driver.settings) :
  driver.ReadFile fname fs = Ok data ->
  driver.Unmarshal data = Ok parsed ->
  exists read : driver.settings,
    driver.readSettings fname fs currentCfg = Ok read
    /\ map driver.Name (driver.Configs read) = map driver.Name (driver.Configs parsed)
    /\ forall (n : nat) (c : driver.namedConfig),
         driver.Configs read !! n = Some c ->
         exists c0 : driver.namedConfig,
           driver.Configs parsed !! n = Some c0
           /\ driver.Name c = driver.Name c0
           /\ forall i : driver.fieldIndex,
                driver.load i (driver.Config c)
                = if bool_decide (i ∈ transient) then driver.load i currentCfg
                  else driver.load i (driver.Config c0).
Proof.
  intros Hread Hparse. unfold driver.readSettings. rewrite Hread, Hparse.
  eexists. split; [reflexivity|]. cbn [driver.Configs]. split.
  - rewrite map_map. reflexivity.
  - intros n c Hc. change (map ?g ?l) with (g <$> l) in Hc.
    rewrite list_lookup_fmap in Hc.
    destruct (driver.Configs parsed !! n) as [c0|]; [|discriminate].
    injection Hc as <-. exists c0. split; [reflexivity|]. split; [reflexivity|].
    intros i. cbn [driver.Config].
    destruct (bool_decide_reflect (i ∈ transient)).
    + apply resetTransient_transient. assumption.
    + apply resetTransient_other. assumption.
Qed.

(** X14 on a file that holds one configuration. *)
Lemma X14_readSettings_success_witness :
  let parsed := {| driver.Configs := [ {| driver.Name := "mine"; driver.Config := driver.zeroConfig |} ] |} in
  exists read : driver.settings,
    driver.readSettings (runtime := fixedRuntime (Ok "{}") (Ok parsed))
      "settings.json" tt driver.DefaultConfig = Ok read
    /\ map driver.Name (driver.Configs read) = ["mine"].
Proof.
  cbv zeta.
  destruct (X14_readSettings_success
              (runtime := fixedRuntime (Ok "{}")
                 (Ok {| driver.Configs := [ {| driver.Name := "mine"; driver.Config := driver.zeroConfig |} ] |}))
              "settings.json" "{}" tt driver.DefaultConfig _ eq_refl eq_refl)
    as (read & Hread & Hnames & _).
  exists read. split; assumption.
Defined.


(** ** X15: the configuration menu *)

Section Menu.

Import driver.
Context {text : Float64Text} {FS : Type} {runtime : Runtime FS}.

Lemma fold_left_step {A B} (f : A -> B -> A) (x : B) (l : list B) (a : A) :
  fold_left f (x :: l) a = fold_left f l (f a x).
Proof. reflexivity. Qed.

(** The loop of configMenu, started in any state: the entries made are
    those of the configurations in order, and the last match is the last
    configuration whose URL is unchanged, or what it was. *)
Lemma menuEntries_loop (u : url.URL) (configs : list namedConfig) :
  forall (result : list configMenuEntry) (lastMatch i : Z),
    exists lastMatch' : Z,
      fold_left
        (fun (acc : list configMenuEntry * Z * Z) (cfg : namedConfig) =>
           let '(result, lastMatch, i) := acc in
           let '(dst, changed) := makeURL (Config cfg) u in
           let lastMatch := if negb changed then i else lastMatch in
           ((result ++ [ {| EntryName := Name cfg;
                            URL := URLString dst;
                            Current := false;
                            UserConfig := negb (i =? 0) |} ])%list,
            lastMatch, i + 1))
        configs (result, lastMatch, i)
      = ((result ++ imap (fun (k : nat) (cfg : namedConfig) =>
                            {| EntryName := Name cfg;
                               URL := URLString (makeURL (Config cfg) u).1;
                               Current := false;
                               UserConfig := negb (i + Z.of_nat k =? 0) |}) configs)%list,
         lastMatch', i + Z.of_nat (length configs))
      /\ ((lastMatch' = lastMatch
           /\ forallb (fun cfg => (makeURL (Config cfg) u).2) configs = true)
          \/ exists (k : nat) (cfg : namedConfig),
               configs !! k = Some cfg
               /\ lastMatch' = i + Z.of_nat k
               /\ (makeURL (Config cfg) u).2 = false
               /\ forallb (fun cfg => (makeURL (Config cfg) u).2) (drop (S k) configs) = true).
Proof.
  induction configs as [|c rest IH]; intros result lastMatch i.
  - exists lastMatch. cbn [fold_left imap length Z.of_nat].
    rewrite app_nil_r, Z.add_0_r. split; [reflexivity|]. left. split; reflexivity.
  - destruct (makeURL (Config c) u) as [dst changed] eqn:Hc.
    destruct (IH (result ++ [ {| EntryName := Name c;
                                 URL := URLString dst;
                                 Current := false;
                                 UserConfig := negb (i =? 0) |} ])%list
                 (if negb changed then i else lastMatch) (i + 1))
      as (lastMatch' & Hfold & Hlast).
    exists lastMatch'. split.
    + rewrite fold_left_step. cbv beta iota. rewrite Hc. refine (eq_trans Hfold _).
      rewrite <- app_assoc. cbn [app imap length]. rewrite Hc. cbn [fst].
      rewrite Z.add_0_r. f_equal; [f_equal|lia]. f_equal. f_equal.
      apply imap_ext. intros k cfg _. cbn. do 3 f_equal. lia.
    + cbn [forallb]. rewrite Hc. cbn [snd].
      destruct Hlast as [[-> Hall]|(k & cfg & Hk & -> & Hcfg & Hall)].
      * destruct changed; cbn [negb].
        -- left. split; [reflexivity|exact Hall].
        -- right. exists 0%nat, c. cbn [lookup list_lookup drop]. rewrite Hc.
           repeat split; [lia|exact Hall].
      * right. exists (S k), cfg. cbn [drop]. repeat split; [exact Hk|lia|exact Hcfg|exact Hall].
Qed.

Lemma forallb_drop_lookup {A} (p : A -> bool) (l : list A) (n k : nat) (x : A) :
  forallb p (drop (S n) l) = true -> l !! k = Some x -> (n < k)%nat -> p x = true.
Proof.
  intros Hall Hk Hlt. rewrite forallb_forall in Hall. apply Hall.
  apply list_elem_of_In. apply (list_elem_of_lookup_2 _ (k - S n)%nat).
  rewrite lookup_drop. replace (S n + (k - S n))%nat with k by lia. exact Hk.
Qed.

Lemma forallb_drop_false {A} (p : A -> bool) (l : list A) (n k : nat) (x : A) :
  l !! k = Some x -> (n < k)%nat -> p x = false -> forallb p (drop (S n) l) = false.
Proof.
  intros Hk Hlt Hx. destruct (forallb p (drop (S n) l)) eqn:Hall; [|reflexivity].
  rewrite (forallb_drop_lookup p l n k x Hall Hk Hlt) in Hx. discriminate.
Qed.

Lemma forallb_lookup {A} (p : A -> bool) (l : list A) (k : nat) (x : A) :
  forallb p l = true -> l !! k = Some x -> p x = true.
Proof.
  intros Hall Hk. rewrite forallb_forall in Hall. apply Hall.
  apply list_elem_of_In. apply (list_elem_of_lookup_2 _ k). exact Hk.
Qed.

Lemma forallb_drop {A} (p : A -> bool) (l : list A) (n : nat) :
  forallb p l = true -> forallb p (drop n l) = true.
Proof.
  rewrite !forallb_forall. intros Hall x Hx. apply Hall.
  apply list_elem_of_In. apply list_elem_of_In in Hx.
  apply list_elem_of_lookup in Hx as [k Hk]. rewrite lookup_drop in Hk.
  apply (list_elem_of_lookup_2 _ _ _ Hk).
Qed.

End Menu.

(** X15.  The menu has one entry for the default configuration and then
    one for each configuration read from the settings, in order; an
    entry has the name of its configuration and the URL that makeURL
    gives for it; every entry but the first is a user configuration; and
    an entry is marked current exactly when makeURL reports no change for
    its configuration and reports a change for every later one, so at
    most one entry is current. *)
Theorem X15_configMenu {text : Float64Text} {FS : Type} {runtime : driver.Runtime FS}
    (fname : string) (u : url.URL) (fs : FS) (currentCfg : driver.PprofConfig) :
  let configs :=
    {| driver.Name := "Default"; driver.Config := driver.DefaultConfig |}
    :: match driver.readSettings fname fs currentCfg with
       | Ok read => driver.Configs read
       | Err _ => []
       end in
  let menu := driver.configMenu fname u fs currentCfg in
  length menu = length configs
  /\ forall (n : nat) (c : driver.namedConfig),
       configs !! n = Some c ->
       exists e : driver.configMenuEntry,
         menu !! n = Some e
         /\ driver.EntryName e = driver.Name c
         /\ driver.URL e = driver.URLString (driver.makeURL (driver.Config c) u).1
         /\ driver.UserConfig e = negb (n =? 0)%nat
         /\ driver.Current e
            = negb (driver.makeURL (driver.Config c) u).2
              && forallb (fun c' : driver.namedConfig =>
                            (driver.makeURL (driver.Config c') u).2)
                         (drop (S n) configs).
Proof.
  cbv zeta. unfold driver.configMenu, driver.menuEntries.
  set (configs := {| driver.Name := "Default"; driver.Config := driver.DefaultConfig |}
                  :: match driver.readSettings fname fs currentCfg with
                     | Ok read => driver.Configs read
                     | Err _ => []
                     end).
  assert (Hconfigs :
    match driver.readSettings fname fs currentCfg with
    | Ok settings =>
        ([ {| driver.Name := "Default"; driver.Config := driver.DefaultConfig |} ]
           ++ driver.Configs settings)%list
    | Err _ => [ {| driver.Name := "Default"; driver.Config := driver.DefaultConfig |} ]
    end = configs)
    by (unfold configs; destruct (driver.readSettings fname fs currentCfg); reflexivity).
  rewrite Hconfigs. clearbody configs. clear Hconfigs.
  destruct (menuEntries_loop u configs [] (-1) 0) as (lastMatch & Hfold & Hlast).
  cbv zeta in Hfold. cbv zeta. rewrite Hfold. cbn [app]. clear Hfold.
  set (entries := imap _ configs).
  assert (Hentry : forall (n : nat) (c : driver.namedConfig),
            configs !! n = Some c ->
            entries !! n
            = Some {| driver.EntryName := driver.Name c;
                      driver.URL := driver.URLString (driver.makeURL (driver.Config c) u).1;
                      driver.Current := false;
                      driver.UserConfig := negb (n =? 0)%nat |}).
  { intros n c Hn. unfold entries. rewrite list_lookup_imap, Hn. cbn.
    do 3 f_equal. destruct n; [reflexivity|].
    cbn [Nat.eqb]. apply Z.eqb_neq. lia. }
  assert (Hlen : length entries = length configs)
    by (unfold entries; apply length_imap).
  clearbody entries.
  destruct Hlast as [[-> Hall]|(k & ck & Hk & -> & Hck & Hall)].
  - cbn [Z.leb Z.compare Z.opp]. split; [exact Hlen|].
    intros n c Hn. eexists. split; [apply Hentry; exact Hn|].
    cbn [driver.EntryName driver.URL driver.UserConfig driver.Current].
    repeat split. rewrite (forallb_lookup _ _ _ _ Hall Hn). reflexivity.
  - destruct (Z.leb_spec 0 (0 + Z.of_nat k)); [|lia].
    rewrite Z.add_0_l, Nat2Z.id. split; [rewrite length_alter; exact Hlen|].
    intros n c Hn. destruct (decide (n = k)) as [->|Hne].
    + rewrite Hk in Hn. injection Hn as <-.
      eexists. split; [rewrite list_lookup_alter, (Hentry _ _ Hk), decide_True by reflexivity; reflexivity|].
      cbn [driver.EntryName driver.URL driver.UserConfig driver.Current].
      repeat split. rewrite Hck, Hall. reflexivity.
    + eexists. split; [rewrite list_lookup_alter_ne by congruence; apply Hentry; exact Hn|].
      cbn [driver.EntryName driver.URL driver.UserConfig driver.Current].
      repeat split. destruct (Nat.lt_total n k) as [Hlt|[Heq|Hgt]]; [|contradiction|].
      * rewrite (forallb_drop_false _ _ _ _ _ Hk Hlt Hck). rewrite andb_false_r. reflexivity.
      * rewrite (forallb_drop_lookup _ _ _ _ _ Hall Hn Hgt). reflexivity.
Qed.


(** ** X16 to X19: saving and removing named configurations *)

Section NamedConfigs.

Import driver.

(** The first entry of a name, when there is one. *)
Lemma first_named (name : string) (configs : list namedConfig) :
  name ∈ map Name configs ->
  exists (pre : list namedConfig) (c : namedConfig) (post : list namedConfig),
    configs = (pre ++ c :: post)%list /\ Name c = name /\ name ∉ map Name pre.
Proof.
  induction configs as [|c rest IH]; intros Hin; [inversion Hin|].
  destruct (String.eqb_spec (Name c) name) as [Heq|Hne].
  - exists [], c, rest. repeat split; [assumption|]. cbn. apply not_elem_of_nil.
  - cbn [map] in Hin. apply elem_of_cons in Hin as [Heq|Hin]; [congruence|].
    destruct (IH Hin) as (pre & c' & post & -> & Hname & Hpre).
    exists (c :: pre), c', post. repeat split; [assumption|].
    cbn [map]. apply not_elem_of_cons. split; [congruence|assumption].
Qed.

Lemma saveNamed_present (name : string) (cfg : PprofConfig)
    (pre : list namedConfig) (c : namedConfig) (post : list namedConfig) :
  name ∉ map Name pre -> Name c = name ->
  saveNamed name cfg (pre ++ c :: post)
  = (pre ++ {| Name := name; Config := cfg |} :: post)%list.
Proof.
  intros Hpre Hc. induction pre as [|d pre IH]; cbn [app saveNamed].
  - rewrite Hc, String.eqb_refl. reflexivity.
  - cbn [map] in Hpre. apply not_elem_of_cons in Hpre as [Hne Hpre].
    destruct (String.eqb_spec (Name d) name); [congruence|].
    rewrite IH by assumption. reflexivity.
Qed.

Lemma saveNamed_absent (name : string) (cfg : PprofConfig) (configs : list namedConfig) :
  name ∉ map Name configs ->
  saveNamed name cfg configs = (configs ++ [ {| Name := name; Config := cfg |} ])%list.
Proof.
  induction configs as [|d rest IH]; intros Hout; cbn [app saveNamed]; [reflexivity|].
  cbn [map] in Hout. apply not_elem_of_cons in Hout as [Hne Hout].
  destruct (String.eqb_spec (Name d) name); [congruence|].
  rewrite IH by assumption. reflexivity.
Qed.

Lemma removeNamed_present (name : string)
    (pre : list namedConfig) (c : namedConfig) (post : list namedConfig) :
  name ∉ map Name pre -> Name c = name ->
  removeNamed name (pre ++ c :: post) = Some (pre ++ post)%list.
Proof.
  intros Hpre Hc. induction pre as [|d pre IH]; cbn [app removeNamed].
  - rewrite Hc, String.eqb_refl. reflexivity.
  - cbn [map] in Hpre. apply not_elem_of_cons in Hpre as [Hne Hpre].
    destruct (String.eqb_spec (Name d) name); [congruence|].
    rewrite IH by assumption. reflexivity.
Qed.

Lemma removeNamed_absent (name : string) (configs : list namedConfig) :
  name ∉ map Name configs -> removeNamed name configs = None.
Proof.
  induction configs as [|d rest IH]; intros Hout; cbn [removeNamed]; [reflexivity|].
  cbn [map] in Hout. apply not_elem_of_cons in Hout as [Hne Hout].
  destruct (String.eqb_spec (Name d) name); [congruence|].
  rewrite IH by assumption. reflexivity.
Qed.

(** The entry found under a name: the first one of that name. *)
Lemma find_named_app (name : string) (pre post : list namedConfig) :
  name ∉ map Name pre ->
  find (fun c => String.eqb (Name c) name) (pre ++ post)
  = find (fun c => String.eqb (Name c) name) post.
Proof.
  induction pre as [|d pre IH]; intros Hpre; cbn [app find]; [reflexivity|].
  cbn [map] in Hpre. apply not_elem_of_cons in Hpre as [Hne Hpre].
  destruct (String.eqb_spec (Name d) name); [congruence|]. apply IH. assumption.
Qed.

Lemma find_other_app (other : string) (pre : list namedConfig)
    (c c' : namedConfig) (post : list namedConfig) :
  Name c <> other -> Name c' <> other ->
  find (fun c => String.eqb (Name c) other) (pre ++ c :: post)
  = find (fun c => String.eqb (Name c) other) (pre ++ c' :: post).
Proof.
  intros Hc Hc'. induction pre as [|d pre IH]; cbn [app find].
  - destruct (String.eqb_spec (Name c) other); [congruence|].
    destruct (String.eqb_spec (Name c') other); [congruence|]. reflexivity.
  - rewrite IH. reflexivity.
Qed.

Lemma find_other_drop (other : string) (pre : list namedConfig)
    (c : namedConfig) (post : list namedConfig) :
  Name c <> other ->
  find (fun c => String.eqb (Name c) other) (pre ++ c :: post)
  = find (fun c => String.eqb (Name c) other) (pre ++ post).
Proof.
  intros Hc. induction pre as [|d pre IH]; cbn [app find].
  - destruct (String.eqb_spec (Name c) other); [congruence|]. reflexivity.
  - rewrite IH. reflexivity.
Qed.

Lemma find_other_end (other : string) (configs : list namedConfig) (c : namedConfig) :
  Name c <> other ->
  find (fun c => String.eqb (Name c) other) (configs ++ [c])
  = find (fun c => String.eqb (Name c) other) configs.
Proof.
  intros Hc. rewrite <- (app_nil_r configs) at 2. apply find_other_drop. assumption.
Qed.

Context {text : Float64Text}.

(** applyFields reads the parameters of the fields and nothing else. *)
Lemma applyFields_params (fields : list configField) (params params' : url.Values) :
  (forall f, f ∈ fields -> urlparam f <> "" ->
             url.Get params (urlparam f) = url.Get params' (urlparam f)) ->
  forall cfg, applyFields fields cfg params = applyFields fields cfg params'.
Proof.
  induction fields as [|f rest IH]; intros Hsame cfg; [reflexivity|].
  rewrite !applyFields_cons. cbv zeta.
  assert (Hrest : forall cfg, applyFields rest cfg params = applyFields rest cfg params')
    by (apply IH; intros g Hg; apply Hsame; right; assumption).
  unfold fromURL. destruct (String.eqb_spec (urlparam f) "") as [Hempty|Hparam]; cbn [negb].
  - apply Hrest.
  - rewrite (Hsame f) by (assumption || left).
    destruct (String.eqb _ ""); [apply Hrest|].
    destruct (set cfg f _) as [cfg1 [err|]]; [reflexivity|apply Hrest].
Qed.

(** PprofConfig, the parameter of the name, is the parameter of no field. *)
Lemma urlparam_not_name (f : configField) :
  f ∈ configFields -> urlparam f <> "PprofConfig".
Proof. intros Hin. each_field Hin; vm_compute; discriminate. Qed.

End NamedConfigs.

(** X16.  setConfig on a request that names a configuration, with
    parameters that applyURL accepts and settings that can be read, writes
    the settings read with the configuration saved under the name: in the
    place of the first entry of that name when there is one, at the end
    otherwise.  The configuration saved is the current one with the
    parameters of the request applied, and the parameter of the name has
    no part in it. *)
Theorem X16_setConfig_saves {text : Float64Text} {FS : Type} {runtime : driver.Runtime FS}
    (fname : string) (request : url.URL) (fs : FS)
    (currentCfg cfg : driver.PprofConfig) (read : driver.settings) :
  url.Get (url.Query request) "PprofConfig" <> "" ->
  driver.applyURL currentCfg (url.Query request) = (cfg, None) ->
  driver.readSettings fname fs currentCfg = Ok read ->
  let name := url.Get (url.Query request) "PprofConfig" in
  let entry := {| driver.Name := name; driver.Config := cfg |} in
  exists saved : list driver.namedConfig,
    driver.setConfig fname request fs currentCfg
    = driver.writeSettings fname {| driver.Configs := saved |} fs
    /\ (if bool_decide (name ∈ map driver.Name (driver.Configs read))
        then exists (pre : list driver.namedConfig) (c : driver.namedConfig)
                    (post : list driver.namedConfig),
               driver.Configs read = (pre ++ c :: post)%list
               /\ driver.Name c = name
               /\ (name ∉ map driver.Name pre)
               /\ saved = (pre ++ entry :: post)%list
        else saved = (driver.Configs read ++ [entry])%list)
    /\ driver.applyURL currentCfg (url.Del (url.Query request) "PprofConfig") = (cfg, None).
Proof.
  intros Hname Happly Hread name entry.
  exists (driver.saveNamed name cfg (driver.Configs read)). split; [|split].
  - unfold driver.setConfig. cbv zeta. fold name.
    destruct (String.eqb_spec name ""); [contradiction|].
    rewrite Happly. unfold driver.editSettings. rewrite Hread. reflexivity.
  - destruct (bool_decide_reflect (name ∈ map driver.Name (driver.Configs read))) as [Hin|Hout].
    + destruct (first_named name _ Hin) as (pre & c & post & Hsplit & Hc & Hpre).
      exists pre, c, post. rewrite Hsplit. repeat split; try assumption.
      apply saveNamed_present; assumption.
    + apply saveNamed_absent. assumption.
  - rewrite <- Happly. rewrite !applyURL_eq. apply applyFields_params.
    intros f Hin _. apply Get_Del_other.
    intros Heq. apply (urlparam_not_name f Hin). symmetry. exact Heq.
Qed.

(** X16 on a request that saves the node count 5 as mine, over settings
    that hold a configuration of that name. *)
Lemma X16_setConfig_saves_witness :
  let request := {| url.Scheme := "http"; url.Host := "localhost"; url.Path := "/ui/";
                    url.RawQuery := "PprofConfig=mine&n=5"; url.Fragment := "" |} in
  let read := {| driver.Configs :=
                   [ {| driver.Name := "other"; driver.Config := driver.DefaultConfig |};
                     {| driver.Name := "mine"; driver.Config := driver.DefaultConfig |} ] |} in
  exists saved : list driver.namedConfig,
    driver.setConfig (text := literalFloats) (runtime := fixedRuntime (Ok "{}") (Ok read))
      "settings.json" request tt driver.DefaultConfig
    = driver.writeSettings (runtime := fixedRuntime (Ok "{}") (Ok read))
        "settings.json" {| driver.Configs := saved |} tt
    /\ map driver.Name saved = ["other"; "mine"].
Proof.
  cbv zeta.
  destruct (X16_setConfig_saves (text := literalFloats)
              (runtime := fixedRuntime (Ok "{}")
                 (Ok {| driver.Configs :=
                          [ {| driver.Name := "other"; driver.Config := driver.DefaultConfig |};
                            {| driver.Name := "mine"; driver.Config := driver.DefaultConfig |} ] |}))
              "settings.json"
              {| url.Scheme := "http"; url.Host := "localhost"; url.Path := "/ui/";
                 url.RawQuery := "PprofConfig=mine&n=5"; url.Fragment := "" |}
              tt driver.DefaultConfig
              (driver.store driver.INodeCount (driver.VInt 5) driver.DefaultConfig)
              {| driver.Configs :=
                   [ {| driver.Name := "other"; driver.Config := driver.DefaultConfig |};
                     {| driver.Name := "mine"; driver.Config := driver.DefaultConfig |} ] |})
    as (saved & Hset & Hsaved & _).
  - vm_compute. discriminate.
  - vm_compute. reflexivity.
  - vm_compute. reflexivity.
  - exists saved. split; [exact Hset|].
    destruct Hsaved as (pre & c & post & Hsplit & Hc & Hpre & ->).
    rewrite map_app. cbn [map driver.Name].
    apply (f_equal (map driver.Name)) in Hsplit. rewrite map_app in Hsplit.
    cbn [map driver.Name driver.Configs] in Hsplit. rewrite Hc in Hsplit.
    symmetry. exact Hsplit.
Defined.

(** X17.  setConfig checks the name before the parameters, and both before
    it touches the settings: a request without a name is refused as such
    whatever its parameters are, a request whose parameters applyURL
    rejects gives the error of applyURL, and settings that cannot be read
    give the error of the read; in each case the file system is left as
    it was. *)
Theorem X17_setConfig_rejects {text : Float64Text} {FS : Type} {runtime : driver.Runtime FS}
    (fname : string) (request : url.URL) (fs : FS) (currentCfg : driver.PprofConfig) :
  let q := url.Query request in
  (url.Get q "PprofConfig" = "" ->
   driver.setConfig fname request fs currentCfg = (fs, Some InvalidConfigName))
  /\ (forall (cfg : driver.PprofConfig) (err : error),
        url.Get q "PprofConfig" <> "" ->
        driver.applyURL currentCfg q = (cfg, Some err) ->
        driver.setConfig fname request fs currentCfg = (fs, Some err)
        /\ exists (f : driver.configField) (cause : error),
             f ∈ driver.configFields /\ err = ErrorSetting (driver.name f) cause)
  /\ (forall (cfg : driver.PprofConfig) (err : error),
        url.Get q "PprofConfig" <> "" ->
        driver.applyURL currentCfg q = (cfg, None) ->
        driver.readSettings fname fs currentCfg = Err err ->
        driver.setConfig fname request fs currentCfg = (fs, Some err)).
Proof.
  cbv zeta. unfold driver.setConfig. cbv zeta. split; [|split].
  - intros ->. reflexivity.
  - intros cfg err Hname Happly.
    destruct (String.eqb_spec (url.Get (url.Query request) "PprofConfig") ""); [contradiction|].
    rewrite Happly. split; [reflexivity|].
    rewrite applyURL_eq in Happly.
    destruct (applyFields_error _ _ _ _ _ Happly)
      as (pre & f & post & cause & Hsplit & _ & _ & _ & _ & ->).
    exists f, cause. split; [|reflexivity].
    rewrite Hsplit. apply elem_of_app. right. left.
  - intros cfg err Hname Happly Hread.
    destruct (String.eqb_spec (url.Get (url.Query request) "PprofConfig") ""); [contradiction|].
    rewrite Happly. unfold driver.editSettings. rewrite Hread. reflexivity.
Qed.

(** X18.  removeConfig of a name that the settings read do not hold, as
    when there is no settings file, reports that the configuration was not
    found and leaves the file system as it was; of a name they hold, it
    writes the settings without the first entry of that name, the other
    entries in their order; and settings that cannot be read give the error
    of the read. *)
Theorem X18_removeConfig {FS : Type} {runtime : driver.Runtime FS}
    (fname config : string) (fs : FS) (currentCfg : driver.PprofConfig) :
  match driver.readSettings fname fs currentCfg with
  | Err err => driver.removeConfig fname config fs currentCfg = (fs, Some err)
  | Ok read =>
      if bool_decide (config ∈ map driver.Name (driver.Configs read))
      then exists (pre : list driver.namedConfig) (c : driver.namedConfig)
                  (post : list driver.namedConfig),
             driver.Configs read = (pre ++ c :: post)%list
             /\ driver.Name c = config
             /\ (config ∉ map driver.Name pre)
             /\ driver.removeConfig fname config fs currentCfg
                = driver.writeSettings fname {| driver.Configs := (pre ++ post)%list |} fs
      else driver.removeConfig fname config fs currentCfg
           = (fs, Some (ConfigNotFound config))
  end
  /\ forall err : error,
       driver.ReadFile fname fs = Err err -> driver.IsNotExist err = true ->
       driver.removeConfig fname config fs currentCfg = (fs, Some (ConfigNotFound config)).
Proof.
  split.
  - unfold driver.removeConfig, driver.editSettings.
    destruct (driver.readSettings fname fs currentCfg) as [read|err]; [|reflexivity].
    destruct (bool_decide_reflect (config ∈ map driver.Name (driver.Configs read))) as [Hin|Hout].
    + destruct (first_named config _ Hin) as (pre & c & post & Hsplit & Hc & Hpre).
      exists pre, c, post. repeat split; try assumption.
      rewrite Hsplit, (removeNamed_present config pre c post Hpre Hc). reflexivity.
    + rewrite (removeNamed_absent config _ Hout). reflexivity.
  - intros err Hread Hmissing.
    unfold driver.removeConfig, driver.editSettings, driver.readSettings.
    rewrite Hread, Hmissing. reflexivity.
Qed.

(** X19.  Saving and removing by name.  Saving twice under a name leaves
    what the second save alone leaves; after a save the first entry of the
    name holds the configuration saved, and the first entry of any other
    name is the one it was; a save under a new name followed by the
    removal of that name gives the list back; and when no two entries
    share a name, that is so after a save and after a removal, and a
    removal leaves no entry of the name. *)
Theorem X19_save_remove (name : string) (cfg cfg' : driver.PprofConfig)
    (configs : list driver.namedConfig) :
  let named (n : string) (c : driver.namedConfig) := String.eqb (driver.Name c) n in
  driver.saveNamed name cfg' (driver.saveNamed name cfg configs)
  = driver.saveNamed name cfg' configs
  /\ find (named name) (driver.saveNamed name cfg configs)
     = Some {| driver.Name := name; driver.Config := cfg |}
  /\ (forall other : string,
        other <> name ->
        find (named other) (driver.saveNamed name cfg configs) = find (named other) configs)
  /\ ((name ∉ map driver.Name configs) ->
      driver.removeNamed name (driver.saveNamed name cfg configs) = Some configs)
  /\ (NoDup (map driver.Name configs) ->
      NoDup (map driver.Name (driver.saveNamed name cfg configs))
      /\ forall rest : list driver.namedConfig,
           driver.removeNamed name configs = Some rest ->
           NoDup (map driver.Name rest)
           /\ (name ∉ map driver.Name rest)
           /\ length configs = S (length rest)
           /\ forall other : string,
                other <> name -> find (named other) rest = find (named other) configs).
Proof.
  cbv zeta.
  destruct (decide (name ∈ map driver.Name configs)) as [Hin|Hout].
  - destruct (first_named name _ Hin) as (pre & c & post & -> & Hc & Hpre).
    rewrite !(saveNamed_present name _ pre c post Hpre Hc).
    rewrite (saveNamed_present name cfg' pre
               {| driver.Name := name; driver.Config := cfg |} post Hpre eq_refl).
    split; [reflexivity|]. split; [|split; [|split]].
    + rewrite find_named_app by assumption. cbn [find driver.Name].
      rewrite String.eqb_refl. reflexivity.
    + intros other Hother. apply find_other_app; cbn [driver.Name]; congruence.
    + intros Hout. contradiction.
    + intros Hnd. split.
      * rewrite map_app in *. cbn [map driver.Name] in *. rewrite Hc in Hnd. exact Hnd.
      * intros rest Hrest.
        rewrite (removeNamed_present name pre c post Hpre Hc) in Hrest.
        injection Hrest as <-.
        rewrite map_app in Hnd. cbn [map] in Hnd.
        apply NoDup_app in Hnd as (Hnd1 & Hdisj & Hnd2).
        apply NoDup_cons in Hnd2 as [Hfresh Hnd2]. rewrite Hc in Hfresh.
        rewrite map_app. repeat split.
        -- apply NoDup_app. repeat split; [assumption| |assumption].
           intros x Hx Hx'. apply (Hdisj x Hx). right. assumption.
        -- intros Hmem. apply elem_of_app in Hmem as [Hmem|Hmem]; contradiction.
        -- rewrite !length_app. cbn [length]. lia.
        -- intros other Hother. symmetry. apply find_other_drop. congruence.
  - rewrite !(saveNamed_absent name _ configs Hout).
    assert (Hlast : driver.saveNamed name cfg'
                      (configs ++ [ {| driver.Name := name; driver.Config := cfg |} ])
                    = (configs ++ [ {| driver.Name := name; driver.Config := cfg' |} ])%list)
      by (apply saveNamed_present; [assumption|reflexivity]).
    rewrite Hlast. split; [reflexivity|]. split; [|split; [|split]].
    + rewrite find_named_app by assumption. cbn [find driver.Name].
      rewrite String.eqb_refl. reflexivity.
    + intros other Hother. apply find_other_end. cbn [driver.Name]. congruence.
    + intros _.
      rewrite (removeNamed_present name configs
                 {| driver.Name := name; driver.Config := cfg |} [] Hout eq_refl), app_nil_r.
      reflexivity.
    + intros Hnd. split.
      * rewrite map_app. cbn [map driver.Name]. apply NoDup_app. repeat split.
        -- assumption.
        -- intros x Hx Hx'. apply list_elem_of_singleton in Hx'. subst x. contradiction.
        -- apply NoDup_singleton.
      * intros rest Hrest. rewrite (removeNamed_absent name configs Hout) in Hrest.
        discriminate.
Qed.


(** ** X20: the registry that init builds *)

Section RegistryInvariants.

Import driver.
Context {text : Float64Text}.

Lemma NoDup_fromURL_params :
  NoDup (urlparam <$> List.filter fromURL configFields).
Proof.
  match goal with |- ?G => refine (@bool_decide_unpack G _ _) end.
  vm_compute. exact I.
Qed.

Lemma urlparam_inj (f g : configField) :
  f ∈ configFields -> g ∈ configFields ->
  urlparam f <> "" -> urlparam g = urlparam f -> g = f.
Proof.
  intros Hf Hg Hparam Heq.
  assert (Hf' : f ∈ List.filter fromURL configFields).
  { apply list_elem_of_In, filter_In. split; [apply list_elem_of_In; assumption|].
    unfold fromURL. destruct (String.eqb_spec (urlparam f) ""); [contradiction|reflexivity]. }
  assert (Hg' : g ∈ List.filter fromURL configFields).
  { apply list_elem_of_In, filter_In. split; [apply list_elem_of_In; assumption|].
    unfold fromURL. destruct (String.eqb_spec (urlparam g) "") as [Hempty|_]; [|reflexivity].
    rewrite Hempty in Heq. congruence. }
  apply list_elem_of_lookup in Hf' as [i Hi], Hg' as [j Hj].
  assert (j = i); [|congruence].
  eapply NoDup_lookup; [exact NoDup_fromURL_params| |]; rewrite list_lookup_fmap.
  - rewrite Hj. cbn [fmap option_fmap option_map]. rewrite Heq. reflexivity.
  - rewrite Hi. reflexivity.
Qed.

Lemma saved_not_transient (f : configField) :
  f ∈ configFields ->
  saved f = negb (bool_decide (reflect.Index (field f) ∈ transient))
  /\ (saved f = true -> urlparam f <> "")
  /\ saved f = negb (String.eqb (reflect.JSONTag (field f)) "-").
Proof.
  intros Hin. each_field Hin; vm_compute; (split; [reflexivity|split; [|reflexivity]]);
    intros H; try discriminate H; intros H'; discriminate H'.
Qed.

End RegistryInvariants.

(** X20.  What init registers for a field.  The field is found under its
    name and under each of its choices; its default value is what get
    gives for the default configuration; it is saved exactly when it has
    a JSON name, which is when it is not transient, and then it has a URL
    parameter; and no other field has its name, its place in the struct
    or its URL parameter. *)
Theorem X20_registry {text : Float64Text} (f : driver.configField) :
  f ∈ driver.configFields ->
  driver.configFieldMap !! driver.name f = Some f
  /\ (forall choice : string,
        choice ∈ driver.choices f -> driver.configFieldMap !! choice = Some f)
  /\ driver.defaultValue f = driver.get driver.DefaultConfig f
  /\ driver.saved f = negb (String.eqb (driver.reflect.JSONTag (driver.field f)) "-")
  /\ driver.saved f = negb (bool_decide (driver.reflect.Index (driver.field f) ∈ transient))
  /\ (driver.saved f = true -> driver.urlparam f <> "")
  /\ forall g : driver.configField,
       g ∈ driver.configFields ->
       driver.name g = driver.name f
       \/ driver.reflect.Index (driver.field g) = driver.reflect.Index (driver.field f)
       \/ (driver.urlparam g = driver.urlparam f /\ driver.urlparam f <> "") ->
       g = f.
Proof.
  intros Hin. destruct (saved_not_transient f Hin) as (Htransient & Hparam & Htag).
  split; [apply configFieldMap_name; assumption|].
  split; [intros choice Hc; apply (configFieldMap_choice f choice Hin Hc)|].
  split; [apply defaultValue_get; assumption|].
  split; [assumption|]. split; [assumption|]. split; [assumption|].
  intros g Hg [Hname|[Hidx|[Hurl Hne]]].
  - pose proof (configFieldMap_name g Hg) as Hlookup. rewrite Hname in Hlookup.
    rewrite (configFieldMap_name f Hin) in Hlookup. congruence.
  - apply configFields_index_inj; assumption.
  - apply urlparam_inj; assumption.
Qed.

(** X20 on the field of the sort order. *)
Lemma X20_registry_witness :
  driver.configFieldMap (text := literalFloats) !! "cum" = Some sortField
  /\ driver.defaultValue sortField = "flat".
Proof.
  destruct (X20_registry (text := literalFloats) sortField sortField_registered)
    as (_ & Hchoice & Hdefault & _).
  split.
  - apply Hchoice. vm_compute. left.
  - rewrite Hdefault. reflexivity.
Defined.

(** ** X21: the menu and the current configuration *)

Section MenuCurrent.

Import driver.
Context {text : Float64Text} {FS : Type} {runtime : Runtime FS}.

(** The loop of configMenu looks at the name of a configuration and at
    what makeURL gives for it, and at nothing else. *)
Lemma menuEntries_same (u : url.URL) (configs configs' : list namedConfig) :
  Forall2 (fun c c' => Name c = Name c'
                       /\ makeURL (Config c) u = makeURL (Config c') u)
          configs configs' ->
  menuEntries configs u = menuEntries configs' u.
Proof.
  intros Hsame. unfold menuEntries. cbv zeta.
  match goal with
  | |- context [fold_left ?f configs ?a] =>
      enough (Hfold : forall acc, fold_left f configs acc = fold_left f configs' acc)
        by (rewrite Hfold; reflexivity)
  end.
  induction Hsame as [|c c' rest rest' [Hname Hmake] _ IH]; intros acc; [reflexivity|].
  rewrite !fold_left_step. rewrite IH. f_equal.
  destruct acc as [[result lastMatch] i]. rewrite Hname, Hmake. reflexivity.
Qed.

End MenuCurrent.

(** X21.  The menu does not depend on the current configuration: the
    transient fields that readSettings takes from it are fields that
    makeURL does not look at. *)
Theorem X21_configMenu_current {text : Float64Text} {FS : Type}
    {runtime : driver.Runtime FS}
    (fname : string) (u : url.URL) (fs : FS) (currentCfg currentCfg' : driver.PprofConfig) :
  driver.configMenu fname u fs currentCfg = driver.configMenu fname u fs currentCfg'.
Proof.
  unfold driver.configMenu. cbv zeta.
  assert (Hsame :
    driver.menuEntries
      match driver.readSettings fname fs currentCfg with
      | Ok settings =>
          ([ {| driver.Name := "Default"; driver.Config := driver.DefaultConfig |} ]
             ++ driver.Configs settings)%list
      | Err _ => [ {| driver.Name := "Default"; driver.Config := driver.DefaultConfig |} ]
      end u
    = driver.menuEntries
        match driver.readSettings fname fs currentCfg' with
        | Ok settings =>
            ([ {| driver.Name := "Default"; driver.Config := driver.DefaultConfig |} ]
               ++ driver.Configs settings)%list
        | Err _ => [ {| driver.Name := "Default"; driver.Config := driver.DefaultConfig |} ]
        end u);
    [|rewrite Hsame; reflexivity].
  apply menuEntries_same. unfold driver.readSettings.
  destruct (driver.ReadFile fname fs) as [data|err].
  - destruct (driver.Unmarshal data) as [parsed|err].
    + cbn [driver.Configs app]. constructor; [split; reflexivity|].
      induction (driver.Configs parsed) as [|c rest IH]; cbn [map]; constructor; [|exact IH].
      cbn [driver.Name driver.Config]. split; [reflexivity|].
      transitivity (driver.makeURL (driver.Config c) u).
      * apply makeURL_same_fields. intros f Hin Hact.
        apply resetTransient_other. apply inURL_not_transient; assumption.
      * symmetry. apply makeURL_same_fields. intros f Hin Hact.
        apply resetTransient_other. apply inURL_not_transient; assumption.
    + constructor; [split; reflexivity|constructor].
  - destruct (driver.IsNotExist err); cbn [driver.Configs app];
      (constructor; [split; reflexivity|constructor]).
Qed.

(** ** X22: one parameter *)

Section OneParameter.

Import driver.
Context {text : Float64Text}.

Lemma applyFields_skips (fields : list configField) (cfg : PprofConfig)
    (params : url.Values) :
  (forall g, g ∈ fields -> fromURL g = true -> url.Get params (urlparam g) = "") ->
  applyFields fields cfg params = (cfg, None).
Proof.
  intros Hall. apply applyFields_fixed. intros g Hg Hact Hvalue.
  rewrite (Hall g Hg Hact) in Hvalue. contradiction.
Qed.

Lemma applyFields_one (fields : list configField) (f : configField)
    (cfg : PprofConfig) (params : url.Values) :
  NoDup fields -> f ∈ fields -> fromURL f = true ->
  url.Get params (urlparam f) <> "" ->
  (forall g, g ∈ fields -> g <> f -> fromURL g = true ->
             url.Get params (urlparam g) = "") ->
  applyFields fields cfg params
  = match set cfg f (url.Get params (urlparam f)) with
    | (cfg', Some err) => (cfg', Some (ErrorSetting (name f) err))
    | (cfg', None) => (cfg', None)
    end.
Proof.
  intros Hnd Hin Hact Hvalue Hrest.
  apply list_elem_of_split in Hin as (pre & post & ->).
  apply NoDup_app in Hnd as (_ & Hpre & Hpost). apply NoDup_cons in Hpost as [Hpost _].
  rewrite applyFields_app.
  rewrite applyFields_skips.
  2:{ intros g Hg. apply Hrest; [apply elem_of_app; left; assumption|].
      intros ->. apply (Hpre f Hg). left. }
  rewrite applyFields_cons. cbv zeta. rewrite Hact.
  destruct (String.eqb_spec (url.Get params (urlparam f)) ""); [contradiction|].
  destruct (set cfg f _) as [cfg' [err|]]; [reflexivity|].
  apply applyFields_skips. intros g Hg. apply Hrest.
  - apply elem_of_app. right. right. assumption.
  - intros ->. contradiction.
Qed.

Lemma NoDup_configFields : NoDup configFields.
Proof. exact (NoDup_fmap_1 _ _ NoDup_indices). Qed.

End OneParameter.

(** X22.  applyURL on parameters that hold a value for one field and
    none for the others does what set does for that field and value,
    with the error of set inside the error that names the field; and
    configure under the name of the field leaves the same
    configuration. *)
Theorem X22_applyURL_one {text : Float64Text}
    (cfg : driver.PprofConfig) (f : driver.configField) (params : url.Values) :
  f ∈ driver.configFields ->
  driver.urlparam f <> "" ->
  url.Get params (driver.urlparam f) <> "" ->
  (forall g : driver.configField,
     g ∈ driver.configFields -> g <> f -> driver.urlparam g <> "" ->
     url.Get params (driver.urlparam g) = "") ->
  let value := url.Get params (driver.urlparam f) in
  driver.applyURL cfg params
  = match driver.set cfg f value with
    | (cfg', Some err) => (cfg', Some (ErrorSetting (driver.name f) err))
    | (cfg', None) => (cfg', None)
    end
  /\ driver.configure (driver.name f) value cfg = driver.set cfg f value
  /\ (driver.applyURL cfg params).1 = (driver.configure (driver.name f) value cfg).1.
Proof.
  intros Hin Hparam Hvalue Hrest value.
  assert (Hone : driver.applyURL cfg params
                 = match driver.set cfg f value with
                   | (cfg', Some err) => (cfg', Some (ErrorSetting (driver.name f) err))
                   | (cfg', None) => (cfg', None)
                   end).
  { rewrite applyURL_eq. apply applyFields_one.
    - apply NoDup_configFields.
    - assumption.
    - unfold fromURL. destruct (String.eqb_spec (driver.urlparam f) ""); [contradiction|reflexivity].
    - assumption.
    - intros g Hg Hne Hact. apply Hrest; [assumption|assumption|].
      intros Hempty. unfold fromURL in Hact. rewrite Hempty in Hact. discriminate Hact. }
  assert (Hconf : driver.configure (driver.name f) value cfg = driver.set cfg f value).
  { unfold driver.configure. rewrite (configFieldMap_name f Hin), String.eqb_refl. reflexivity. }
  split; [exact Hone|]. split; [exact Hconf|].
  rewrite Hone, Hconf. destruct (driver.set cfg f value) as [cfg' [err|]]; reflexivity.
Qed.

(** X22 on the parameter n=5. *)
Lemma X22_applyURL_one_witness :
  driver.applyURL (text := literalFloats) driver.DefaultConfig (url.Set_ ∅ "n" "5")
  = (driver.store driver.INodeCount (driver.VInt 5) driver.DefaultConfig, None).
Proof.
  refine (eq_trans
            (proj1 (X22_applyURL_one (text := literalFloats) driver.DefaultConfig
                      nodecountField (url.Set_ ∅ "n" "5")
                      nodecountField_registered _ _ _)) _).
  - vm_compute. discriminate.
  - vm_compute. discriminate.
  - intros g Hg Hne _. each_field Hg; try reflexivity. exfalso. apply Hne. reflexivity.
  - reflexivity.
Defined.


(** ** X23 and X24: a URL that makeURL wrote, encoded again and in the menu *)

(** X23.  makeURL for one configuration on the URL that makeURL returned
    for another: every parameter has the value it has when the URL is
    made for the one configuration from the first URL, so nothing of the
    other configuration is left; and no change is reported exactly when
    the two configurations have the same URL value in every field that
    makeURL writes. *)
Theorem X23_makeURL_over {text : Float64Text} (cfg1 cfg2 : driver.PprofConfig) (u : url.URL) :
  let u1 := (driver.makeURL cfg1 u).1 in
  (forall key : string,
     url.Get (url.Query (driver.makeURL cfg2 u1).1) key
     = url.Get (url.Query (driver.makeURL cfg2 u).1) key)
  /\ ((driver.makeURL cfg2 u1).2 = false <->
      forall f : driver.configField,
        f ∈ driver.configFields -> inURL f = true ->
        driver.urlValue cfg1 f = driver.urlValue cfg2 f).
Proof.
  cbv zeta. split.
  - intros key. destruct (decide (key ∈ urlparams driver.configFields)) as [Hin|Hout].
    + apply elem_of_urlparams in Hin as (f & Hf & Hact & <-).
      rewrite !makeURL_Get by assumption. reflexivity.
    + rewrite !makeURL_other by assumption. reflexivity.
  - split.
    + intros Hsame f Hf Hact.
      destruct (makeURL_unchanged cfg2 _ Hsame) as [_ Hall].
      rewrite <- (Hall f Hf Hact). symmetry. apply makeURL_Get; assumption.
    + intros Hall.
      rewrite (makeURL_fixed cfg2 (driver.makeURL cfg1 u).1); [reflexivity|].
      intros f Hf Hact. rewrite makeURL_Get by assumption. apply Hall; assumption.
Qed.

(** X24.  The URL of a menu entry leads to a menu with a current entry.
    For the configuration of any entry of the menu made for a URL, the
    menu made for the URL of that entry marks as current an entry, at
    that place or a later one, for whose configuration makeURL reports no
    change on that URL. *)
Theorem X24_menu_link {text : Float64Text} {FS : Type} {runtime : driver.Runtime FS}
    (fname : string) (u : url.URL) (fs : FS) (currentCfg : driver.PprofConfig)
    (k : nat) (c : driver.namedConfig) :
  let configs :=
    {| driver.Name := "Default"; driver.Config := driver.DefaultConfig |}
    :: match driver.readSettings fname fs currentCfg with
       | Ok read => driver.Configs read
       | Err _ => []
       end in
  configs !! k = Some c ->
  let link := (driver.makeURL (driver.Config c) u).1 in
  exists (j : nat) (c' : driver.namedConfig) (e : driver.configMenuEntry),
    (k <= j)%nat
    /\ configs !! j = Some c'
    /\ driver.configMenu fname link fs currentCfg !! j = Some e
    /\ driver.EntryName e = driver.Name c'
    /\ driver.Current e = true
    /\ driver.makeURL (driver.Config c') link = (link, false).
Proof.
  cbv zeta. unfold driver.configMenu, driver.menuEntries.
  set (configs := {| driver.Name := "Default"; driver.Config := driver.DefaultConfig |}
                  :: match driver.readSettings fname fs currentCfg with
                     | Ok read => driver.Configs read
                     | Err _ => []
                     end).
  assert (Hconfigs :
    match driver.readSettings fname fs currentCfg with
    | Ok settings =>
        ([ {| driver.Name := "Default"; driver.Config := driver.DefaultConfig |} ]
           ++ driver.Configs settings)%list
    | Err _ => [ {| driver.Name := "Default"; driver.Config := driver.DefaultConfig |} ]
    end = configs)
    by (unfold configs; destruct (driver.readSettings fname fs currentCfg); reflexivity).
  rewrite Hconfigs. clearbody configs. clear Hconfigs. intros Hk.
  set (link := (driver.makeURL (driver.Config c) u).1).
  assert (Hlink : (driver.makeURL (driver.Config c) link).2 = false)
    by (unfold link; rewrite makeURL_again; reflexivity).
  destruct (menuEntries_loop link configs [] (-1) 0) as (lastMatch & Hfold & Hlast).
  cbv zeta in Hfold. cbv zeta. rewrite Hfold. cbn [app]. clear Hfold.
  destruct Hlast as [[_ Hall]|(j & c' & Hj & -> & Hc' & Hall)].
  - rewrite (forallb_lookup _ _ _ _ Hall Hk) in Hlink. discriminate.
  - assert (Hle : (k <= j)%nat).
    { destruct (Nat.le_gt_cases k j) as [Hle|Hgt]; [exact Hle|].
      rewrite (forallb_drop_lookup _ _ _ _ _ Hall Hk Hgt) in Hlink. discriminate. }
    destruct (Z.leb_spec 0 (0 + Z.of_nat j)); [|lia].
    rewrite Z.add_0_l, Nat2Z.id. exists j, c'. eexists.
    split; [exact Hle|]. split; [exact Hj|]. split.
    + rewrite list_lookup_alter, list_lookup_imap, Hj, decide_True by reflexivity.
      reflexivity.
    + cbn [driver.EntryName driver.Current]. repeat split.
      apply makeURL_unchanged. exact Hc'.
Qed.

(** X24 on the entry of the default configuration, with settings that hold
    one configuration more. *)
Lemma X24_menu_link_witness :
  let read := {| driver.Configs :=
                   [ {| driver.Name := "mine";
                        driver.Config := driver.store driver.INodeCount (driver.VInt 5)
                                           driver.DefaultConfig |} ] |} in
  let u := {| url.Scheme := "http"; url.Host := "localhost"; url.Path := "/ui/";
              url.RawQuery := "n=5"; url.Fragment := "" |} in
  exists (j : nat) (e : driver.configMenuEntry),
    driver.configMenu (text := literalFloats) (runtime := fixedRuntime (Ok "{}") (Ok read))
      "settings.json" (driver.makeURL (text := literalFloats) driver.DefaultConfig u).1
      tt driver.DefaultConfig !! j = Some e
    /\ driver.Current e = true.
Proof.
  cbv zeta.
  destruct (X24_menu_link (text := literalFloats)
              (runtime := fixedRuntime (Ok "{}")
                 (Ok {| driver.Configs :=
                          [ {| driver.Name := "mine";
                               driver.Config := driver.store driver.INodeCount (driver.VInt 5)
                                                  driver.DefaultConfig |} ] |}))
              "settings.json"
              {| url.Scheme := "http"; url.Host := "localhost"; url.Path := "/ui/";
                 url.RawQuery := "n=5"; url.Fragment := "" |}
              tt driver.DefaultConfig 0%nat
              {| driver.Name := "Default"; driver.Config := driver.DefaultConfig |} eq_refl)
    as (j & c' & e & _ & _ & Hmenu & _ & Hcurrent & _).
  exists j, e. split; [exact Hmenu|exact Hcurrent].
Defined.
